(** * WABO NeuroSleep: the device service's protocol and metric core

    A shallow embedding of [DeviceService] (binary SW3011 protocol variant):
    the CRC-8 checksum, the frame decoder over the byte accumulator, the
    24-bit sample decoder, the metric derivation of the spectral analysis,
    the handshake encoder and the motion-driven simulation.

    Octets ([Uint8Array] elements) are integers in [0, 256); JavaScript
    numbers are IEEE-754 binary64 values, modelled by the primitive floats. *)

From Stdlib Require Import ZArith List Lia Bool Arith Ascii.
From Stdlib Require String.
From Stdlib Require Import Floats.
From Stdlib Require Uint63.
Import ListNotations.

#[local] Set Warnings "-inexact-float".

#[local] Open Scope Z_scope.

(** ** Octets *)

Definition is_byte (b : Z) : Prop := 0 <= b < 256.

Definition is_byteb (b : Z) : bool := (0 <=? b) && (b <? 256).

Definition bytes (l : list Z) : Prop := Forall is_byte l.

Definition all_bytes : list Z := map Z.of_nat (seq 0 256).

(** ** Checksum engine *)

Module Crc.

(** One pass of the inner [for (j ...)] loop of [crc8]: the pair is
    [(crc, byte)]. *)
Definition crc8_bit (st : Z * Z) : Z * Z :=
  let '(crc, byte) := st in
  let mix := Z.land (Z.lxor crc byte) 0x01 in
  let crc := Z.shiftr crc 1 in
  let crc := if mix =? 0 then crc else Z.lxor crc 0x8C in
  (crc, Z.shiftr byte 1).

(** The body of the outer loop: eight inner rounds on [data[i]]. *)
Definition crc8_byte (crc byte : Z) : Z :=
  fst (Nat.iter 8 crc8_bit (crc, byte)).

(** [crc8(data)]: the accumulator starts at [0x00]. *)
Definition crc8 (data : list Z) : Z := fold_left crc8_byte data 0x00.

(** *** The catalogued CRC-8/MAXIM-DOW (Dallas 1-Wire) algorithm

    This definition follows the specification's words, not the source:
    width 8, polynomial [0x31] (x^8 + x^5 + x^4 + 1), initial value 0,
    input and output reflected, no final xor.  The register is divided
    MSB-first by the polynomial; reflection is made explicit. *)

Definition bit_of (b : Z) (i : nat) : Z :=
  if Z.testbit b (Z.of_nat i) then 1 else 0.

Definition reflect8 (b : Z) : Z :=
  fold_left (fun acc i => Z.lor acc (Z.shiftl (bit_of b i) (Z.of_nat (7 - i))))
            (seq 0 8) 0.

Definition poly31_shift (r : Z) : Z :=
  let r' := Z.land (Z.shiftl r 1) 0xFF in
  if Z.testbit r 7 then Z.lxor r' 0x31 else r'.

Definition maxim_byte (r b : Z) : Z :=
  Nat.iter 8 poly31_shift (Z.lxor r (reflect8 b)).

Definition crc8_maxim_reference (data : list Z) : Z :=
  reflect8 (fold_left maxim_byte data 0).

(** The ASCII digits "123456789", the catalogue's check input. *)
Definition check_input : list Z := [49; 50; 51; 52; 53; 54; 55; 56; 57].

(** The eight rounds on a zero input byte. *)
Definition mix8 (x : Z) : Z := crc8_byte x 0.

End Crc.

Import Crc.

(** ** [Uint8Array] operations used by the decoder *)

(** [buffer.indexOf(x)]: [None] stands for [-1]. *)
Fixpoint indexOf (x : Z) (buffer : list Z) : option nat :=
  match buffer with
  | [] => None
  | b :: rest => if b =? x then Some O else option_map S (indexOf x rest)
  end.

(** [buffer.slice(from)] and [buffer.slice(from, to)] for in-range,
    non-negative bounds. *)
Definition slice_from (from : nat) (buffer : list Z) : list Z := skipn from buffer.

Definition slice (from to : nat) (buffer : list Z) : list Z :=
  firstn (to - from) (skipn from buffer).

(** ** Frame decoder *)

Section FrameDecoder.

(** The decoder is written against the rest of the service: [Svc] is
    everything [parseEEGPayload] may touch (it never touches the byte
    accumulator), and [console_warn] is the CRC diagnostic. *)
Context {Svc : Type}.
Variable parseEEGPayload : list Z -> Svc -> Svc.
Variable console_warn : Z -> Z -> Svc -> Svc.

Inductive control : Type :=
| Break (buffer : list Z) (this : Svc)
| Continue (buffer : list Z) (this : Svc).

(** The body of [while (buffer.length >= 6)] in [processBinaryFrames]. *)
Definition loopBody (buffer : list Z) (this : Svc) : control :=
  match indexOf 0xAA buffer with
  | None => Break [] this
  | Some (S k) => Continue (slice_from (S k) buffer) this
  | Some O =>
      if (length buffer <? 4)%nat then Break buffer this
      else
        let func := nth 1 buffer 0 in
        let len := Z.to_nat (nth 3 buffer 0) in
        let packetSize := (4 + len + 2)%nat in
        if (length buffer <? packetSize)%nat then Break buffer this
        else if negb (nth (packetSize - 1) buffer 0 =? 0xBB)
        then Continue (slice_from 1 buffer) this
        else
          let crcSource := slice 1 (packetSize - 2) buffer in
          let receivedCrc := nth (packetSize - 2) buffer 0 in
          let calculatedCrc := crc8 crcSource in
          if receivedCrc =? calculatedCrc
          then
            let this' :=
              if func =? 0xF0
              then parseEEGPayload (slice 4 (4 + len) buffer) this
              else this in
            Continue (slice_from packetSize buffer) this'
          else
            Continue (slice_from 1 buffer)
                     (console_warn receivedCrc calculatedCrc this)
  end.

(** The [while] loop, with fuel; [None] means the fuel ran out. *)
Fixpoint whileLoop (fuel : nat) (buffer : list Z) (this : Svc)
  : option (list Z * Svc) :=
  match fuel with
  | O => None
  | S fuel' =>
      if (length buffer <? 6)%nat then Some (buffer, this)
      else match loopBody buffer this with
           | Break buffer' this' => Some (buffer', this')
           | Continue buffer' this' => whileLoop fuel' buffer' this'
           end
  end.

(** One decode pass over the accumulator: the buffer's length plus one
    is always enough fuel (see [whileLoop_enough_fuel]). *)
Definition decodePass (buffer : list Z) (this : Svc) : list Z * Svc :=
  match whileLoop (S (length buffer)) buffer this with
  | Some r => r
  | None => (buffer, this)
  end.

(** [appendBuffer(value); processBinaryFrames()] for each received chunk,
    as [readLoop] does. *)
Fixpoint feed (chunks : list (list Z)) (buffer : list Z) (this : Svc)
  : list Z * Svc :=
  match chunks with
  | [] => (buffer, this)
  | value :: later =>
      let '(buffer', this') := decodePass (buffer ++ value) this in
      feed later buffer' this'
  end.

End FrameDecoder.

(** A change [g] of the service applied to the result of a pass. *)
Definition onService {Svc : Type} (g : Svc -> Svc) (r : list Z * Svc)
  : list Z * Svc := (fst r, g (snd r)).

Arguments Break {Svc} buffer this.
Arguments Continue {Svc} buffer this.

(** The log of the decoder's observable calls, used to count what one pass
    hands to the sample decoder and what it reports. *)
Inductive event : Type :=
| Handed (payload : list Z)
| CrcMismatch (receivedCrc calculatedCrc : Z).

Definition logPayload (payload : list Z) (log : list event) : list event :=
  log ++ [Handed payload].

Definition logWarning (receivedCrc calculatedCrc : Z) (log : list event)
  : list event :=
  log ++ [CrcMismatch receivedCrc calculatedCrc].

(** The wire format [AA FUNC ADDR LEN [DATA...] CRC BB], with the CRC over
    [FUNC .. DATA] (the comment above [processBinaryFrames] and step 4 of
    its body). *)
Definition frame (func addr : Z) (payload : list Z) : list Z :=
  let covered := func :: addr :: Z.of_nat (length payload) :: payload in
  0xAA :: covered ++ [crc8 covered; 0xBB].

(** A byte sequence that forms a correctly framed data frame carrying
    [payload]: FUNCTION is [0xF0], every field is an octet and LENGTH
    counts the payload bytes. *)
Definition data_frame (bs payload : list Z) : Prop :=
  exists addr,
    is_byte addr /\ bytes payload /\ (length payload <= 255)%nat /\
    bs = frame 0xF0 addr payload.

(** One bit of an octet flipped. *)
Definition flipBit (k : nat) (x : Z) : Z := Z.lxor x (Z.shiftl 1 (Z.of_nat k)).

(** Some suffix of [bs] begins with a correctly framed data frame. *)
Definition embedsDataFrame (bs : list Z) : Prop :=
  exists before fr payload after,
    bs = before ++ fr ++ after /\ data_frame fr payload.

(** The same, decided: [startsDataFrame bs] tests whether [bs] begins
    with a correctly framed data frame. *)
Definition startsDataFrame (bs : list Z) : bool :=
  match bs with
  | start :: func :: addr :: L :: more =>
      let payload := firstn (Z.to_nat L) more in
      (start =? 0xAA) && (func =? 0xF0) && is_byteb addr && is_byteb L &&
      forallb is_byteb payload &&
      match skipn (Z.to_nat L) more with
      | c :: e :: _ => (c =? crc8 (func :: addr :: L :: payload)) && (e =? 0xBB)
      | _ => false
      end
  | _ => false
  end.

Fixpoint embedsDataFrameb (bs : list Z) : bool :=
  match bs with
  | [] => false
  | _ :: rest => startsDataFrame bs || embedsDataFrameb rest
  end.

(** The service after the CRC diagnostics [ws], in order, and nothing
    else. *)
Definition warned {Svc : Type} (console_warn : Z -> Z -> Svc -> Svc)
    (ws : list (Z * Z)) (this : Svc) : Svc :=
  fold_left (fun s w => console_warn (fst w) (snd w) s) ws this.

(** ** Numbers *)

#[local] Open Scope float_scope.

(** An integer as a JavaScript number (exact below 2^53 in magnitude). *)
Definition number_of_int (z : Z) : float :=
  if (z <? 0)%Z then - of_uint63 (Uint63.of_Z (- z)) else of_uint63 (Uint63.of_Z z).

(** [Math.max(x, y)] and [Math.min(x, y)]: NaN if either is NaN, and
    [+0] counts as larger than [-0]. *)
Definition Math_max (x y : float) : float :=
  if is_nan x || is_nan y then nan
  else if x <? y then y
  else if y <? x then x
  else match classify x with NZero => y | _ => x end.

Definition Math_min (x y : float) : float :=
  if is_nan x || is_nan y then nan
  else if x <? y then x
  else if y <? x then y
  else match classify x with PZero => y | _ => x end.

(** [x || d] on numbers: [0], [-0] and NaN are falsy. *)
Definition orDefault (x d : float) : float :=
  if is_nan x || is_zero x then d else x.

(** A band power is a non-negative, finite number. *)
Definition bandPower (x : float) : Prop :=
  (0 <=? x) = true /\ (x <? infinity) = true.

(** Classes of binary64 values, read off their specification
    ([Prim2SF]): a number that is not NaN and whose sign is [s]; among
    these the ones that are not zero; and the ones that are not infinite. *)
Definition signedSF (s : bool) (x : spec_float) : Prop :=
  match x with
  | S754_zero _ => True
  | S754_infinity s' | S754_finite s' _ _ => s' = s
  | S754_nan => False
  end.

Definition nonzeroSF (s : bool) (x : spec_float) : Prop :=
  match x with
  | S754_infinity s' | S754_finite s' _ _ => s' = s
  | S754_zero _ | S754_nan => False
  end.

Definition finiteSF (s : bool) (x : spec_float) : Prop :=
  match x with
  | S754_zero _ => True
  | S754_finite s' _ _ => s' = s
  | S754_infinity _ | S754_nan => False
  end.

(** ** Data model ([types.ts], [constants.ts]) *)

Record EEGDataPoint := { timestamp : Z; value : float }.

Record FrequencyBands :=
  { delta : float; theta : float; alpha : float; beta : float; gamma : float }.

Record AnalysisMetrics :=
  { attention : float; relaxation : float; isMeditating : bool }.

Record Snapshot :=
  { raw : EEGDataPoint; bands : FrequencyBands; metrics : AnalysisMetrics }.

Definition MEDITATION_THRESHOLD : float := 0.85.

Definition SAMPLING_RATE : float := 250.

(** ** Sample decoder: one 3-byte group *)

(** [(b0 << 16) | (b1 << 8) | b2], then the 24-bit sign extension. *)
Definition rawInt24 (b0 b1 b2 : Z) : Z :=
  let rawInt := Z.lor (Z.lor (Z.shiftl b0 16) (Z.shiftl b1 8)) b2 in
  if (Z.land rawInt 0x800000 =? 0)%Z then rawInt else (rawInt - 0x1000000)%Z.

Definition UV_SCALE : float := (2.4 / 6 / 8388607) * 1000000.

Definition uvValue (b0 b1 b2 : Z) : float :=
  number_of_int (rawInt24 b0 b1 b2) * UV_SCALE.

(** The value of a 24-bit big-endian two's-complement group, as the
    specification words it. *)
Definition signed24 (b0 b1 b2 : Z) : Z :=
  let v := (b0 * 65536 + b1 * 256 + b2)%Z in
  if (v <? 8388608)%Z then v else (v - 16777216)%Z.

(** The samples of a payload, group by group: [floor(L / 3)] of them. *)
Definition sampleAt (payload : list Z) (i : nat) : float :=
  uvValue (nth (3 * i) payload 0%Z) (nth (3 * i + 1) payload 0%Z)
          (nth (3 * i + 2) payload 0%Z).

Definition decodedSamples (payload : list Z) : list float :=
  map (sampleAt payload) (seq 0 (length payload / 3)).

(** ** Metric derivation (step 5 of [analyzeSignal]) *)

Definition eps : float := 0.001.

Definition rawRelaxationRatio (b : FrequencyBands) : float :=
  alpha b / (beta b + theta b + eps).

Definition rawAttentionRatio (b : FrequencyBands) : float :=
  beta b / (alpha b + theta b + eps).

(** Lines 515 to 527 of [analyzeSignal]; [totalPower] is computed there
    and never used. *)
Definition deriveMetrics (b : FrequencyBands) : AnalysisMetrics :=
  let relaxation := Math_min 1 (Math_max 0 (rawRelaxationRatio b * 0.8)) in
  let attention := Math_min 1 (Math_max 0 (rawAttentionRatio b * 0.8)) in
  let isMeditating := MEDITATION_THRESHOLD <? relaxation in
  {| attention := attention; relaxation := relaxation;
     isMeditating := isMeditating |}.

(** ** The device service *)

Record DeviceService :=
  { binaryBuffer : list Z;
    rawSignalBuffer : list float;
    isSimulating : bool;
    agitationLevel : float;
    lastAcceleration : option (float * float * float);
    latestData : Snapshot;
    (** bookkeeping of the environment: how many times the clock and the
        random generator have been read, and what was written to the
        console *)
    clockReads : nat;
    randomDraws : nat;
    consoleWarnings : list (Z * Z) }.

Definition emptyData : Snapshot :=
  {| raw := {| timestamp := 0; value := 0 |};
     bands := {| delta := 0; theta := 0; alpha := 0; beta := 0; gamma := 0 |};
     metrics := {| attention := 0; relaxation := 0; isMeditating := false |} |}.

(** The service as constructed. *)
Definition newDeviceService : DeviceService :=
  {| binaryBuffer := []; rawSignalBuffer := []; isSimulating := false;
     agitationLevel := 0; lastAcceleration := None; latestData := emptyData;
     clockReads := 0; randomDraws := 0; consoleWarnings := [] |}.

Definition set_binaryBuffer (b : list Z) (this : DeviceService) :=
  {| binaryBuffer := b; rawSignalBuffer := rawSignalBuffer this;
     isSimulating := isSimulating this; agitationLevel := agitationLevel this;
     lastAcceleration := lastAcceleration this; latestData := latestData this;
     clockReads := clockReads this; randomDraws := randomDraws this;
     consoleWarnings := consoleWarnings this |}.

Definition set_rawSignalBuffer (b : list float) (this : DeviceService) :=
  {| binaryBuffer := binaryBuffer this; rawSignalBuffer := b;
     isSimulating := isSimulating this; agitationLevel := agitationLevel this;
     lastAcceleration := lastAcceleration this; latestData := latestData this;
     clockReads := clockReads this; randomDraws := randomDraws this;
     consoleWarnings := consoleWarnings this |}.

Definition set_latestData (d : Snapshot) (this : DeviceService) :=
  {| binaryBuffer := binaryBuffer this; rawSignalBuffer := rawSignalBuffer this;
     isSimulating := isSimulating this; agitationLevel := agitationLevel this;
     lastAcceleration := lastAcceleration this; latestData := d;
     clockReads := clockReads this; randomDraws := randomDraws this;
     consoleWarnings := consoleWarnings this |}.

Definition set_agitationLevel (a : float) (this : DeviceService) :=
  {| binaryBuffer := binaryBuffer this; rawSignalBuffer := rawSignalBuffer this;
     isSimulating := isSimulating this; agitationLevel := a;
     lastAcceleration := lastAcceleration this; latestData := latestData this;
     clockReads := clockReads this; randomDraws := randomDraws this;
     consoleWarnings := consoleWarnings this |}.

Definition set_lastAcceleration (a : option (float * float * float))
           (this : DeviceService) :=
  {| binaryBuffer := binaryBuffer this; rawSignalBuffer := rawSignalBuffer this;
     isSimulating := isSimulating this; agitationLevel := agitationLevel this;
     lastAcceleration := a; latestData := latestData this;
     clockReads := clockReads this; randomDraws := randomDraws this;
     consoleWarnings := consoleWarnings this |}.

Definition set_isSimulating (b : bool) (this : DeviceService) :=
  {| binaryBuffer := binaryBuffer this; rawSignalBuffer := rawSignalBuffer this;
     isSimulating := b; agitationLevel := agitationLevel this;
     lastAcceleration := lastAcceleration this; latestData := latestData this;
     clockReads := clockReads this; randomDraws := randomDraws this;
     consoleWarnings := consoleWarnings this |}.

Definition set_reads (c r : nat) (this : DeviceService) :=
  {| binaryBuffer := binaryBuffer this; rawSignalBuffer := rawSignalBuffer this;
     isSimulating := isSimulating this; agitationLevel := agitationLevel this;
     lastAcceleration := lastAcceleration this; latestData := latestData this;
     clockReads := c; randomDraws := r;
     consoleWarnings := consoleWarnings this |}.

Definition console_warn (receivedCrc calculatedCrc : Z) (this : DeviceService) :=
  {| binaryBuffer := binaryBuffer this; rawSignalBuffer := rawSignalBuffer this;
     isSimulating := isSimulating this; agitationLevel := agitationLevel this;
     lastAcceleration := lastAcceleration this; latestData := latestData this;
     clockReads := clockReads this; randomDraws := randomDraws this;
     consoleWarnings := consoleWarnings this ++ [(receivedCrc, calculatedCrc)] |}.

(** [resetData()]. *)
Definition resetData (this : DeviceService) : DeviceService :=
  set_binaryBuffer [] (set_rawSignalBuffer [] (set_latestData emptyData this)).

Section Service.

(** The environment: the [n]-th reading of [Date.now()], the [n]-th draw
    of [Math.random()], and [Math.sin]. *)
Variable Date_now : nat -> Z.
Variable Math_random : nat -> float.
Variable Math_sin : float -> float.

(** Steps 1 to 4 of [analyzeSignal] (detrend, Hann window, the
    [Float32Array] FFT of [calculateSpectrum], band averages): they need
    [Math.cos], [Math.sin] and single-precision rounding, and are taken
    as given. *)
Variable bandPowers : list float -> FrequencyBands.

Definition FFT_SIZE : nat := 256.

(** [analyzeSignal(data)]. *)
Definition analyzeSignal (data : list float) (this : DeviceService)
  : DeviceService :=
  let b := bandPowers data in
  let d := latestData this in
  set_latestData {| raw := raw d; bands := b; metrics := deriveMetrics b |} this.

(** The body of the [for] loop of [parseEEGPayload] for one complete
    group: one clock reading, one push. *)
Definition pushSample (b0 b1 b2 : Z) (this : DeviceService) : DeviceService :=
  let uv := uvValue b0 b1 b2 in
  let d := latestData this in
  let this1 :=
    set_latestData
      {| raw := {| timestamp := Date_now (clockReads this); value := uv |};
         bands := bands d; metrics := metrics d |} this in
  let this2 := set_reads (S (clockReads this)) (randomDraws this) this1 in
  set_rawSignalBuffer (rawSignalBuffer this ++ [uv]) this2.

(** The [for (i = 0; i < payload.length; i += 3)] loop: it stops at the
    first index [i] with [i + 2 >= payload.length]. *)
Fixpoint sampleLoop (payload : list Z) (this : DeviceService) : DeviceService :=
  match payload with
  | b0 :: b1 :: b2 :: rest => sampleLoop rest (pushSample b0 b1 b2 this)
  | _ => this
  end.

Definition lastN {A : Type} (n : nat) (l : list A) : list A :=
  skipn (length l - n) l.

(** [parseEEGPayload(payload)]: the loop, then the analysis trigger and
    the cap of the sample window. *)
Definition parseEEGPayload (payload : list Z) (this : DeviceService)
  : DeviceService :=
  let this1 := sampleLoop payload this in
  if (FFT_SIZE <=? length (rawSignalBuffer this1))%nat
  then
    let windowData := lastN FFT_SIZE (rawSignalBuffer this1) in
    let this2 := analyzeSignal windowData this1 in
    if (1000 <? length (rawSignalBuffer this2))%nat
    then set_rawSignalBuffer (lastN 500 (rawSignalBuffer this2)) this2
    else this2
  else this1.

(** [appendBuffer(newData)]. *)
Definition appendBuffer (newData : list Z) (this : DeviceService) :=
  set_binaryBuffer (binaryBuffer this ++ newData) this.

(** [processBinaryFrames()]: the loop runs on the local [buffer]; the
    field is written back once at the end. *)
Definition processBinaryFrames (this : DeviceService) : DeviceService :=
  let '(buffer, this') :=
    decodePass parseEEGPayload console_warn (binaryBuffer this) this in
  set_binaryBuffer buffer this'.

(** One delivery of [readLoop]: [appendBuffer(value); processBinaryFrames()]. *)
Definition receive (value : list Z) (this : DeviceService) : DeviceService :=
  processBinaryFrames (appendBuffer value this).

(** The deliveries of [readLoop], one chunk after the other. *)
Definition receiveAll (chunks : list (list Z)) (this : DeviceService)
  : DeviceService :=
  fold_left (fun this value => receive value this) chunks this.

(** *** Simulation *)

(** [handleMotion(event)] for an event whose acceleration readings are
    the numbers [x], [y], [z]. *)
Definition handleMotion (x y z : float) (this : DeviceService) : DeviceService :=
  let this1 :=
    match lastAcceleration this with
    | Some (lx, ly, lz) =>
        let delta := abs (x - lx) + abs (y - ly) + abs (z - lz) in
        if 1.0 <? delta
        then set_agitationLevel (agitationLevel this + delta * 1.5) this
        else this
    | None => this
    end in
  set_lastAcceleration (Some (x, y, z)) this1.

(** [updateSimulation()]: six random draws (alpha, beta, theta, delta,
    gamma, raw wave) and two clock readings. *)
Definition updateSimulation (this : DeviceService) : DeviceService :=
  let agitation := Math_max 0 (agitationLevel this * 0.96) in
  let normalizedAgitation := Math_min (agitation / 20) 1 in
  let targetRelaxation := 1 - normalizedAgitation in
  let prevRelaxation := orDefault (relaxation (metrics (latestData this))) 0.5 in
  let relaxation := prevRelaxation * 0.85 + targetRelaxation * 0.15 in
  let attention := 1 - relaxation in
  let isMeditating := MEDITATION_THRESHOLD <? relaxation in
  let random k := Math_random (randomDraws this + k)%nat in
  let alpha := (relaxation * 40) + 10 + (random 0%nat * 5) in
  let beta := (attention * 30) + 5 + (random 1%nat * 5) in
  let theta := 10 + random 2%nat * 5 in
  let delta := 5 + random 3%nat * 5 in
  let gamma := (attention * 20) + random 4%nat * 5 in
  let t := number_of_int (Date_now (clockReads this)) / 1000 in
  let PI := 0x1.921fb54442d18p+1 in
  let rawValue :=
    if 0.7 <? relaxation
    then Math_sin (t * 10 * PI * 2) * 50 + (random 5%nat * 8)
    else Math_sin (t * 22 * PI * 2) * 20 + (random 5%nat * 40 - 20)
         + (Math_sin (t * 4) * 10) in
  let data :=
    {| raw := {| timestamp := Date_now (S (clockReads this)); value := rawValue |};
       bands := {| delta := delta; theta := theta; alpha := alpha;
                   beta := beta; gamma := gamma |};
       metrics := {| attention := attention; relaxation := relaxation;
                     isMeditating := isMeditating |} |} in
  set_reads (2 + clockReads this) (6 + randomDraws this)
    (set_latestData data (set_agitationLevel agitation this)).

(** [startSimulation()] on a service that is not connected. *)
Definition startSimulation (this : DeviceService) : DeviceService :=
  set_agitationLevel 0 (set_isSimulating true this).

(** [stopSimulation()]. *)
Definition stopSimulation (this : DeviceService) : DeviceService :=
  resetData
    (set_agitationLevel 0 (set_lastAcceleration None (set_isSimulating false this))).

(** What the simulation sees: timer ticks and motion events. *)
Inductive simEvent : Type :=
| Tick
| Motion (x y z : float).

Definition simStep (this : DeviceService) (e : simEvent) : DeviceService :=
  match e with
  | Tick => updateSimulation this
  | Motion x y z => handleMotion x y z this
  end.

Definition simRun (events : list simEvent) (this : DeviceService) : DeviceService :=
  fold_left simStep events this.

End Service.

(** How many timer ticks a run holds. *)
Definition ticks (events : list simEvent) : nat :=
  length (filter (fun e => match e with Tick => true | Motion _ _ _ => false end)
                 events).

(** Zero motion input: every motion event reads [(0, 0, 0)]. *)
Definition zeroMotion (e : simEvent) : Prop :=
  e = Tick \/ e = Motion 0 0 0.

(** One tick of the relaxation smoothing when the target is 1: the
    previous value (0.5 when it is falsy) weighs 0.85, the target 0.15. *)
Definition relaxStep (prev : float) : float :=
  orDefault prev 0.5 * 0.85 + 1 * 0.15.

(** The relaxation after [n] ticks from the initial snapshot (where it is 0). *)
Definition relaxAfter (n : nat) : float := Nat.iter n relaxStep 0.

(** What a run without motion keeps true of the service. *)
Definition calm (this : DeviceService) : Prop :=
  agitationLevel this = 0 /\
  (lastAcceleration this = None \/ lastAcceleration this = Some (0, 0, 0)) /\
  isMeditating (metrics (latestData this))
    = (MEDITATION_THRESHOLD <? relaxation (metrics (latestData this))).

#[local] Close Scope float_scope.

(** ** Handshake encoder *)

Module Handshake.

Import String.
#[local] Open Scope Z_scope.

Definition isDigit (c : ascii) : bool :=
  let n := nat_of_ascii c in (48 <=? n)%nat && (n <=? 57)%nat.

(** [s.replace(/[^0-9]/g, '')]. *)
Fixpoint removeNonDigits (s : string) : string :=
  match s with
  | EmptyString => EmptyString
  | String c rest =>
      if isDigit c then String c (removeNonDigits rest) else removeNonDigits rest
  end.

Fixpoint replicate (n : nat) (c : ascii) : string :=
  match n with
  | O => EmptyString
  | S n' => String c (replicate n' c)
  end.

(** [s.padEnd(n, c)] for a one-character filler. *)
Definition padEnd (n : nat) (c : ascii) (s : string) : string :=
  s ++ replicate (n - length s) c.

(** [s.slice(from, to)] and [s.substring(from, to)] for
    [0 <= from <= to]. *)
Definition sliceStr (from to : nat) (s : string) : string :=
  substring from (to - from) s.

Definition hexValue (c : ascii) : option Z :=
  let n := Z.of_nat (nat_of_ascii c) in
  if (48 <=? n) && (n <=? 57) then Some (n - 48)
  else if (97 <=? n) && (n <=? 102) then Some (n - 87)
  else if (65 <=? n) && (n <=? 70) then Some (n - 55)
  else None.

(** [parseInt(s, 16)] on a string that starts with neither white space,
    a sign nor [0x]: the longest prefix of hexadecimal digits is
    read; [None] is NaN (no digit at all). *)
Fixpoint parseHex (s : string) (acc : option Z) : option Z :=
  match s with
  | EmptyString => acc
  | String c rest =>
      match hexValue c with
      | None => acc
      | Some d =>
          parseHex rest (Some (16 * match acc with Some a => a | None => 0 end + d))
      end
  end.

Definition parseInt16 (s : string) : option Z := parseHex s None.

(** A number used as an integer (in [^], or stored in a [Uint8Array]):
    NaN counts as 0. *)
Definition toInt (n : option Z) : Z :=
  match n with Some z => z | None => 0 end.

(** [new Uint8Array([...])]: every element is stored modulo 256. *)
Definition toUint8Array (l : list Z) : list Z := map (fun z => z mod 256) l.

Definition cleanId (deviceIdStr : string) : string :=
  sliceStr 0 6 (padEnd 6 "0"%char (removeNonDigits deviceIdStr)).

(** The frame built by [sendHandshake(deviceIdStr)]. *)
Definition handshakeFrame (deviceIdStr : string) : list Z :=
  let cleanId := cleanId deviceIdStr in
  let id1 := toInt (parseInt16 (sliceStr 0 2 cleanId)) in
  let id2 := toInt (parseInt16 (sliceStr 2 4 cleanId)) in
  let id3 := toInt (parseInt16 (sliceStr 4 6 cleanId)) in
  let payload := [0xB0; 0xB0; 0x03; id1; id2; id3] in
  let crc := crc8 payload in
  toUint8Array ([0xAA] ++ payload ++ [crc; 0xBB]).

(** The serial port as far as the handshake goes: whether it has a
    writable stream, and the frames written to it. *)
Record SerialPort := { writable : bool; written : list (list Z) }.

(** [sendHandshake(deviceIdStr)]: nothing is sent without a writable port. *)
Definition sendHandshake (deviceIdStr : string) (port : option SerialPort)
  : option SerialPort :=
  match port with
  | Some p =>
      if writable p
      then Some {| writable := true;
                   written := written p ++ [handshakeFrame deviceIdStr] |}
      else port
  | None => port
  end.

(** The digit value of a character of the cleaned identifier. *)
Definition digitValue (c : ascii) : Z := Z.of_nat (nat_of_ascii c) - 48.

(** The [i]-th character of a string, ["0"] past its end. *)
Definition charAt (i : nat) (s : string) : ascii :=
  match get i s with Some c => c | None => "0"%char end.

(** The byte that two consecutive decimal digits pack: the [k]-th pair
    of the digits [d], read as the high and low hexadecimal nibble. *)
Definition packedByte (d : string) (k : nat) : Z :=
  16 * digitValue (charAt (2 * k) d) + digitValue (charAt (2 * k + 1) d).

End Handshake.

(** * Further parts of the service *)

(** ** Error patterns of the checksum *)

(** The parity of the eight bits of an octet, and of a byte sequence. *)
Definition parity8 (x : Z) : bool :=
  fold_left (fun p i => xorb p (Z.testbit x (Z.of_nat i))) (seq 0 8) false.

Definition parity (data : list Z) : bool :=
  fold_left (fun p x => xorb p (parity8 x)) data false.

(** Two byte sequences combined bit by bit: a message and an error
    pattern laid over it. *)
Fixpoint xorBytes (a b : list Z) : list Z :=
  match a, b with
  | x :: a', y :: b' => Z.lxor x y :: xorBytes a' b'
  | _, _ => []
  end.

(** ** Streams of frames *)

(** The accumulator from its first START byte on (empty without one):
    the part a later pass can still decode. *)
Definition fromStart (buffer : list Z) : list Z :=
  match indexOf 0xAA buffer with
  | Some k => slice_from k buffer
  | None => []
  end.

(** Two outcomes of the decoder that differ at most in undecodable bytes
    before the first START byte of the accumulator. *)
Definition sameFrames {Svc : Type} (r1 r2 : list Z * Svc) : Prop :=
  snd r1 = snd r2 /\ fromStart (fst r1) = fromStart (fst r2).

(** A transmission: frames one after the other, each one preceded by
    line noise ([gap], possibly empty). *)
Record sentFrame := { gap : list Z; func : Z; addr : Z; payload : list Z }.

Definition wire (sent : list sentFrame) : list Z :=
  concat (map (fun f => gap f ++ frame (func f) (addr f) (payload f)) sent).

(** The payloads of the data frames of a transmission, in order. *)
Definition dataPayloads (sent : list sentFrame) : list (list Z) :=
  map payload (filter (fun f => func f =? 0xF0) sent).

(** An accumulator a pass would leave as it is: fewer bytes than the
    smallest frame, or a START byte followed by fewer bytes than the
    frame it announces. *)
Definition unfinished (buffer : list Z) : Prop :=
  (length buffer < 6)%nat \/
  (nth 0 buffer 0 = 0xAA /\
   (length buffer < 4 + Z.to_nat (nth 3 buffer 0%Z) + 2)%nat).

(** ** Exhaustive checks over 24-bit sample codes *)

(** A sample code scales to a number of microvolts within the
    converter's range (so neither NaN nor infinite), negative exactly
    for a negative code and zero exactly for the code 0. *)
Definition withinRange (uv : float) : bool :=
  ((-400000.05 <=? uv) && (uv <=? 400000))%float.

Definition scalesWithinRange (code : Z) : bool :=
  let uv := (number_of_int code * UV_SCALE)%float in
  withinRange uv && negb (is_nan uv) &&
  Bool.eqb (uv <? 0)%float (code <? 0) && Bool.eqb (uv =? 0)%float (code =? 0).

(** The same check on a magnitude held in a machine integer, for the
    code of that magnitude and for its negation. *)
Definition zero63 : Uint63.int := Eval cbv in Uint63.of_Z 0.
Definition one63 : Uint63.int := Eval cbv in Uint63.of_Z 1.

Definition magnitudeScales (a : Uint63.int) : bool :=
  let up := (of_uint63 a * UV_SCALE)%float in
  let down := (- of_uint63 a * UV_SCALE)%float in
  withinRange up && negb (is_nan up) && withinRange down && negb (is_nan down) &&
  (if Uint63.eqb a zero63
   then (up =? 0)%float && negb (up <? 0)%float
   else negb (up =? 0)%float && negb (up <? 0)%float &&
        negb (down =? 0)%float && (down <? 0)%float).

(** [check] holds on every machine integer whose binary numeral is
    [prefix] followed by [depth] further bits. *)
Fixpoint holdsBelow (check : Uint63.int -> bool) (depth : nat)
    (prefix : Uint63.int) : bool :=
  match depth with
  | O => check prefix
  | S d =>
      holdsBelow check d (Uint63.add prefix prefix) &&
      holdsBelow check d (Uint63.add (Uint63.add prefix prefix) one63)
  end.

(** ** Motion events as the browser delivers them *)

(** A field of a [DeviceMotionEvent] acceleration: a number or [null];
    reading a field of an absent acceleration ([?.]) gives [undefined]. *)
Inductive reading : Type :=
| Number (v : float)
| Null
| Undefined.

Record Acceleration := { ax : reading; ay : reading; az : reading }.

Record DeviceMotionEvent :=
  { acceleration : option Acceleration;
    accelerationIncludingGravity : option Acceleration }.

(** [a?.x], [a?.y], [a?.z]. *)
Definition optionalChain (get : Acceleration -> reading) (a : option Acceleration)
  : reading :=
  match a with Some a => get a | None => Undefined end.

(** [v === null] and [v ?? 0]. *)
Definition isNull (v : reading) : bool :=
  match v with Null => true | _ => false end.

Definition orZero (v : reading) : reading :=
  match v with Null | Undefined => Number 0 | Number _ => v end.

(** A reading used in arithmetic. *)
Definition toNumber (v : reading) : float :=
  match v with Number x => x | Null => 0%float | Undefined => nan end.

(** The head of [handleMotion(event)]: the three readings it goes on
    with, or [None] where it returns early. *)
Definition motionReadings (event : DeviceMotionEvent)
  : option (reading * reading * reading) :=
  let x := optionalChain ax (acceleration event) in
  let y := optionalChain ay (acceleration event) in
  let z := optionalChain az (acceleration event) in
  let '(x, y, z) :=
    if isNull x || isNull y || isNull z
    then (orZero (optionalChain ax (accelerationIncludingGravity event)),
          orZero (optionalChain ay (accelerationIncludingGravity event)),
          orZero (optionalChain az (accelerationIncludingGravity event)))
    else (x, y, z) in
  if isNull x || isNull y || isNull z then None else Some (x, y, z).

(** [handleMotion(event)] on the event itself. *)
Definition handleMotionEvent (event : DeviceMotionEvent) (this : DeviceService)
  : DeviceService :=
  match motionReadings event with
  | None => this
  | Some (x, y, z) => handleMotion (toNumber x) (toNumber y) (toNumber z) this
  end.

(** ** Band powers (step 4 of [analyzeSignal]) *)

#[local] Open Scope float_scope.

(** [Math.floor(x)] and [Math.ceil(x)] as integers, for a finite [x];
    [None] for NaN and the infinities, which the band limits never are. *)
Definition Math_floor (x : float) : option Z :=
  match Prim2SF x with
  | S754_zero _ => Some 0%Z
  | S754_finite s m e =>
      let v := if s then Z.neg m else Z.pos m in
      Some (if (0 <=? e)%Z then v * 2 ^ e else v / 2 ^ (- e))%Z
  | S754_infinity _ | S754_nan => None
  end.

Definition Math_ceil (x : float) : option Z :=
  match Prim2SF x with
  | S754_zero _ => Some 0%Z
  | S754_finite s m e =>
      let v := if s then Z.neg m else Z.pos m in
      Some (if (0 <=? e)%Z then v * 2 ^ e else - ((- v) / 2 ^ (- e)))%Z
  | S754_infinity _ | S754_nan => None
  end.

(** [spectrum[i]] in a sum: a missing element is [undefined], which adds
    as NaN. *)
Definition element (spectrum : list float) (i : Z) : float :=
  if (i <? 0)%Z then nan else nth (Z.to_nat i) spectrum nan.

(** The loop [for (i = minBin; i <= maxBin && i < spectrum.length; i++)]
    of [getPower], with fuel. *)
Fixpoint binLoop (fuel : nat) (i maxBin : Z) (spectrum : list float)
         (sum : float) (count : Z) : float * Z :=
  match fuel with
  | O => (sum, count)
  | S fuel' =>
      if ((i <=? maxBin) && (i <? Z.of_nat (length spectrum)))%Z
      then binLoop fuel' (i + 1)%Z maxBin spectrum
                   (sum + element spectrum i) (count + 1)%Z
      else (sum, count)
  end.

(** [getPower] between two bins: the loop runs at most
    [maxBin - minBin + 1] times. *)
Definition getPowerBins (minBin maxBin : Z) (spectrum : list float) : float :=
  let '(sum, count) :=
    binLoop (Z.to_nat (maxBin - minBin + 1)) minBin maxBin spectrum 0 0%Z in
  if (0 <? count)%Z then sum / number_of_int count else 0.

(** [res = SAMPLING_RATE / this.FFT_SIZE]. *)
Definition res : float := SAMPLING_RATE / 256.

(** [getPower(minHz, maxHz)] on a spectrum. *)
Definition getPower (minHz maxHz : float) (spectrum : list float) : option float :=
  match Math_floor (minHz / res), Math_ceil (maxHz / res) with
  | Some minBin, Some maxBin => Some (getPowerBins minBin maxBin spectrum)
  | _, _ => None
  end.

(** The five bands of [analyzeSignal]. *)
Definition bandsOfSpectrum (spectrum : list float) : option FrequencyBands :=
  match getPower 0.5 4 spectrum, getPower 4 8 spectrum, getPower 8 14 spectrum,
        getPower 14 30 spectrum, getPower 30 40 spectrum with
  | Some delta, Some theta, Some alpha, Some beta, Some gamma =>
      Some {| delta := delta; theta := theta; alpha := alpha; beta := beta;
              gamma := gamma |}
  | _, _, _, _, _ => None
  end.

(** The mean of the bins [from, to) of a spectrum, summed from the left
    starting at 0. *)
Definition binMean (from to : nat) (spectrum : list float) : float :=
  fold_left PrimFloat.add (firstn (to - from) (skipn from spectrum)) 0
  / number_of_int (Z.of_nat (to - from)).

#[local] Close Scope float_scope.

(** ** The reordering pass of [calculateSpectrum] *)

(** [a[i] = v] on a typed array: a write past the end is ignored. *)
Fixpoint setNth {A : Type} (i : nat) (v : A) (l : list A) {struct l} : list A :=
  match l, i with
  | [], _ => []
  | _ :: rest, O => v :: rest
  | a :: rest, S i' => a :: setNth i' v rest
  end.

(** [[a[i], a[j]] = [a[j], a[i]]]. *)
Definition swap {A : Type} (d : A) (i j : nat) (l : list A) : list A :=
  setNth j (nth i l d) (setNth i (nth j l d) l).

(** [while (k <= j) { j -= k; k /= 2; }] on integers: [None] when an odd
    [k] would be halved (it would stop being an integer) or the fuel runs
    out. *)
Fixpoint carryLoop (fuel : nat) (j k : Z) : option (Z * Z) :=
  match fuel with
  | O => None
  | S fuel' =>
      if k <=? j
      then if Z.even k then carryLoop fuel' (j - k) (k / 2) else None
      else Some (j, k)
  end.

(** The iterations [i, i + steps) of [for (i = 0; i < N - 1; i++)]. *)
Fixpoint reorderLoop {A : Type} (d : A) (steps i : nat) (j N : Z) (l : list A)
  : option (list A) :=
  match steps with
  | O => Some l
  | S steps' =>
      let l' := if Z.of_nat i <? j then swap d i (Z.to_nat j) l else l in
      if Z.even N
      then match carryLoop (S (Z.to_nat N)) j (N / 2) with
           | Some (j', k) => reorderLoop d steps' (S i) (j' + k) N l'
           | None => None
           end
      else None
  end.

(** The bit-reversal pass on one array ([real] and [imag] go through the
    same swaps). *)
Definition bitReversal {A : Type} (d : A) (l : list A) : option (list A) :=
  reorderLoop d (length l - 1) 0 0 (Z.of_nat (length l)) l.

(** The index with its eight bits in reverse order. *)
Definition reversedIndex (i : nat) : nat := Z.to_nat (reflect8 (Z.of_nat i)).

(** ** The application's polling loop ([processFrame] in [App.tsx]) *)

Definition HISTORY_LENGTH : nat := 100.

(** The updater passed to [setWaveData]. *)
Definition pushWave (prev : list EEGDataPoint) (raw : EEGDataPoint)
  : list EEGDataPoint :=
  let newData := prev ++ [raw] in
  if (HISTORY_LENGTH <? length newData)%nat
  then skipn (length newData - HISTORY_LENGTH) newData
  else newData.

(** The two spoken prompts: [t.voice_feedback] and [t.focus_breath]. *)
Inductive prompt : Type :=
| VoiceFeedback
| FocusBreath.

(** [lastVoiceTime.current], and what [speak] was called with and when. *)
Record Voice := { lastVoiceTime : Z; spoken : list (Z * prompt) }.

(** Step 4 of [processFrame]: [running] is what [appState === RUNNING]
    gives in the closure at hand, [now] the reading of [Date.now()]. *)
Definition voiceFeedback (running : bool) (m : AnalysisMetrics) (now : Z)
           (voice : Voice) : Voice :=
  if isMeditating m && (15000 <? now - lastVoiceTime voice) && running
  then {| lastVoiceTime := now; spoken := spoken voice ++ [(now, VoiceFeedback)] |}
  else if negb (isMeditating m) && (relaxation m <? 0.6)%float
          && (8000 <? now - lastVoiceTime voice) && running
  then {| lastVoiceTime := now; spoken := spoken voice ++ [(now, FocusBreath)] |}
  else voice.

(** One call of [processFrame] as far as the wave history and the voice
    go: [point] is [packet.raw] as the history updater reads it, [seen]
    is [packet.metrics] as step 4 reads it, with the closure's [running]
    and the clock. *)
Record polled :=
  { point : EEGDataPoint; seen : AnalysisMetrics; running : bool; now : Z }.

Definition processFrame (st : list EEGDataPoint * Voice) (p : polled)
  : list EEGDataPoint * Voice :=
  (pushWave (fst st) (point p),
   voiceFeedback (running p) (seen p) (now p) (snd st)).

(** Prompts spaced as the cool-downs ask, from the time [last] on: more
    than 15 s before a [VoiceFeedback], more than 8 s before a
    [FocusBreath]. *)
Fixpoint spacedFrom (last : Z) (log : list (Z * prompt)) : Prop :=
  match log with
  | [] => True
  | (t, p) :: rest =>
      match p with
      | VoiceFeedback => 15000 < t - last
      | FocusBreath => 8000 < t - last
      end /\ spacedFrom t rest
  end.

(** * The text protocol variant ([services/signalProcessing.ts]) *)

Module TextProtocol.

(** A string is its sequence of UTF-16 code units. *)
Definition text : Type := list Z.

(** White space and line terminators, as [String.prototype.trim] sees
    them (TAB, LF, VT, FF, CR, SP, NBSP, the space separators, LS, PS and
    the byte order mark). *)
Definition isWhiteSpace (c : Z) : bool :=
  ((9 <=? c) && (c <=? 13)) || (c =? 32) || (c =? 160) || (c =? 5760)
  || ((8192 <=? c) && (c <=? 8202)) || (c =? 8232) || (c =? 8233)
  || (c =? 8239) || (c =? 8287) || (c =? 12288) || (c =? 65279).

Fixpoint trimStart (s : text) : text :=
  match s with
  | c :: rest => if isWhiteSpace c then trimStart rest else s
  | [] => []
  end.

(** [s.trim()]. *)
Definition trim (s : text) : text := rev (trimStart (rev (trimStart s))).

(** [s.split(sep)] for a separator of one code unit: one piece more than
    there are separators. *)
Fixpoint split (sep : Z) (s : text) : list text :=
  match s with
  | [] => [[]]
  | c :: rest =>
      if c =? sep then [] :: split sep rest
      else match split sep rest with
           | piece :: pieces => (c :: piece) :: pieces
           | [] => [[c]]
           end
  end.

Definition newline : Z := 10.

Definition comma : Z := 44.

(** The service of this variant: the text buffer in place of the byte
    accumulator and the sample window; the readings of the clock and of
    the random generator are counted as before. *)
Record TextService :=
  { inputBuffer : text;
    isSimulating : bool;
    agitationLevel : float;
    lastAcceleration : option (float * float * float);
    latestData : Snapshot;
    clockReads : nat;
    randomDraws : nat }.

Definition newTextService : TextService :=
  {| inputBuffer := []; isSimulating := false; agitationLevel := 0;
     lastAcceleration := None; latestData := emptyData;
     clockReads := 0; randomDraws := 0 |}.

(** The fields written one at a time. *)
Definition setInput (b : text) (this : TextService) : TextService :=
  {| inputBuffer := b; isSimulating := isSimulating this;
     agitationLevel := agitationLevel this;
     lastAcceleration := lastAcceleration this;
     latestData := latestData this;
     clockReads := clockReads this; randomDraws := randomDraws this |}.

Definition setData (d : Snapshot) (clock draws : nat) (this : TextService)
  : TextService :=
  {| inputBuffer := inputBuffer this; isSimulating := isSimulating this;
     agitationLevel := agitationLevel this;
     lastAcceleration := lastAcceleration this;
     latestData := d; clockReads := clock; randomDraws := draws |}.

Definition setMotion (simulating : bool) (agitation : float)
           (last : option (float * float * float)) (this : TextService)
  : TextService :=
  {| inputBuffer := inputBuffer this; isSimulating := simulating;
     agitationLevel := agitation; lastAcceleration := last;
     latestData := latestData this;
     clockReads := clockReads this; randomDraws := randomDraws this |}.

Section Lines.

(** [processBuffer()] against any packet handler: the pieces but the
    last are complete lines; the last piece stays in the buffer
    ([lines.pop() || ""]); a line that is blank after trimming is
    skipped. *)
Context {Svc : Type}.
Variable parseDataPacket : text -> Svc -> Svc.

Definition handleLine (this : Svc) (line : text) : Svc :=
  if (0 <? length (trim line))%nat then parseDataPacket (trim line) this else this.

Definition processBuffer (inputBuffer : text) (this : Svc) : text * Svc :=
  let lines := split newline inputBuffer in
  (last lines [], fold_left handleLine (removelast lines) this).

(** The deliveries of [readLoop]: an empty chunk is skipped
    ([if (value)]), any other is appended and processed. *)
Fixpoint feedText (chunks : list text) (inputBuffer : text) (this : Svc)
  : text * Svc :=
  match chunks with
  | [] => (inputBuffer, this)
  | value :: later =>
      match value with
      | [] => feedText later inputBuffer this
      | _ :: _ =>
          let '(inputBuffer', this') := processBuffer (inputBuffer ++ value) this in
          feedText later inputBuffer' this'
      end
  end.

End Lines.

Section Packets.

#[local] Open Scope float_scope.

(** [parseFloat] and the clock are taken as given. *)
Variable parseFloat : text -> float.
Variable Date_now : nat -> Z.

(** [parseFloat(parts[i])] for a field that may be missing:
    [parseFloat(undefined)] is NaN. *)
Definition field (parts : list text) (i : nat) : float :=
  match nth_error parts i with
  | Some part => parseFloat part
  | None => nan
  end.

(** [parseDataPacket(line)]. *)
Definition parseDataPacket (line : text) (this : TextService) : TextService :=
  let parts := split comma line in
  if (5 <=? length parts)%nat
  then
    let bands :=
      {| delta := orDefault (field parts 0) 0;
         theta := orDefault (field parts 1) 0;
         alpha := orDefault (field parts 2) 0;
         beta := orDefault (field parts 3) 0;
         gamma := orDefault (field parts 4) 0 |} in
    let rawValue := if (5 <? length parts)%nat then field parts 5 else 0 in
    let eps := 0.0001 in
    let relaxation := alpha bands / (beta bands + theta bands + eps) in
    let attention := beta bands / (alpha bands + theta bands + eps) in
    let isMeditating := MEDITATION_THRESHOLD <? relaxation in
    setData
      {| raw := {| timestamp := Date_now (clockReads this); value := rawValue |};
         bands := bands;
         metrics := {| attention := attention; relaxation := relaxation;
                       isMeditating := isMeditating |} |}
      (S (clockReads this)) (randomDraws this) this
  else this.

(** One delivery of [readLoop] on the service. *)
Definition receiveText (value : text) (this : TextService) : TextService :=
  match value with
  | [] => this
  | _ :: _ =>
      let '(buffer, this') :=
        processBuffer parseDataPacket (inputBuffer this ++ value) this in
      setInput buffer this'
  end.

End Packets.

Section Simulation.

#[local] Open Scope float_scope.

Variable Date_now : nat -> Z.
Variable Math_random : nat -> float.
Variable Math_sin : float -> float.

(** [startSimulation()] on a service that is not connected. *)
Definition startSimulation (this : TextService) : TextService :=
  setMotion true 0 (lastAcceleration this) this.

(** [stopSimulation()]: the agitation level is left as it is. *)
Definition stopSimulation (this : TextService) : TextService :=
  setData emptyData (clockReads this) (randomDraws this)
          (setMotion false (agitationLevel this) None this).

(** [handleMotion(event)] for an event that carries the three numbers
    [x], [y], [z] in [accelerationIncludingGravity]. *)
Definition handleMotion (x y z : float) (this : TextService) : TextService :=
  let agitation :=
    match lastAcceleration this with
    | Some (lx, ly, lz) =>
        let delta := abs (x - lx) + abs (y - ly) + abs (z - lz) in
        agitationLevel this + delta * 2
    | None => agitationLevel this
    end in
  setMotion (isSimulating this) agitation (Some (x, y, z)) this.

(** [updateSimulation()]: six random draws and two clock readings. *)
Definition updateSimulation (this : TextService) : TextService :=
  let agitation := Math_max 0 (agitationLevel this * 0.9) in
  let normalizedAgitation := Math_min (agitation / 15) 1 in
  let targetRelaxation := 1 - normalizedAgitation in
  let prevRelaxation := orDefault (relaxation (metrics (latestData this))) 0.5 in
  let relaxation := prevRelaxation * 0.8 + targetRelaxation * 0.2 in
  let attention := 1 - relaxation in
  let isMeditating := MEDITATION_THRESHOLD <? relaxation in
  let random k := Math_random (randomDraws this + k)%nat in
  let alpha := (relaxation * 40) + 10 + (random 0%nat * 5) in
  let beta := (attention * 30) + 5 + (random 1%nat * 5) in
  let theta := 10 + random 2%nat * 5 in
  let delta := 5 + random 3%nat * 5 in
  let gamma := (attention * 20) + random 4%nat * 5 in
  let t := number_of_int (Date_now (clockReads this)) / 1000 in
  let PI := 0x1.921fb54442d18p+1 in
  let rawValue :=
    if isMeditating
    then Math_sin (t * 10 * PI * 2) * 50 + (random 5%nat * 10)
    else Math_sin (t * 25 * PI * 2) * 20 + (random 5%nat * 40 - 20) in
  setData
    {| raw := {| timestamp := Date_now (S (clockReads this)); value := rawValue |};
       bands := {| delta := delta; theta := theta; alpha := alpha;
                   beta := beta; gamma := gamma |};
       metrics := {| attention := attention; relaxation := relaxation;
                     isMeditating := isMeditating |} |}
    (2 + clockReads this) (6 + randomDraws this)
    (setMotion (isSimulating this) agitation (lastAcceleration this) this).

Definition simStep (this : TextService) (e : simEvent) : TextService :=
  match e with
  | Tick => updateSimulation this
  | Motion x y z => handleMotion x y z this
  end.

Definition simRun (events : list simEvent) (this : TextService) : TextService :=
  fold_left simStep events this.

End Simulation.

(** One tick of the smoothing of this variant when the target is 1. *)
Definition relaxStep (prev : float) : float :=
  (orDefault prev 0.5 * 0.8 + 1 * 0.2)%float.

Definition relaxAfter (n : nat) : float := Nat.iter n relaxStep 0%float.

(** What a run without motion keeps true of the service. *)
Definition calm (this : TextService) : Prop :=
  agitationLevel this = 0%float /\
  (lastAcceleration this = None \/
   lastAcceleration this = Some (0, 0, 0)%float) /\
  isMeditating (metrics (latestData this))
    = (MEDITATION_THRESHOLD <? relaxation (metrics (latestData this)))%float.

End TextProtocol.

(** A log of the lines handed to the packet handler. *)
Definition logLine (line : TextProtocol.text) (log : list TextProtocol.text)
  : list TextProtocol.text := log ++ [line].

(** A line that is not blank: something is left of it after trimming. *)
Definition nonBlank (line : TextProtocol.text) : bool :=
  (0 <? length (TextProtocol.trim line))%nat.

(** ** Magnitudes (the last loop of [calculateSpectrum]) *)

Definition magnitude (re im : float) : float :=
  PrimFloat.sqrt (re * re + im * im)%float.

(** [for (i = 0; i < N / 2; i++)] over the transformed arrays: for an
    odd [N] the bound [N / 2] is not an integer and the loop runs once
    more than half the length rounded down. *)
Definition magnitudes (real imag : list float) : list float :=
  map (fun i => magnitude (nth i real nan) (nth i imag nan))
      (seq 0 ((length real + 1) / 2)).

(** * Properties *)

(** ** Exhaustive checks over octets *)

Lemma all_bytes_complete (b : Z) : is_byte b -> In b all_bytes.
Proof.
  intros [Hlo Hhi]. unfold all_bytes.
  apply in_map_iff. exists (Z.to_nat b). split; [lia|].
  apply in_seq. lia.
Qed.

Lemma forall_byte (P : Z -> bool) :
  forallb P all_bytes = true -> forall b, is_byte b -> P b = true.
Proof.
  intros H b Hb. rewrite forallb_forall in H.
  apply H, all_bytes_complete, Hb.
Qed.

Lemma forall_byte2 (P : Z -> Z -> bool) :
  forallb (fun a => forallb (P a) all_bytes) all_bytes = true ->
  forall a b, is_byte a -> is_byte b -> P a b = true.
Proof.
  intros H a b Ha Hb.
  apply (forall_byte (P a)); [|exact Hb].
  apply (forall_byte (fun a => forallb (P a) all_bytes)); assumption.
Qed.

Lemma is_byteb_spec (b : Z) : is_byteb b = true <-> is_byte b.
Proof. unfold is_byteb, is_byte. rewrite andb_true_iff. lia. Qed.

Lemma byte_valued (f : Z -> Z) :
  forallb (fun a => is_byteb (f a)) all_bytes = true ->
  forall a, is_byte a -> is_byte (f a).
Proof.
  intros H a Ha. apply is_byteb_spec.
  exact (forall_byte (fun a => is_byteb (f a)) H a Ha).
Qed.

Lemma byte_valued2 (f : Z -> Z -> Z) :
  forallb (fun a => forallb (fun b => is_byteb (f a b)) all_bytes) all_bytes = true ->
  forall a b, is_byte a -> is_byte b -> is_byte (f a b).
Proof.
  intros H a b Ha Hb. apply is_byteb_spec.
  exact (forall_byte2 (fun a b => is_byteb (f a b)) H a b Ha Hb).
Qed.

Lemma equal_on_bytes2 (f g : Z -> Z -> Z) :
  forallb (fun a => forallb (fun b => f a b =? g a b) all_bytes) all_bytes = true ->
  forall a b, is_byte a -> is_byte b -> f a b = g a b.
Proof.
  intros H a b Ha Hb. apply Z.eqb_eq.
  exact (forall_byte2 (fun a b => f a b =? g a b) H a b Ha Hb).
Qed.

Lemma fold_left_step {A B : Type} (f : A -> B -> A) (x : B) (l : list B) (a : A) :
  fold_left f (x :: l) a = fold_left f l (f a x).
Proof. reflexivity. Qed.

(** ** Checksum engine: range, reference algorithm, error detection *)

Module CrcFacts.

(** The facts below are established by evaluation over all octets; the
    proof scripts never unfold the byte-level functions. *)
#[local] Opaque crc8_byte reflect8 maxim_byte mix8.

Lemma crc8_byte_range (c b : Z) :
  is_byte c -> is_byte b -> is_byte (crc8_byte c b).
Proof. apply (byte_valued2 crc8_byte). vm_compute. reflexivity. Qed.

Lemma fold_crc8_range (data : list Z) :
  bytes data -> forall c, is_byte c -> is_byte (fold_left crc8_byte data c).
Proof.
  induction 1 as [|b data Hb _ IH]; intros c Hc; [exact Hc|]; rewrite fold_left_step.
  apply IH. exact (crc8_byte_range c b Hc Hb).
Qed.

Lemma crc8_range (data : list Z) : bytes data -> is_byte (crc8 data).
Proof. intros H. apply fold_crc8_range; [exact H|]. unfold is_byte. lia. Qed.

Lemma lxor_byte (c b : Z) : is_byte c -> is_byte b -> is_byte (Z.lxor c b).
Proof. apply (byte_valued2 Z.lxor). vm_compute. reflexivity. Qed.

(** The source mixes the input bit by bit; this is the same as xoring
    the whole byte into the register first. *)
Lemma crc8_byte_xor_first (c b : Z) :
  is_byte c -> is_byte b -> crc8_byte c b = mix8 (Z.lxor c b).
Proof.
  apply (equal_on_bytes2 crc8_byte (fun c b => mix8 (Z.lxor c b))).
  vm_compute. reflexivity.
Qed.

Lemma mix8_injective (x y : Z) :
  is_byte x -> is_byte y -> mix8 x = mix8 y -> x = y.
Proof.
  intros Hx Hy H.
  assert (A : forallb (fun x => forallb
              (fun y => negb (mix8 x =? mix8 y) || (x =? y)) all_bytes)
              all_bytes = true) by (vm_compute; reflexivity).
  pose proof (forall_byte2 _ A x y Hx Hy) as E. cbv beta in E.
  apply Z.eqb_eq in H. rewrite H in E.
  apply Z.eqb_eq. exact E.
Qed.

Lemma lxor_cancel_r (a b c : Z) : Z.lxor a c = Z.lxor b c -> a = b.
Proof.
  intros H.
  assert (E : Z.lxor (Z.lxor a c) c = Z.lxor (Z.lxor b c) c) by (rewrite H; reflexivity).
  rewrite !Z.lxor_assoc, Z.lxor_nilpotent, !Z.lxor_0_r in E. exact E.
Qed.

Lemma lxor_cancel_l (a b c : Z) : Z.lxor c a = Z.lxor c b -> a = b.
Proof. rewrite !(Z.lxor_comm c). apply lxor_cancel_r. Qed.

(** A different register before a byte gives a different register after
    it; a different byte gives a different register as well. *)
Lemma crc8_byte_injective_l (c1 c2 b : Z) :
  is_byte c1 -> is_byte c2 -> is_byte b ->
  crc8_byte c1 b = crc8_byte c2 b -> c1 = c2.
Proof.
  intros H1 H2 Hb. rewrite !crc8_byte_xor_first by assumption.
  intros H. apply (lxor_cancel_r _ _ b).
  apply mix8_injective; [apply lxor_byte; assumption ..|exact H].
Qed.

Lemma crc8_byte_injective_r (c b1 b2 : Z) :
  is_byte c -> is_byte b1 -> is_byte b2 ->
  crc8_byte c b1 = crc8_byte c b2 -> b1 = b2.
Proof.
  intros Hc H1 H2. rewrite !crc8_byte_xor_first by assumption.
  intros H. apply (lxor_cancel_l _ _ c).
  apply mix8_injective; [apply lxor_byte; assumption ..|exact H].
Qed.

Lemma fold_crc8_injective (data : list Z) :
  bytes data -> forall c1 c2, is_byte c1 -> is_byte c2 ->
  fold_left crc8_byte data c1 = fold_left crc8_byte data c2 -> c1 = c2.
Proof.
  induction 1 as [|b data Hb _ IH]; intros c1 c2 H1 H2; [tauto|]; rewrite !fold_left_step.
  intros H. apply IH in H.
  - exact (crc8_byte_injective_l c1 c2 b H1 H2 Hb H).
  - exact (crc8_byte_range c1 b H1 Hb).
  - exact (crc8_byte_range c2 b H2 Hb).
Qed.

(** CRC-8 detects every change confined to one byte. *)
Lemma crc8_single_byte_change (pre post : list Z) (x y : Z) :
  bytes pre -> bytes post -> is_byte x -> is_byte y ->
  crc8 (pre ++ x :: post) = crc8 (pre ++ y :: post) -> x = y.
Proof.
  intros Hpre Hpost Hx Hy. unfold crc8.
  rewrite !fold_left_app, !fold_left_step. intros H.
  assert (Hc : is_byte (fold_left crc8_byte pre 0)).
  { apply fold_crc8_range; [exact Hpre|]. unfold is_byte. lia. }
  apply (fold_crc8_injective post Hpost) in H.
  - exact (crc8_byte_injective_r _ x y Hc Hx Hy H).
  - exact (crc8_byte_range _ x Hc Hx).
  - exact (crc8_byte_range _ y Hc Hy).
Qed.

(** *** Agreement with the catalogued algorithm *)

Lemma reflect8_range (b : Z) : is_byte b -> is_byte (reflect8 b).
Proof. apply (byte_valued reflect8). vm_compute. reflexivity. Qed.

Lemma maxim_byte_range (r b : Z) :
  is_byte r -> is_byte b -> is_byte (maxim_byte r b).
Proof. apply (byte_valued2 maxim_byte). vm_compute. reflexivity. Qed.

Lemma crc8_byte_reflects (r b : Z) :
  is_byte r -> is_byte b ->
  crc8_byte (reflect8 r) b = reflect8 (maxim_byte r b).
Proof.
  apply (equal_on_bytes2 (fun r b => crc8_byte (reflect8 r) b)
                         (fun r b => reflect8 (maxim_byte r b))).
  vm_compute. reflexivity.
Qed.

Lemma fold_crc8_reflects (data : list Z) :
  bytes data -> forall r, is_byte r ->
  fold_left crc8_byte data (reflect8 r) = reflect8 (fold_left maxim_byte data r).
Proof.
  induction 1 as [|b data Hb _ IH]; intros r Hr; [reflexivity|]; rewrite !fold_left_step.
  rewrite (crc8_byte_reflects r b Hr Hb).
  apply IH. exact (maxim_byte_range r b Hr Hb).
Qed.

Lemma crc8_matches_reference (data : list Z) :
  bytes data -> crc8 data = crc8_maxim_reference data.
Proof.
  intros H. unfold crc8, crc8_maxim_reference.
  change 0 with (reflect8 0) at 1.
  apply fold_crc8_reflects; [exact H|]. unfold is_byte. lia.
Qed.

(** The source's loop, read off round by round: the register after a
    byte is the register after eight rounds, each of which shifts the
    register right and xors [0x8C] in exactly when the low bits of
    register and byte differ. *)
Lemma crc8_bit_spec (crc byte : Z) :
  crc8_bit (crc, byte) =
    (if Bool.eqb (Z.testbit crc 0) (Z.testbit byte 0)
     then Z.shiftr crc 1
     else Z.lxor (Z.shiftr crc 1) 0x8C,
     Z.shiftr byte 1).
Proof.
  unfold crc8_bit. f_equal.
  replace (Z.land (Z.lxor crc byte) 1) with (Z.b2z (Z.testbit (Z.lxor crc byte) 0)).
  2:{ change 1 with (Z.ones 1) at 1. rewrite Z.bit0_mod, Z.land_ones by lia.
      reflexivity. }
  rewrite Z.lxor_spec.
  destruct (Z.testbit crc 0), (Z.testbit byte 0); reflexivity.
Qed.

End CrcFacts.

Import CrcFacts.

(** ** Frame decoder: the loop body and the loop *)

Lemma indexOf_head (x : Z) (l : list Z) : indexOf x (x :: l) = Some O.
Proof. simpl. rewrite Z.eqb_refl. reflexivity. Qed.

Lemma indexOf_bound (x : Z) (l : list Z) (k : nat) :
  indexOf x l = Some k -> (k < length l)%nat.
Proof.
  revert k. induction l as [|b l IH]; intros k; simpl; [discriminate|].
  destruct (b =? x).
  - intros [= <-]. lia.
  - destruct (indexOf x l) as [j|]; simpl; [|discriminate].
    intros [= <-]. specialize (IH j eq_refl). lia.
Qed.

Lemma indexOf_absent (x : Z) (l : list Z) :
  ~ In x l -> indexOf x l = None.
Proof.
  induction l as [|b l IH]; intros H; simpl; [reflexivity|].
  destruct (Z.eqb_spec b x) as [->|_].
  - exfalso. apply H. left. reflexivity.
  - rewrite IH; [reflexivity|]. intros Hin. apply H. right. exact Hin.
Qed.

Lemma indexOf_first (x : Z) (junk l : list Z) :
  ~ In x junk -> indexOf x (junk ++ x :: l) = Some (length junk).
Proof.
  induction junk as [|b junk IH]; intros H.
  - apply indexOf_head.
  - cbn [app indexOf length]. destruct (Z.eqb_spec b x) as [->|_].
    + exfalso. apply H. left. reflexivity.
    + rewrite IH; [reflexivity|]. intros Hin. apply H. right. exact Hin.
Qed.

Lemma length_app_skipn_helper (p tail : list Z) :
  skipn (length p + 2) p ++ skipn (length p + 2 - length p) tail = skipn 2 tail.
Proof.
  rewrite skipn_all2 by lia.
  replace (length p + 2 - length p)%nat with 2%nat by lia. reflexivity.
Qed.

Section DecoderFacts.

Context {Svc : Type}.
Variable parse : list Z -> Svc -> Svc.
Variable warn : Z -> Z -> Svc -> Svc.

(** An iteration that does not stop drops leading bytes: the bytes before
    the first START, or one byte, or a whole frame of [packetSize] bytes
    that the buffer holds. *)
Lemma loopBody_drops (buffer : list Z) (this : Svc) (buffer' : list Z) (this' : Svc) :
  loopBody parse warn buffer this = Continue buffer' this' ->
  (exists k, indexOf 0xAA buffer = Some (S k) /\ (S k < length buffer)%nat /\
             buffer' = skipn (S k) buffer) \/
  (indexOf 0xAA buffer = Some O /\
   let packetSize := (4 + Z.to_nat (nth 3 buffer 0%Z) + 2)%nat in
   (packetSize <= length buffer)%nat /\
   (buffer' = skipn 1 buffer \/ buffer' = skipn packetSize buffer)).
Proof.
  unfold loopBody.
  destruct (indexOf 0xAA buffer) as [[|k]|] eqn:Hidx; [| |discriminate].
  - destruct (length buffer <? 4)%nat; [discriminate|].
    set (packetSize := (4 + Z.to_nat (nth 3 buffer 0%Z) + 2)%nat).
    destruct (Nat.ltb_spec (length buffer) packetSize) as [|Hsize]; [discriminate|].
    destruct (negb _).
    + intros [= <- _]. right. auto.
    + destruct (_ =? crc8 _).
      * intros [= <- _]. right. auto.
      * intros [= <- _]. right. auto.
  - apply indexOf_bound in Hidx as Hk.
    intros [= <- _]. left. exists k. auto.
Qed.

Lemma loopBody_shrinks (buffer : list Z) (this : Svc) (buffer' : list Z) (this' : Svc) :
  loopBody parse warn buffer this = Continue buffer' this' ->
  (length buffer' < length buffer)%nat.
Proof.
  intros H. apply loopBody_drops in H.
  destruct H as [(k & _ & Hk & ->)|(_ & Hsize & [-> | ->])];
    rewrite length_skipn; lia.
Qed.

(** An iteration that stops either discards a buffer without START or
    leaves the buffer as it is, waiting for the rest of a frame. *)
Lemma loopBody_stops (buffer : list Z) (this : Svc) (buffer' : list Z) (this' : Svc) :
  loopBody parse warn buffer this = Break buffer' this' ->
  this' = this /\
  ((indexOf 0xAA buffer = None /\ buffer' = []) \/
   (indexOf 0xAA buffer = Some O /\ buffer' = buffer /\
    ((length buffer < 4)%nat \/
     (length buffer < 4 + Z.to_nat (nth 3 buffer 0%Z) + 2)%nat))).
Proof.
  unfold loopBody.
  destruct (indexOf 0xAA buffer) as [[|k]|] eqn:Hidx; [|discriminate|].
  - destruct (Nat.ltb_spec (length buffer) 4).
    + intros [= <- <-]. split; [reflexivity|]. right. auto.
    + destruct (Nat.ltb_spec (length buffer) (4 + Z.to_nat (nth 3 buffer 0%Z) + 2)).
      * intros [= <- <-]. split; [reflexivity|]. right. auto.
      * destruct (negb _); [discriminate|].
        destruct (_ =? crc8 _); discriminate.
  - intros [= <- <-]. split; [reflexivity|]. left. auto.
Qed.

Lemma whileLoop_enough_fuel (fuel : nat) :
  forall buffer this, (length buffer < fuel)%nat ->
  exists r, whileLoop parse warn fuel buffer this = Some r.
Proof.
  induction fuel as [|fuel IH]; intros buffer this Hlen; [lia|].
  cbn [whileLoop].
  destruct (length buffer <? 6)%nat; [eauto|].
  destruct (loopBody parse warn buffer this) as [b' s'|b' s'] eqn:Hbody; [eauto|].
  apply IH. apply loopBody_shrinks in Hbody. lia.
Qed.

Lemma whileLoop_more_fuel (fuel : nat) :
  forall buffer this r, whileLoop parse warn fuel buffer this = Some r ->
  forall fuel', (fuel <= fuel')%nat -> whileLoop parse warn fuel' buffer this = Some r.
Proof.
  induction fuel as [|fuel IH]; intros buffer this r; [discriminate|].
  intros H [|fuel'] Hle; [lia|].
  cbn [whileLoop] in *.
  destruct (length buffer <? 6)%nat; [exact H|].
  destruct (loopBody parse warn buffer this) as [b' s'|b' s']; [exact H|].
  apply (IH _ _ _ H). lia.
Qed.

Lemma decodePass_fuel (buffer : list Z) (this : Svc) (fuel : nat) :
  (length buffer < fuel)%nat ->
  whileLoop parse warn fuel buffer this = Some (decodePass parse warn buffer this).
Proof.
  intros Hlen. unfold decodePass.
  destruct (whileLoop_enough_fuel (S (length buffer)) buffer this) as [r Hr]; [lia|].
  rewrite Hr. apply (whileLoop_more_fuel _ _ _ _ Hr). lia.
Qed.

(** The loop, unrolled once. *)
Lemma decodePass_unfold (buffer : list Z) (this : Svc) :
  decodePass parse warn buffer this =
    if (length buffer <? 6)%nat then (buffer, this)
    else match loopBody parse warn buffer this with
         | Break buffer' this' => (buffer', this')
         | Continue buffer' this' => decodePass parse warn buffer' this'
         end.
Proof.
  pose proof (decodePass_fuel buffer this (S (length buffer)) (Nat.lt_succ_diag_r _)) as H.
  cbn [whileLoop] in H.
  destruct (length buffer <? 6)%nat; [congruence|].
  destruct (loopBody parse warn buffer this) as [b' s'|b' s'] eqn:Hbody; [congruence|].
  apply loopBody_shrinks in Hbody.
  rewrite (decodePass_fuel b' s' (length buffer) Hbody) in H. congruence.
Qed.

(** A complete candidate frame at the head of the buffer: START, three
    header bytes with LEN equal to the number of payload bytes, then
    two more bytes [c] (at the CRC offset) and [e] (at the END offset). *)
Lemma loopBody_candidate (func addr : Z) (payload : list Z) (c e : Z)
      (rest : list Z) (this : Svc) :
  let L := Z.of_nat (length payload) in
  let covered := func :: addr :: L :: payload in
  let buffer := 0xAA :: covered ++ c :: e :: rest in
  loopBody parse warn buffer this =
    if negb (e =? 0xBB) then Continue (covered ++ c :: e :: rest) this
    else if c =? crc8 covered
         then Continue rest (if func =? 0xF0 then parse payload this else this)
         else Continue (covered ++ c :: e :: rest) (warn c (crc8 covered) this).
Proof.
  intros L covered buffer.
  assert (Hlen : length buffer = (4 + length payload + 2 + length rest)%nat).
  { subst buffer covered. cbn [length app]. rewrite length_app. cbn [length]. lia. }
  unfold loopBody. subst buffer. rewrite indexOf_head.
  set (buffer := 0xAA :: covered ++ c :: e :: rest) in *.
  replace (length buffer <? 4)%nat with false
    by (symmetry; apply Nat.ltb_ge; lia).
  replace (nth 3 buffer 0) with L by reflexivity.
  replace (nth 1 buffer 0) with func by reflexivity.
  subst L. rewrite Nat2Z.id.
  set (n := length payload) in *.
  replace (length buffer <? 4 + n + 2)%nat with false
    by (symmetry; apply Nat.ltb_ge; lia).
  assert (Hend : nth (4 + n + 2 - 1) buffer 0 = e).
  { replace (4 + n + 2 - 1)%nat with (S (S (S (S (n + 1))))) by lia.
    subst buffer covered. cbn [nth app]. subst n.
    rewrite app_nth2_plus. reflexivity. }
  assert (Hcrc : nth (4 + n + 2 - 2) buffer 0 = c).
  { replace (4 + n + 2 - 2)%nat with (S (S (S (S (n + 0))))) by lia.
    subst buffer covered. cbn [nth app]. subst n.
    rewrite app_nth2_plus. reflexivity. }
  assert (Hsrc : slice 1 (4 + n + 2 - 2) buffer = covered).
  { unfold slice. replace (4 + n + 2 - 2 - 1)%nat with (length covered)
      by (subst covered; cbn [length]; lia).
    subst buffer. cbn [skipn]. rewrite firstn_app, firstn_all, Nat.sub_diag.
    cbn [firstn]. apply app_nil_r. }
  assert (Hpay : slice 4 (4 + n) buffer = payload).
  { unfold slice. replace (4 + n - 4)%nat with n by lia.
    subst buffer covered. cbn [skipn app]. subst n.
    rewrite firstn_app, firstn_all, Nat.sub_diag. cbn [firstn]. apply app_nil_r. }
  assert (Hrest : slice_from (4 + n + 2) buffer = rest).
  { unfold slice_from. replace (4 + n + 2)%nat with (S (S (S (S (n + 2))))) by lia.
    subst buffer covered. cbn [skipn app]. subst n.
    rewrite skipn_app, length_app_skipn_helper. reflexivity. }
  rewrite Hend, Hcrc, Hsrc, Hpay, Hrest.
  reflexivity.
Qed.

(** Handlers that commute with a change [g] of the service make the
    whole pass commute with it. *)
Section Commute.

Variable g : Svc -> Svc.
Hypothesis parse_g : forall p s, parse p (g s) = g (parse p s).
Hypothesis warn_g : forall r c s, warn r c (g s) = g (warn r c s).

Lemma loopBody_commute (buffer : list Z) (this : Svc) :
  loopBody parse warn buffer (g this) =
    match loopBody parse warn buffer this with
    | Break b s => Break b (g s)
    | Continue b s => Continue b (g s)
    end.
Proof.
  unfold loopBody.
  destruct (indexOf 0xAA buffer) as [[|k]|]; try reflexivity.
  destruct (length buffer <? 4)%nat; [reflexivity|].
  destruct (length buffer <? _)%nat; [reflexivity|].
  destruct (negb _); [reflexivity|].
  destruct (_ =? crc8 _).
  - destruct (_ =? 0xF0); [rewrite parse_g|]; reflexivity.
  - rewrite warn_g. reflexivity.
Qed.

Lemma whileLoop_commute (fuel : nat) :
  forall buffer this,
    whileLoop parse warn fuel buffer (g this) =
      option_map (onService g) (whileLoop parse warn fuel buffer this).
Proof.
  induction fuel as [|fuel IH]; intros buffer this; [reflexivity|].
  cbn [whileLoop]. destruct (length buffer <? 6)%nat; [reflexivity|].
  rewrite loopBody_commute.
  destruct (loopBody parse warn buffer this) as [b s|b s]; [reflexivity|].
  apply IH.
Qed.

Lemma decodePass_commute (buffer : list Z) (this : Svc) :
  decodePass parse warn buffer (g this) =
    onService g (decodePass parse warn buffer this).
Proof.
  unfold decodePass. rewrite whileLoop_commute.
  destruct (whileLoop_enough_fuel (S (length buffer)) buffer this) as [r Hr];
    [lia|].
  rewrite Hr. reflexivity.
Qed.

Lemma feed_commute (chunks : list (list Z)) :
  forall buffer this,
    feed parse warn chunks buffer (g this) =
      onService g (feed parse warn chunks buffer this).
Proof.
  induction chunks as [|v later IH]; intros buffer this; [reflexivity|].
  cbn [feed]. rewrite decodePass_commute.
  destruct (decodePass parse warn (buffer ++ v) this) as [b s].
  unfold onService at 1. cbn [fst snd]. apply IH.
Qed.

End Commute.

Lemma decodePass_short (buffer : list Z) (this : Svc) :
  (length buffer < 6)%nat -> decodePass parse warn buffer this = (buffer, this).
Proof.
  intros H. rewrite decodePass_unfold.
  destruct (Nat.ltb_spec (length buffer) 6); [reflexivity|lia].
Qed.

Lemma frame_app (func addr : Z) (payload rest : list Z) :
  frame func addr payload ++ rest =
    0xAA :: (func :: addr :: Z.of_nat (length payload) :: payload)
         ++ crc8 (func :: addr :: Z.of_nat (length payload) :: payload)
         :: 0xBB :: rest.
Proof.
  unfold frame. cbn [app]. rewrite <- app_assoc. reflexivity.
Qed.

Lemma frame_length (func addr : Z) (payload : list Z) :
  length (frame func addr payload) = (4 + length payload + 2)%nat.
Proof. unfold frame. cbn [length app]. rewrite length_app. cbn [length]. lia. Qed.

(** A valid frame at the head of the buffer is consumed whole; its
    payload is handed over exactly when FUNCTION is [0xF0]. *)
Lemma loopBody_frame (func addr : Z) (payload rest : list Z) (this : Svc) :
  loopBody parse warn (frame func addr payload ++ rest) this =
    Continue rest (if func =? 0xF0 then parse payload this else this).
Proof.
  rewrite frame_app.
  rewrite (loopBody_candidate func addr payload _ 0xBB rest this).
  rewrite !Z.eqb_refl. cbn [negb]. reflexivity.
Qed.

Lemma decodePass_frame (func addr : Z) (payload rest : list Z) (this : Svc) :
  decodePass parse warn (frame func addr payload ++ rest) this =
    decodePass parse warn rest (if func =? 0xF0 then parse payload this else this).
Proof.
  rewrite decodePass_unfold, loopBody_frame.
  destruct (Nat.ltb_spec (length (frame func addr payload ++ rest)) 6) as [H|_];
    [|reflexivity].
  rewrite length_app, frame_length in H. lia.
Qed.

(** A proper prefix of a frame stays in the accumulator untouched. *)
Lemma decodePass_proper_prefix (func addr : Z) (payload p q : list Z) (this : Svc) :
  p ++ q = frame func addr payload -> q <> [] ->
  decodePass parse warn p this = (p, this).
Proof.
  intros Heq Hq. rewrite decodePass_unfold.
  destruct (Nat.ltb_spec (length p) 6) as [|Hlen]; [reflexivity|].
  assert (Hsize : (length p < 4 + length payload + 2)%nat).
  { rewrite <- (frame_length func addr payload), <- Heq, length_app.
    destruct q; [congruence|]. cbn [length]. lia. }
  destruct p as [|a [|b [|c [|d p']]]]; cbn [length] in Hlen; try lia.
  unfold frame in Heq. cbn [app] in Heq.
  injection Heq as -> -> -> -> _.
  unfold loopBody. rewrite indexOf_head.
  cbn [nth]. rewrite Nat2Z.id.
  repeat match goal with
         | |- context [(?a <? ?b)%nat] =>
             destruct (Nat.ltb_spec a b); try (cbn [length] in *; lia)
         end.
  reflexivity.
Qed.

(** Bytes before the first START are dropped in one iteration. *)
Lemma decodePass_resync (junk l : list Z) (this : Svc) :
  ~ In 0xAA junk -> (6 <= length (junk ++ 0xAA%Z :: l))%nat ->
  decodePass parse warn (junk ++ 0xAA :: l) this =
    decodePass parse warn (0xAA :: l) this.
Proof.
  intros Hjunk Hlen. destruct junk as [|j junk]; [reflexivity|].
  rewrite decodePass_unfold.
  destruct (Nat.ltb_spec (length ((j :: junk) ++ 0xAA :: l)) 6); [lia|].
  unfold loopBody. rewrite (indexOf_first _ _ _ Hjunk).
  cbn [length]. unfold slice_from.
  change (S (length junk)) with (length (j :: junk)).
  rewrite skipn_app, skipn_all, Nat.sub_diag. reflexivity.
Qed.

(** A buffer of at least six bytes without START is discarded. *)
Lemma decodePass_noise (buffer : list Z) (this : Svc) :
  ~ In 0xAA buffer -> (6 <= length buffer)%nat ->
  decodePass parse warn buffer this = ([], this).
Proof.
  intros Hno Hlen. rewrite decodePass_unfold.
  destruct (Nat.ltb_spec (length buffer) 6); [lia|].
  unfold loopBody. rewrite (indexOf_absent _ _ Hno). reflexivity.
Qed.

Lemma feed_empty_chunks (chunks : list (list Z)) (this : Svc) :
  concat chunks = [] -> feed parse warn chunks [] this = ([], this).
Proof.
  induction chunks as [|v later IH]; intros H; [reflexivity|].
  cbn [concat] in H. apply app_eq_nil in H. destruct H as [-> H].
  cbn [feed app]. rewrite decodePass_short by (cbn; lia).
  apply IH, H.
Qed.

(** The accumulator holds junk without START followed by a proper
    prefix of a data frame; the remaining chunks complete the frame. *)
Lemma feed_completes_frame (addr : Z) (payload : list Z) (chunks : list (list Z)) :
  forall junk p this,
    ~ In 0xAA junk ->
    p ++ concat chunks = frame 0xF0 addr payload ->
    (length p < length (frame 0xF0 addr payload))%nat ->
    feed parse warn chunks (junk ++ p) this = ([], parse payload this).
Proof.
  set (F := frame 0xF0 addr payload).
  induction chunks as [|v later IH]; intros junk p this Hjunk Heq Hlen.
  - cbn [concat] in Heq. rewrite app_nil_r in Heq. subst p. lia.
  - cbn [concat] in Heq. rewrite app_assoc in Heq.
    cbn [feed]. rewrite <- app_assoc.
    destruct (Nat.lt_ge_cases (length (p ++ v)) (length F)) as [Hlt|Hge].
    + (* still a proper prefix *)
      assert (Hq : concat later <> []).
      { intros E. rewrite E, app_nil_r in Heq. rewrite Heq in Hlt. lia. }
      destruct (Nat.lt_ge_cases (length (junk ++ p ++ v)) 6) as [Hshort|Hlong].
      * rewrite decodePass_short by exact Hshort.
        apply (IH junk (p ++ v) this Hjunk Heq Hlt).
      * destruct (p ++ v) as [|a pv] eqn:Epv.
        -- rewrite app_nil_r in *.
           rewrite (decodePass_noise _ _ Hjunk Hlong).
           apply (IH [] [] this); [intros []|exact Heq|exact Hlt].
        -- assert (Ea : a = 0xAA).
           { unfold F, frame in Heq. cbn [app] in Heq. congruence. }
           subst a. rewrite (decodePass_resync _ _ _ Hjunk Hlong).
           rewrite (decodePass_proper_prefix _ _ _ _ _ this Heq Hq).
           apply (IH [] (0xAA :: pv) this); [intros []|exact Heq|exact Hlt].
    + (* the frame is complete *)
      assert (Hnil : concat later = []).
      { apply (f_equal (@length Z)) in Heq. rewrite length_app in Heq.
        apply length_zero_iff_nil. lia. }
      rewrite Hnil, app_nil_r in Heq. rewrite Heq.
      assert (Hpass : decodePass parse warn (junk ++ F) this = ([], parse payload this)).
      { unfold F at 1. unfold frame. cbn [app].
        rewrite decodePass_resync; [| exact Hjunk |].
        2:{ rewrite length_app. cbn [length]. rewrite length_app. cbn [length]. lia. }
        change (decodePass parse warn F this = ([], parse payload this)).
        rewrite <- (app_nil_r F). unfold F. rewrite decodePass_frame.
        rewrite Z.eqb_refl. apply decodePass_short. cbn. lia. }
      rewrite Hpass. apply feed_empty_chunks, Hnil.
Qed.

End DecoderFacts.

(** ** The device service runs the generic decoder *)

Lemma list3_ind {A : Type} (P : list A -> Prop) :
  P [] -> (forall a, P [a]) -> (forall a b, P [a; b]) ->
  (forall a b c l, P l -> P (a :: b :: c :: l)) ->
  forall l, P l.
Proof.
  intros H0 H1 H2 H3.
  assert (H : forall l, P l /\ (forall a, P (a :: l)) /\ (forall a b, P (a :: b :: l))).
  { induction l as [|x l (IH0 & IH1 & IH2)]; [auto|].
    repeat split; auto. }
  intros l. apply H.
Qed.

Section ServiceFacts.

Variable Date_now : nat -> Z.
Variable bandPowers : list float -> FrequencyBands.

Lemma sampleLoop_set_binaryBuffer (b : list Z) (payload : list Z) :
  forall this,
    sampleLoop Date_now payload (set_binaryBuffer b this) =
      set_binaryBuffer b (sampleLoop Date_now payload this).
Proof.
  induction payload as [|x|x y|b0 b1 b2 rest IH] using list3_ind;
    intros this; try reflexivity.
  cbn [sampleLoop]. rewrite <- IH. reflexivity.
Qed.

Lemma parseEEGPayload_set_binaryBuffer (b : list Z) (payload : list Z)
      (this : DeviceService) :
  parseEEGPayload Date_now bandPowers payload (set_binaryBuffer b this) =
    set_binaryBuffer b (parseEEGPayload Date_now bandPowers payload this).
Proof.
  unfold parseEEGPayload. rewrite sampleLoop_set_binaryBuffer.
  set (this1 := sampleLoop Date_now payload this).
  change (rawSignalBuffer (set_binaryBuffer b this1)) with (rawSignalBuffer this1).
  destruct (FFT_SIZE <=? length (rawSignalBuffer this1))%nat; [|reflexivity].
  change (rawSignalBuffer (analyzeSignal bandPowers
            (lastN FFT_SIZE (rawSignalBuffer this1)) (set_binaryBuffer b this1)))
    with (rawSignalBuffer this1).
  change (rawSignalBuffer (analyzeSignal bandPowers
            (lastN FFT_SIZE (rawSignalBuffer this1)) this1))
    with (rawSignalBuffer this1).
  destruct (1000 <? length (rawSignalBuffer this1))%nat; reflexivity.
Qed.

Lemma receive_decodePass (value : list Z) (this : DeviceService) :
  receive Date_now bandPowers value this =
    let r := decodePass (parseEEGPayload Date_now bandPowers) console_warn
                        (binaryBuffer this ++ value) this in
    set_binaryBuffer (fst r) (snd r).
Proof.
  unfold receive, processBinaryFrames, appendBuffer.
  change (binaryBuffer (set_binaryBuffer (binaryBuffer this ++ value) this))
    with (binaryBuffer this ++ value).
  rewrite (decodePass_commute _ _ (set_binaryBuffer (binaryBuffer this ++ value))).
  - destruct (decodePass _ _ _ this) as [b s]. reflexivity.
  - intros p s. apply parseEEGPayload_set_binaryBuffer.
  - reflexivity.
Qed.

Lemma receiveAll_feed (chunks : list (list Z)) :
  forall this,
    receiveAll Date_now bandPowers chunks this =
      let r := feed (parseEEGPayload Date_now bandPowers) console_warn
                    chunks (binaryBuffer this) this in
      set_binaryBuffer (fst r) (snd r).
Proof.
  induction chunks as [|v later IH]; intros this.
  - destruct this; reflexivity.
  - change (receiveAll Date_now bandPowers (v :: later) this)
      with (receiveAll Date_now bandPowers later (receive Date_now bandPowers v this)).
    rewrite IH, receive_decodePass. cbn [feed].
    destruct (decodePass _ _ (binaryBuffer this ++ v) this) as [b s].
    cbn [fst snd].
    change (binaryBuffer (set_binaryBuffer b s)) with b.
    rewrite (feed_commute _ _ (set_binaryBuffer b)).
    + destruct (feed _ _ later b s) as [b' s']. reflexivity.
    + intros p s0. apply parseEEGPayload_set_binaryBuffer.
    + reflexivity.
Qed.

End ServiceFacts.

(** ** Frame decoder: results *)

Lemma frame_payload_slice (func addr : Z) (payload : list Z) :
  slice 4 (4 + Z.to_nat (nth 3 (frame func addr payload) 0))
        (frame func addr payload) = payload.
Proof.
  unfold frame. cbn [app nth]. rewrite Nat2Z.id.
  unfold slice. replace (4 + length payload - 4)%nat with (length payload) by lia.
  cbn [skipn]. rewrite firstn_app, firstn_all, Nat.sub_diag.
  cbn [firstn]. apply app_nil_r.
Qed.

Lemma decodePass_length {Svc : Type} (parse : list Z -> Svc -> Svc)
      (warn : Z -> Z -> Svc -> Svc) (fuel : nat) :
  forall buffer this r,
    whileLoop parse warn fuel buffer this = Some r ->
    (length (fst r) <= length buffer)%nat.
Proof.
  induction fuel as [|fuel IH]; intros buffer this r; [discriminate|].
  cbn [whileLoop]. destruct (length buffer <? 6)%nat.
  - intros [= <-]. reflexivity.
  - destruct (loopBody parse warn buffer this) as [b s|b s] eqn:Hbody.
    + intros [= <-]. apply loopBody_stops in Hbody.
      destruct Hbody as (_ & [(_ & ->)|(_ & -> & _)]); cbn [fst length]; lia.
    + intros H. apply IH in H. apply loopBody_shrinks in Hbody. lia.
Qed.

(** C1. A correctly framed data frame, appended to an accumulator that
    holds no START byte (the empty accumulator in particular), in one
    call or split at arbitrary points over several calls, is handed to the
    sample decoder exactly once, as the bytes [4, 4+LENGTH) of the frame,
    and is consumed whole: the accumulator ends empty.  This holds for
    every sample decoder, for the log of the decoder's calls, and for the
    device service. *)
Theorem data_frame_decoded_once :
  forall (bs payload : list Z) (chunks : list (list Z)) (junk : list Z),
    data_frame bs payload -> concat chunks = bs -> ~ In 0xAA junk ->
    payload = slice 4 (4 + Z.to_nat (nth 3 bs 0)) bs /\
    (forall (Svc : Type) (parse : list Z -> Svc -> Svc)
            (warn : Z -> Z -> Svc -> Svc) (this : Svc),
        feed parse warn chunks junk this = ([], parse payload this)) /\
    feed logPayload logWarning chunks junk [] = ([], [Handed payload]) /\
    (forall (Date_now : nat -> Z) (bandPowers : list float -> FrequencyBands)
            (this : DeviceService),
        binaryBuffer this = junk ->
        receiveAll Date_now bandPowers chunks this =
          set_binaryBuffer [] (parseEEGPayload Date_now bandPowers payload this)).
Proof.
  intros bs payload chunks junk (addr & _ & _ & _ & ->) Hchunks Hjunk.
  assert (Hfeed : forall (Svc : Type) (parse : list Z -> Svc -> Svc)
                         (warn : Z -> Z -> Svc -> Svc) (this : Svc),
             feed parse warn chunks junk this = ([], parse payload this)).
  { intros Svc parse warn this.
    rewrite <- (app_nil_r junk).
    apply (feed_completes_frame parse warn addr payload chunks junk [] this Hjunk).
    - exact Hchunks.
    - rewrite frame_length. cbn [length]. lia. }
  split; [symmetry; apply frame_payload_slice|].
  split; [exact Hfeed|].
  split; [apply (Hfeed _ logPayload logWarning [])|].
  intros Date_now bandPowers this Hbuf.
  rewrite receiveAll_feed, Hbuf, Hfeed. reflexivity.
Qed.

Lemma data_frame_decoded_once_witness :
  feed logPayload logWarning
       [[0xAA; 0xF0]; [0x01; 0x03; 0x12]; []; [0x34; 0x56; 0x22; 0xBB]]
       [0x07; 0x08] [] = ([], [Handed [0x12; 0x34; 0x56]]).
Proof.
  refine (proj1 (proj2 (proj2
    (data_frame_decoded_once
       (frame 0xF0 0x01 [0x12; 0x34; 0x56]) [0x12; 0x34; 0x56]
       [[0xAA; 0xF0]; [0x01; 0x03; 0x12]; []; [0x34; 0x56; 0x22; 0xBB]]
       [0x07; 0x08] _ _ _)))).
  - exists 0x01. unfold is_byte, bytes.
    repeat split; try lia; try (cbn; lia).
    repeat constructor; unfold is_byte; lia.
  - vm_compute. reflexivity.
  - cbn. intros [H|[H|[]]]; discriminate H.
Defined.

(** C4. One decode pass terminates on every accumulator content: the
    loop returns with any fuel above the buffer length (so the pass is a
    total function); a pass on fewer than 6 bytes stops at once; every
    iteration either stops (no START byte: the buffer is discarded; or an
    incomplete header or frame: the buffer is kept) or strictly shrinks the
    buffer, dropping the bytes before the first START, or one leading
    byte, or a whole frame; and the accumulator never grows. *)
Theorem decode_pass_terminates :
  forall (Svc : Type) (parse : list Z -> Svc -> Svc)
         (warn : Z -> Z -> Svc -> Svc) (buffer : list Z) (this : Svc),
    (forall fuel, (length buffer < fuel)%nat ->
        whileLoop parse warn fuel buffer this =
          Some (decodePass parse warn buffer this)) /\
    ((length buffer < 6)%nat -> decodePass parse warn buffer this = (buffer, this)) /\
    match loopBody parse warn buffer this with
    | Break buffer' this' =>
        this' = this /\
        ((indexOf 0xAA buffer = None /\ buffer' = []) \/
         (indexOf 0xAA buffer = Some O /\ buffer' = buffer /\
          ((length buffer < 4)%nat \/
           (length buffer < 4 + Z.to_nat (nth 3 buffer 0%Z) + 2)%nat)))
    | Continue buffer' _ =>
        (length buffer' < length buffer)%nat /\
        ((exists k, indexOf 0xAA buffer = Some (S k) /\
                    (S k < length buffer)%nat /\ buffer' = skipn (S k) buffer) \/
         (indexOf 0xAA buffer = Some O /\
          let packetSize := (4 + Z.to_nat (nth 3 buffer 0%Z) + 2)%nat in
          (packetSize <= length buffer)%nat /\
          (buffer' = skipn 1 buffer \/ buffer' = skipn packetSize buffer)))
    end /\
    (length (fst (decodePass parse warn buffer this)) <= length buffer)%nat /\
    (forall (Date_now : nat -> Z) (bandPowers : list float -> FrequencyBands)
            (service : DeviceService),
        exists buffer' service',
          whileLoop (parseEEGPayload Date_now bandPowers) console_warn
                    (S (length (binaryBuffer service)))
                    (binaryBuffer service) service
            = Some (buffer', service') /\
          processBinaryFrames Date_now bandPowers service
            = set_binaryBuffer buffer' service' /\
          (length buffer' <= length (binaryBuffer service))%nat).
Proof.
  intros Svc parse warn buffer this.
  split; [intros fuel; apply decodePass_fuel|].
  split; [apply decodePass_short|].
  split.
  - destruct (loopBody parse warn buffer this) as [b s|b s] eqn:Hbody.
    + apply loopBody_stops in Hbody. exact Hbody.
    + split; [apply (loopBody_shrinks _ _ _ _ _ _ Hbody)|].
      apply (loopBody_drops _ _ _ _ _ _ Hbody).
  - split.
    + apply (decodePass_length parse warn (S (length buffer)) buffer this).
      apply decodePass_fuel. lia.
    + intros Date_now bandPowers service.
      pose proof (decodePass_fuel (parseEEGPayload Date_now bandPowers) console_warn
                    (binaryBuffer service) service
                    (S (length (binaryBuffer service))) (Nat.lt_succ_diag_r _)) as H.
      unfold processBinaryFrames.
      destruct (decodePass _ _ (binaryBuffer service) service) as [b s] eqn:E.
      exists b, s. split; [exact H|]. split; [reflexivity|].
      apply (decodePass_length _ _ _ _ _ _ H).
Qed.

(** C10. A validated frame whose FUNCTION byte is not [0xF0], at the head
    of the accumulator, is consumed whole and nothing else happens: the
    iteration continues with the bytes after the frame and the service
    unchanged, no payload is handed over and nothing is logged, and on the
    device service the sample window and the snapshot stay as they were. *)
Theorem non_data_frame_is_skipped :
  forall (func addr : Z) (payload rest : list Z),
    func <> 0xF0 ->
    (forall (Svc : Type) (parse : list Z -> Svc -> Svc)
            (warn : Z -> Z -> Svc -> Svc) (this : Svc),
        loopBody parse warn (frame func addr payload ++ rest) this
          = Continue rest this /\
        decodePass parse warn (frame func addr payload ++ rest) this
          = decodePass parse warn rest this) /\
    decodePass logPayload logWarning (frame func addr payload) [] = ([], []) /\
    (forall (Date_now : nat -> Z) (bandPowers : list float -> FrequencyBands)
            (this : DeviceService),
        (binaryBuffer this = frame func addr payload ++ rest ->
         processBinaryFrames Date_now bandPowers this =
           processBinaryFrames Date_now bandPowers (set_binaryBuffer rest this)) /\
        (binaryBuffer this = frame func addr payload ->
         let this' := processBinaryFrames Date_now bandPowers this in
         this' = set_binaryBuffer [] this /\
         binaryBuffer this' = [] /\
         rawSignalBuffer this' = rawSignalBuffer this /\
         latestData this' = latestData this)).
Proof.
  intros func addr payload rest Hfunc.
  apply Z.eqb_neq in Hfunc.
  assert (Hgen : forall (Svc : Type) (parse : list Z -> Svc -> Svc)
                        (warn : Z -> Z -> Svc -> Svc) (this : Svc) tail,
             loopBody parse warn (frame func addr payload ++ tail) this
               = Continue tail this /\
             decodePass parse warn (frame func addr payload ++ tail) this
               = decodePass parse warn tail this).
  { intros Svc parse warn this tail.
    rewrite loopBody_frame, decodePass_frame, Hfunc. split; reflexivity. }
  split; [intros; apply Hgen|].
  split.
  { rewrite <- (app_nil_r (frame func addr payload)).
    rewrite (proj2 (Hgen _ logPayload logWarning [] [])). reflexivity. }
  intros Date_now bandPowers this.
  assert (Hpass : forall tail, binaryBuffer this = frame func addr payload ++ tail ->
            processBinaryFrames Date_now bandPowers this =
              processBinaryFrames Date_now bandPowers (set_binaryBuffer tail this)).
  { intros tail Hbuf. unfold processBinaryFrames.
    rewrite Hbuf, (proj2 (Hgen _ _ _ this tail)).
    change (binaryBuffer (set_binaryBuffer tail this)) with tail.
    rewrite (decodePass_commute _ _ (set_binaryBuffer tail)).
    - destruct (decodePass _ _ tail this) as [b s]. reflexivity.
    - intros p s. apply parseEEGPayload_set_binaryBuffer.
    - reflexivity. }
  split; [apply Hpass|].
  intros Hbuf this'.
  assert (E : this' = set_binaryBuffer [] this).
  { subst this'. rewrite (Hpass []) by (rewrite app_nil_r; exact Hbuf).
    reflexivity. }
  rewrite E. repeat split; reflexivity.
Qed.

Lemma non_data_frame_is_skipped_witness :
  decodePass logPayload logWarning
             [0xAA; 0xB0; 0xB0; 0x03; 0x12; 0x34; 0x56; 0xD5; 0xBB] []
    = ([], []).
Proof.
  refine (proj1 (proj2
    (non_data_frame_is_skipped 0xB0 0xB0 [0x12; 0x34; 0x56] [] _))).
  discriminate.
Defined.

Lemma flipBit_byte (k : nat) (x : Z) :
  (k < 8)%nat -> is_byte x -> is_byte (flipBit k x).
Proof.
  intros Hk Hx. unfold flipBit. apply lxor_byte; [exact Hx|].
  do 8 (destruct k as [|k]; [vm_compute; split; [discriminate|reflexivity]|]).
  lia.
Qed.

Lemma flipBit_changes (k : nat) (x : Z) : flipBit k x <> x.
Proof.
  unfold flipBit. intros H.
  rewrite <- (Z.lxor_0_r x) in H at 2.
  apply lxor_cancel_l in H.
  rewrite Z.shiftl_1_l in H.
  pose proof (Z.pow_pos_nonneg 2 (Z.of_nat k)). lia.
Qed.

(** *** Payloads are handed over only from data frames *)

Lemma bytes_skipn (k : nat) (b : list Z) : bytes b -> bytes (skipn k b).
Proof.
  intros H. unfold bytes in *. rewrite Forall_forall in *.
  intros x Hx. apply H. rewrite <- (firstn_skipn k b). apply in_or_app. tauto.
Qed.

Lemma indexOf_zero (x : Z) (l : list Z) :
  indexOf x l = Some O -> exists l', l = x :: l'.
Proof.
  destruct l as [|b l]; [discriminate|]. cbn [indexOf].
  destruct (Z.eqb_spec b x) as [->|_]; [intros _; exists l; reflexivity|].
  destruct (indexOf x l); discriminate.
Qed.

(** A buffer that starts at a START byte and holds [packetSize] bytes
    splits into the fields of a candidate frame. *)
Lemma candidate_shape (buffer : list Z) :
  bytes buffer ->
  indexOf 0xAA buffer = Some O ->
  (4 + Z.to_nat (nth 3 buffer 0%Z) + 2 <= length buffer)%nat ->
  exists func addr payload c e rest,
    buffer = 0xAA :: (func :: addr :: Z.of_nat (length payload) :: payload)
                  ++ c :: e :: rest /\
    is_byte addr /\ bytes payload /\ (length payload <= 255)%nat.
Proof.
  intros Hb Hidx Hsize.
  destruct (indexOf_zero _ _ Hidx) as (l & ->).
  destruct l as [|func [|addr [|L more]]]; cbn [length nth] in Hsize; try lia.
  unfold bytes in Hb.
  inversion Hb as [|? ? _ Hb1]; subst. inversion Hb1 as [|? ? _ Hb2]; subst.
  inversion Hb2 as [|? ? Haddr Hb3]; subst. inversion Hb3 as [|? ? HL Hmore]; subst.
  set (len := Z.to_nat L) in *.
  assert (Hlen : length (firstn len more) = len) by (rewrite length_firstn; lia).
  assert (Hrest : (2 <= length (skipn len more))%nat) by (rewrite length_skipn; lia).
  destruct (skipn len more) as [|c [|e rest]] eqn:Hskip; cbn [length] in Hrest; try lia.
  exists func, addr, (firstn len more), c, e, rest.
  rewrite <- (firstn_skipn len more) in Hmore. apply Forall_app in Hmore.
  split; [|split; [exact Haddr|split; [exact (proj1 Hmore)|]]].
  - rewrite Hlen. unfold len. unfold is_byte in HL. rewrite Z2Nat.id by lia.
    cbn [app]. rewrite <- Hskip, firstn_skipn. reflexivity.
  - rewrite Hlen. unfold len. unfold is_byte in HL. lia.
Qed.

Lemma embedsDataFrame_skipn (k : nat) (bs : list Z) :
  embedsDataFrame (skipn k bs) -> embedsDataFrame bs.
Proof.
  intros (before & fr & payload & after & E & H).
  exists (firstn k bs ++ before), fr, payload, after. split; [|exact H].
  rewrite <- app_assoc, <- E. symmetry. apply firstn_skipn.
Qed.

Lemma startsDataFrame_frame (addr : Z) (payload after : list Z) :
  data_frame (frame 0xF0 addr payload) payload ->
  startsDataFrame (frame 0xF0 addr payload ++ after) = true.
Proof.
  intros (addr' & Haddr' & Hpayload & Hlen & E).
  assert (addr' = addr) as ->.
  { apply (f_equal (fun l => nth 2 l 0)) in E. cbn [frame app nth] in E.
    symmetry. exact E. }
  rewrite frame_app. cbn [app]. cbn [startsDataFrame].
  rewrite Nat2Z.id, firstn_app, Nat.sub_diag, firstn_all, app_nil_r.
  rewrite skipn_app, Nat.sub_diag, skipn_all. cbn [app skipn].
  rewrite !Z.eqb_refl.
  rewrite (proj2 (is_byteb_spec addr) Haddr').
  rewrite (proj2 (is_byteb_spec (Z.of_nat (length payload))))
    by (unfold is_byte; lia).
  replace (forallb is_byteb payload) with true; [reflexivity|].
  symmetry. apply forallb_forall. intros x Hx. apply is_byteb_spec.
  unfold bytes in Hpayload. rewrite Forall_forall in Hpayload. auto.
Qed.

(** The decision procedure finds every embedded data frame. *)
Lemma embedsDataFrameb_complete (bs : list Z) :
  embedsDataFrame bs -> embedsDataFrameb bs = true.
Proof.
  intros (before & fr & payload & after & -> & H).
  induction before as [|b before IH].
  - destruct H as (addr & Haddr & Hpayload & Hlen & ->).
    assert (Hs : startsDataFrame (frame 0xF0 addr payload ++ after) = true).
    { apply startsDataFrame_frame. exists addr. auto. }
    cbn [app]. destruct (frame 0xF0 addr payload ++ after); [discriminate Hs|].
    cbn [embedsDataFrameb]. rewrite Hs. reflexivity.
  - cbn [app embedsDataFrameb]. rewrite IH. apply orb_true_r.
Qed.

Section HandedPayloads.

Context {Svc : Type}.
Variable parse : list Z -> Svc -> Svc.
Variable warn : Z -> Z -> Svc -> Svc.

(** What one iteration can do to the rest of the service: nothing, a CRC
    diagnostic, or the hand-over of the payload of a data frame the
    buffer begins with. *)
Lemma loopBody_state (buffer : list Z) (this : Svc) (buffer' : list Z) (this' : Svc) :
  bytes buffer ->
  loopBody parse warn buffer this = Continue buffer' this' ->
  this' = this \/
  (exists r c, this' = warn r c this) \/
  (exists addr payload rest,
      buffer = frame 0xF0 addr payload ++ rest /\
      data_frame (frame 0xF0 addr payload) payload /\
      this' = parse payload this).
Proof.
  intros Hb H. pose proof (loopBody_drops parse warn _ _ _ _ H) as Hcase.
  destruct Hcase as [(k & Hidx & _ & _)|(Hidx & Hsize & _)].
  - unfold loopBody in H. rewrite Hidx in H. injection H as _ <-. left. reflexivity.
  - destruct (candidate_shape buffer Hb Hidx Hsize)
      as (func & addr & payload & c & e & rest & -> & Haddr & Hpayload & Hlen).
    rewrite (loopBody_candidate parse warn func addr payload c e rest this) in H.
    destruct (Z.eqb_spec e 0xBB) as [->|_]; cbn [negb] in H.
    2:{ injection H as _ <-. left. reflexivity. }
    destruct (Z.eqb_spec c (crc8 (func :: addr :: Z.of_nat (length payload) :: payload)))
      as [->|_].
    2:{ injection H as _ <-. right. left. eauto. }
    destruct (Z.eqb_spec func 0xF0) as [->|_].
    2:{ injection H as _ <-. left. reflexivity. }
    injection H as _ <-. right. right. exists addr, payload, rest.
    split; [symmetry; apply frame_app|]. split; [|reflexivity].
    exists addr. auto.
Qed.

(** A pass over octets that embed no data frame hands over nothing: the
    rest of the service only receives CRC diagnostics. *)
Lemma decodePass_warns_only (n : nat) :
  forall (buffer : list Z) (this : Svc),
    (length buffer <= n)%nat ->
    bytes buffer ->
    ~ embedsDataFrame buffer ->
    exists ws, snd (decodePass parse warn buffer this) = warned warn ws this.
Proof.
  induction n as [|n IH]; intros buffer this Hn Hb Hno.
  - rewrite decodePass_short by lia. exists []. reflexivity.
  - rewrite decodePass_unfold.
    destruct (length buffer <? 6)%nat; [exists []; reflexivity|].
    destruct (loopBody parse warn buffer this) as [b s|b s] eqn:Hbody.
    + apply loopBody_stops in Hbody. destruct Hbody as [-> _].
      exists []. reflexivity.
    + pose proof (loopBody_shrinks parse warn _ _ _ _ Hbody) as Hshrink.
      assert (Hsuffix : exists k, b = skipn k buffer).
      { destruct (loopBody_drops parse warn _ _ _ _ Hbody)
          as [(k & _ & _ & ->)|(_ & _ & [-> | ->])]; eauto. }
      destruct Hsuffix as (k & ->).
      destruct (IH (skipn k buffer) s) as (ws & Hws).
      * lia.
      * apply bytes_skipn, Hb.
      * intros H. apply Hno. exact (embedsDataFrame_skipn k buffer H).
      * destruct (loopBody_state _ _ _ _ Hb Hbody)
          as [->|[(r & c & ->)|(addr & payload & rest & E & Hframe & _)]].
        -- exists ws. exact Hws.
        -- exists ((r, c) :: ws). exact Hws.
        -- exfalso. apply Hno. exists [], (frame 0xF0 addr payload), payload, rest.
           split; [exact E|exact Hframe].
Qed.

End HandedPayloads.

(** C3, as the code has it.  A malformed frame is handled inside the
    decoder, whose pass is a total function: when the byte at the END
    offset is not [0xBB], or the CRC byte differs from the computed CRC,
    the iteration drops exactly the leading byte, hands nothing to the
    sample decoder and continues (a CRC mismatch is reported as a
    warning).  A frame with one flipped payload bit fails the CRC check,
    and the pass over it, and over any octets behind it, hands over no
    payload (the rest of the service only receives CRC diagnostics)
    unless some suffix of the bytes after its START byte begins with a
    well-formed data frame.  Noise without [0xAA] is discarded once at
    least 6 bytes are buffered; fewer bytes stay in the accumulator. *)
Theorem malformed_frame_resync :
  forall (Svc : Type) (parse : list Z -> Svc -> Svc)
         (warn : Z -> Z -> Svc -> Svc) (this : Svc),
    (forall (func addr : Z) (payload : list Z) (c e : Z) (rest : list Z),
        let covered := func :: addr :: Z.of_nat (length payload) :: payload in
        e <> 0xBB ->
        loopBody parse warn (0xAA :: covered ++ c :: e :: rest) this
          = Continue (covered ++ c :: e :: rest) this) /\
    (forall (func addr : Z) (payload : list Z) (c : Z) (rest : list Z),
        let covered := func :: addr :: Z.of_nat (length payload) :: payload in
        c <> crc8 covered ->
        loopBody parse warn (0xAA :: covered ++ c :: 0xBB :: rest) this
          = Continue (covered ++ c :: 0xBB :: rest) (warn c (crc8 covered) this)) /\
    (forall (func addr : Z) (pre : list Z) (x : Z) (post : list Z) (k : nat)
            (rest : list Z),
        let good := pre ++ x :: post in
        let bad := pre ++ flipBit k x :: post in
        let L := Z.of_nat (length good) in
        let c := crc8 (func :: addr :: L :: good) in
        let c' := crc8 (func :: addr :: L :: bad) in
        let tail := (func :: addr :: L :: bad) ++ [c; 0xBB] in
        is_byte func -> is_byte addr -> bytes good -> (length good <= 255)%nat ->
        (k < 8)%nat ->
        c <> c' /\
        loopBody parse warn (0xAA :: tail ++ rest) this
          = Continue (tail ++ rest) (warn c c' this) /\
        (bytes rest ->
         ~ embedsDataFrame (tail ++ rest) ->
         exists (ws : list (Z * Z)) (left : list Z),
           decodePass parse warn (0xAA :: tail ++ rest) this
             = (left, warned warn ws (warn c c' this)))) /\
    (forall noise : list Z,
        ~ In 0xAA noise ->
        decodePass parse warn noise this =
          (if (length noise <? 6)%nat then noise else [], this)).
Proof.
  intros Svc parse warn this.
  assert (Hcrc : forall func addr payload c rest,
             c <> crc8 (func :: addr :: Z.of_nat (length payload) :: payload) ->
             loopBody parse warn
               (0xAA :: (func :: addr :: Z.of_nat (length payload) :: payload)
                     ++ c :: 0xBB :: rest) this
             = Continue ((func :: addr :: Z.of_nat (length payload) :: payload)
                           ++ c :: 0xBB :: rest)
                        (warn c (crc8 (func :: addr :: Z.of_nat (length payload)
                                            :: payload)) this)).
  { intros func addr payload c rest Hc.
    rewrite (loopBody_candidate parse warn func addr payload c 0xBB rest this).
    apply Z.eqb_neq in Hc. rewrite Hc. reflexivity. }
  split; [|split; [exact Hcrc|split]].
  - intros func addr payload c e rest covered He.
    subst covered.
    rewrite (loopBody_candidate parse warn func addr payload c e rest this).
    apply Z.eqb_neq in He. rewrite He. reflexivity.
  - intros func addr pre x post k rest good bad L c c' tail
           Hfunc Haddr Hgood Hlen Hk.
    assert (Hsame : length bad = length good).
    { subst bad good. rewrite !length_app. reflexivity. }
    assert (Hx : is_byte x /\ bytes pre /\ bytes post).
    { unfold bytes in *. apply Forall_app in Hgood. destruct Hgood as [Hp Hq].
      inversion Hq; subst. auto. }
    destruct Hx as (Hx & Hpre & Hpost).
    assert (HL : is_byte L) by (subst L; unfold is_byte; lia).
    assert (Hne : c <> c').
    { subst c c' good bad. intros E.
      apply (crc8_single_byte_change (func :: addr :: L :: pre) post x (flipBit k x))
        in E.
      - exact (flipBit_changes k x (eq_sym E)).
      - unfold bytes. repeat (apply Forall_cons; [assumption|]). exact Hpre.
      - exact Hpost.
      - exact Hx.
      - apply flipBit_byte; assumption. }
    split; [exact Hne|].
    assert (Hbody : loopBody parse warn (0xAA :: tail ++ rest) this
                    = Continue (tail ++ rest) (warn c c' this)).
    { subst tail. rewrite <- app_assoc. cbn [app].
      subst c' L. rewrite <- Hsame. apply Hcrc.
      rewrite Hsame. exact Hne. }
    split; [exact Hbody|].
    intros Hrest Hno.
    assert (Hbad : bytes bad).
    { subst bad. unfold bytes. apply Forall_app. split; [exact Hpre|].
      apply Forall_cons; [apply flipBit_byte; assumption|exact Hpost]. }
    assert (Hc : is_byte c).
    { subst c. apply crc8_range. unfold bytes.
      repeat (apply Forall_cons; [assumption|]). exact Hgood. }
    assert (Htail : bytes (tail ++ rest)).
    { subst tail. unfold bytes. apply Forall_app. split; [|exact Hrest].
      apply Forall_app. split.
      - repeat (apply Forall_cons; [assumption|]). exact Hbad.
      - apply Forall_cons; [exact Hc|].
        apply Forall_cons; [unfold is_byte; lia|apply Forall_nil]. }
    destruct (decodePass_warns_only parse warn (length (tail ++ rest)) (tail ++ rest)
                (warn c c' this) (Nat.le_refl _) Htail Hno) as (ws & Hws).
    exists ws, (fst (decodePass parse warn (tail ++ rest) (warn c c' this))).
    rewrite decodePass_unfold.
    destruct (Nat.ltb_spec (length (0xAA :: tail ++ rest)) 6) as [Hshort|_].
    { subst tail. cbn [length app] in Hshort. rewrite !length_app in Hshort.
      cbn [length] in Hshort. lia. }
    rewrite Hbody, <- Hws. apply surjective_pairing.
  - intros noise Hno.
    destruct (Nat.ltb_spec (length noise) 6).
    + apply decodePass_short. assumption.
    + apply decodePass_noise; assumption.
Qed.

Lemma malformed_frame_resync_witness :
  exists (ws : list (Z * Z)) (left : list Z),
    decodePass logPayload logWarning
               [0xAA; 0xF0; 0x01; 0x03; 0x12; 0x30; 0xAA; 0xF5; 0xBB] []
      = (left, warned logWarning ws [CrcMismatch 0xF5 0xCE]).
Proof.
  refine (proj2 (proj2
    (proj1 (proj2 (proj2 (malformed_frame_resync _ logPayload logWarning [])))
           0xF0 0x01 [0x12] 0x34 [0xAA] 2%nat [] _ _ _ _ _)) _ _).
  - unfold is_byte. lia.
  - unfold is_byte. lia.
  - repeat constructor; unfold is_byte; lia.
  - cbn. lia.
  - lia.
  - constructor.
  - intros H. apply embedsDataFrameb_complete in H. vm_compute in H. discriminate.
Defined.

(** C3 as stated fails in two places: three bytes of noise stay in the
    accumulator, and a frame with one flipped payload bit whose payload
    embeds a valid frame still yields a decoded payload. *)
Lemma short_noise_stays_embedded_frame_decodes :
  decodePass logPayload logWarning [0x01; 0x02; 0x03] []
    = ([0x01; 0x02; 0x03], []) /\
  (let inner := frame 0xF0 0x00 [0x01; 0x02; 0x03] in
   let good := 0x10 :: inner in
   let bad := flipBit 0 0x10 :: inner in
   let c := crc8 (0xF0 :: 0x00 :: Z.of_nat (length good) :: good) in
   data_frame (frame 0xF0 0x00 good) good /\
   decodePass logPayload logWarning
              (0xAA :: 0xF0 :: 0x00 :: Z.of_nat (length good) :: bad ++ [c; 0xBB]) []
     = ([c; 0xBB], [CrcMismatch c 0xB8; Handed [0x01; 0x02; 0x03]])).
Proof.
  split; [vm_compute; reflexivity|].
  cbv zeta. split.
  - exists 0x00. unfold is_byte, bytes. repeat split; try lia; try (cbn; lia).
    vm_compute. repeat constructor; discriminate.
  - vm_compute. reflexivity.
Qed.

(** ** Checksum engine: result *)

Lemma crc8_snoc (data : list Z) (b : Z) :
  crc8 (data ++ [b]) = crc8_byte (crc8 data) b.
Proof. unfold crc8. rewrite fold_left_app. reflexivity. Qed.

(** C2. [crc8] is a total function of the byte sequence: it is 0 on the
    empty sequence, it extends byte by byte from the accumulator 0, each
    byte taking eight rounds that shift the accumulator right and xor
    [0x8C] in exactly when the low bits of accumulator and byte differ
    (the byte moving right as well); on octets the result is an octet and
    equals the catalogued CRC-8/MAXIM (polynomial [0x31], reflected,
    initial value 0), including its check value [0xA1] on "123456789". *)
Theorem crc8_is_maxim_dallas :
  crc8 [] = 0 /\
  (forall data b, crc8 (data ++ [b]) = crc8_byte (crc8 data) b) /\
  (forall crc byte, crc8_byte crc byte = fst (Nat.iter 8 crc8_bit (crc, byte))) /\
  (forall crc byte,
      crc8_bit (crc, byte) =
        (if Bool.eqb (Z.testbit crc 0) (Z.testbit byte 0)
         then Z.shiftr crc 1
         else Z.lxor (Z.shiftr crc 1) 0x8C,
         Z.shiftr byte 1)) /\
  (forall data, bytes data ->
      is_byte (crc8 data) /\ crc8 data = crc8_maxim_reference data) /\
  crc8 check_input = 0xA1 /\
  crc8_maxim_reference check_input = 0xA1.
Proof.
  split; [reflexivity|].
  split; [exact crc8_snoc|].
  split; [reflexivity|].
  split; [exact crc8_bit_spec|].
  split.
  - intros data Hdata. split.
    + apply crc8_range, Hdata.
    + apply crc8_matches_reference, Hdata.
  - split; vm_compute; reflexivity.
Qed.

Lemma crc8_is_maxim_dallas_witness :
  is_byte (crc8 [0xB0; 0xB0; 0x03; 0x12; 0x34; 0x56]) /\
  crc8 [0xB0; 0xB0; 0x03; 0x12; 0x34; 0x56]
    = crc8_maxim_reference [0xB0; 0xB0; 0x03; 0x12; 0x34; 0x56].
Proof.
  refine (proj1 (proj2 (proj2 (proj2 (proj2 crc8_is_maxim_dallas))))
                [0xB0; 0xB0; 0x03; 0x12; 0x34; 0x56] _).
  repeat (apply Forall_cons; [unfold is_byte; lia|]). apply Forall_nil.
Defined.

(** ** Handshake encoder: result *)

Module HandshakeFacts.

Import Handshake.
Import String.

Lemma digit_hexValue (c : ascii) :
  isDigit c = true -> hexValue c = Some (digitValue c) /\ 0 <= digitValue c <= 9.
Proof.
  destruct c as [[] [] [] [] [] [] [] []]; vm_compute;
    first [discriminate | intros _; split; [reflexivity|split; discriminate]].
Qed.

Lemma parseInt16_two_digits (a b : ascii) :
  isDigit a = true -> isDigit b = true ->
  parseInt16 (String a (String b EmptyString))
    = Some (16 * digitValue a + digitValue b).
Proof.
  intros Ha Hb.
  destruct (digit_hexValue a Ha) as [Ea _], (digit_hexValue b Hb) as [Eb _].
  unfold parseInt16. cbn [parseHex]. rewrite Ea. cbn [parseHex]. rewrite Eb.
  reflexivity.
Qed.

Lemma removeNonDigits_get (s : string) :
  forall i c, get i (removeNonDigits s) = Some c -> isDigit c = true.
Proof.
  induction s as [|x s IH]; intros i c; cbn [removeNonDigits].
  - destruct i; discriminate.
  - destruct (isDigit x) eqn:Hx; [|apply IH].
    destruct i as [|i]; cbn [get].
    + intros [= <-]. exact Hx.
    + apply IH.
Qed.

Lemma charAt_digit (s : string) (i : nat) :
  isDigit (charAt i (removeNonDigits s)) = true.
Proof.
  unfold charAt. destruct (get i (removeNonDigits s)) as [c|] eqn:E.
  - apply (removeNonDigits_get s i c E).
  - reflexivity.
Qed.

(** Padding and truncation: the cleaned identifier is the first six
    characters of the digits, with ["0"] where they run out. *)
Lemma pad_and_truncate (d : string) :
  sliceStr 0 6 (padEnd 6 "0"%char d) =
    String (charAt 0 d) (String (charAt 1 d) (String (charAt 2 d)
      (String (charAt 3 d) (String (charAt 4 d) (String (charAt 5 d)
        EmptyString))))).
Proof.
  destruct d as [|c0 [|c1 [|c2 [|c3 [|c4 [|c5 rest]]]]]]; try reflexivity.
  unfold padEnd, sliceStr, charAt. cbn [length Nat.sub replicate].
  cbn [append substring get].
  destruct (rest ++ "")%string; reflexivity.
Qed.

Lemma digit_pair_byte (a b : Z) :
  0 <= a <= 9 -> 0 <= b <= 9 ->
  is_byte (16 * a + b) /\ (16 * a + b) mod 256 = 16 * a + b.
Proof.
  intros Ha Hb. assert (H : is_byte (16 * a + b)) by (unfold is_byte; lia).
  split; [exact H|]. apply Z.mod_small. exact H.
Qed.

(** C8. For every identifier string the handshake frame is
    [AA B0 B0 03 id1 id2 id3 crc BB]: the identifier is reduced to its
    decimal digits, padded with ["0"] to six characters and cut to six;
    each pair of characters is read as a hexadecimal byte, so [idk] packs
    the two digits as nibbles; [crc] is [crc8] of the six bytes before it;
    every element is an octet.  The identifier "123456" gives
    [AA B0 B0 03 12 34 56 D5 BB].  The frame is written to a writable port
    and nowhere else. *)
Theorem handshake_frame_layout :
  forall deviceIdStr : string,
    let digits := removeNonDigits deviceIdStr in
    let id1 := packedByte digits 0 in
    let id2 := packedByte digits 1 in
    let id3 := packedByte digits 2 in
    let crc := crc8 [0xB0; 0xB0; 0x03; id1; id2; id3] in
    (forall i c, get i digits = Some c -> isDigit c = true) /\
    cleanId deviceIdStr =
      String (charAt 0 digits) (String (charAt 1 digits) (String (charAt 2 digits)
        (String (charAt 3 digits) (String (charAt 4 digits) (String (charAt 5 digits)
          EmptyString))))) /\
    parseInt16 (sliceStr 0 2 (cleanId deviceIdStr)) = Some id1 /\
    parseInt16 (sliceStr 2 4 (cleanId deviceIdStr)) = Some id2 /\
    parseInt16 (sliceStr 4 6 (cleanId deviceIdStr)) = Some id3 /\
    handshakeFrame deviceIdStr =
      [0xAA; 0xB0; 0xB0; 0x03; id1; id2; id3; crc; 0xBB] /\
    bytes (handshakeFrame deviceIdStr) /\
    handshakeFrame "123456"
      = [0xAA; 0xB0; 0xB0; 0x03; 0x12; 0x34; 0x56;
         crc8 [0xB0; 0xB0; 0x03; 0x12; 0x34; 0x56]; 0xBB] /\
    crc8 [0xB0; 0xB0; 0x03; 0x12; 0x34; 0x56] = 0xD5 /\
    (forall p : SerialPort,
        sendHandshake deviceIdStr None = None /\
        (writable p = false -> sendHandshake deviceIdStr (Some p) = Some p) /\
        (writable p = true ->
         sendHandshake deviceIdStr (Some p) =
           Some {| writable := true;
                   written := written p ++ [handshakeFrame deviceIdStr] |})).
Proof.
  intros s digits id1 id2 id3 crc.
  assert (Hclean : cleanId s =
      String (charAt 0 digits) (String (charAt 1 digits) (String (charAt 2 digits)
        (String (charAt 3 digits) (String (charAt 4 digits) (String (charAt 5 digits)
          EmptyString)))))) by apply pad_and_truncate.
  assert (Hd : forall i, isDigit (charAt i digits) = true)
    by (intros i; apply charAt_digit).
  assert (H1 : parseInt16 (sliceStr 0 2 (cleanId s)) = Some id1).
  { rewrite Hclean. apply parseInt16_two_digits; apply Hd. }
  assert (H2 : parseInt16 (sliceStr 2 4 (cleanId s)) = Some id2).
  { rewrite Hclean. apply parseInt16_two_digits; apply Hd. }
  assert (H3 : parseInt16 (sliceStr 4 6 (cleanId s)) = Some id3).
  { rewrite Hclean. apply parseInt16_two_digits; apply Hd. }
  assert (Hrange : forall i, 0 <= digitValue (charAt i digits) <= 9).
  { intros i. apply (digit_hexValue _ (Hd i)). }
  assert (B1 : is_byte id1 /\ id1 mod 256 = id1)
    by exact (digit_pair_byte _ _ (Hrange 0%nat) (Hrange 1%nat)).
  assert (B2 : is_byte id2 /\ id2 mod 256 = id2)
    by exact (digit_pair_byte _ _ (Hrange 2%nat) (Hrange 3%nat)).
  assert (B3 : is_byte id3 /\ id3 mod 256 = id3)
    by exact (digit_pair_byte _ _ (Hrange 4%nat) (Hrange 5%nat)).
  assert (Hpayload : bytes [0xB0; 0xB0; 0x03; id1; id2; id3]).
  { unfold bytes. repeat (apply Forall_cons; [first [tauto | unfold is_byte; lia]|]).
    apply Forall_nil. }
  assert (Hcrc : is_byte crc) by (apply crc8_range, Hpayload).
  assert (Hframe : handshakeFrame s =
                     [0xAA; 0xB0; 0xB0; 0x03; id1; id2; id3; crc; 0xBB]).
  { unfold handshakeFrame. rewrite H1, H2, H3. cbn [toInt].
    fold crc. unfold toUint8Array. cbn [app map].
    rewrite (proj2 B1), (proj2 B2), (proj2 B3), (Z.mod_small crc 256 Hcrc).
    reflexivity. }
  split; [apply removeNonDigits_get|].
  split; [exact Hclean|].
  split; [exact H1|]. split; [exact H2|]. split; [exact H3|].
  split; [exact Hframe|].
  split.
  { rewrite Hframe. unfold bytes.
    repeat (apply Forall_cons; [first [tauto | unfold is_byte; lia]|]).
    apply Forall_nil. }
  split; [vm_compute; reflexivity|].
  split; [vm_compute; reflexivity|].
  intros p. split; [reflexivity|]. split; intros Hw.
  - unfold sendHandshake. rewrite Hw. reflexivity.
  - unfold sendHandshake. rewrite Hw. reflexivity.
Qed.

End HandshakeFacts.

(** ** Sample decoder *)

Lemma land_shiftl_low (hi lo n : Z) :
  0 <= n -> 0 <= lo < 2 ^ n -> Z.land (Z.shiftl hi n) lo = 0.
Proof.
  intros Hn Hlo. apply Z.bits_inj'. intros m Hm.
  rewrite Z.land_spec, Z.bits_0.
  destruct (Z.lt_ge_cases m n) as [Hlt|Hge].
  - rewrite Z.shiftl_spec_low by assumption. reflexivity.
  - destruct (Z.eq_dec lo 0) as [->|Hne].
    + rewrite Z.bits_0. apply andb_false_r.
    + rewrite (Z.bits_above_log2 lo m); [apply andb_false_r|lia|].
      apply Z.lt_le_trans with n; [|exact Hge].
      apply Z.log2_lt_pow2; lia.
Qed.

Lemma lor_shiftl_low (hi lo n : Z) :
  0 <= n -> 0 <= lo < 2 ^ n -> Z.lor (Z.shiftl hi n) lo = hi * 2 ^ n + lo.
Proof.
  intros Hn Hlo.
  rewrite <- Z.lxor_lor, <- Z.add_nocarry_lxor, Z.shiftl_mul_pow2;
    auto using land_shiftl_low.
Qed.

Lemma rawInt_value (b0 b1 b2 : Z) :
  is_byte b0 -> is_byte b1 -> is_byte b2 ->
  Z.lor (Z.lor (Z.shiftl b0 16) (Z.shiftl b1 8)) b2
    = b0 * 65536 + b1 * 256 + b2.
Proof.
  unfold is_byte. intros H0 H1 H2.
  replace (Z.shiftl b0 16) with (Z.shiftl (Z.shiftl b0 8) 8)
    by (rewrite Z.shiftl_shiftl by lia; reflexivity).
  rewrite <- Z.shiftl_lor.
  rewrite (lor_shiftl_low b0 b1 8) by lia.
  rewrite lor_shiftl_low by lia. lia.
Qed.

Lemma sign_bit_test (v : Z) :
  0 <= v < 16777216 -> (Z.land v 0x800000 =? 0) = (v <? 8388608).
Proof.
  intros Hv. destruct (Z.ltb_spec v 8388608) as [Hlt|Hge].
  - apply Z.eqb_eq. rewrite Z.land_comm.
    apply (land_shiftl_low 1 v 23); lia.
  - apply Z.eqb_neq.
    remember (v - 8388608) as r eqn:Hr.
    assert (E : v = Z.lor (Z.shiftl 1 23) r) by (rewrite lor_shiftl_low; lia).
    rewrite E. change 8388608 with (Z.shiftl 1 23).
    rewrite Z.land_lor_distr_l, Z.land_diag.
    rewrite (Z.land_comm r), (land_shiftl_low 1 r 23) by lia.
    discriminate.
Qed.

(** The source's bit operations compute the two's-complement value. *)
Lemma rawInt24_signed24 (b0 b1 b2 : Z) :
  is_byte b0 -> is_byte b1 -> is_byte b2 ->
  rawInt24 b0 b1 b2 = signed24 b0 b1 b2 /\
  -8388608 <= rawInt24 b0 b1 b2 < 8388608.
Proof.
  intros H0 H1 H2. unfold rawInt24, signed24.
  rewrite (rawInt_value b0 b1 b2 H0 H1 H2).
  unfold is_byte in *.
  rewrite sign_bit_test by lia.
  split; [reflexivity|].
  destruct (Z.ltb_spec (b0 * 65536 + b1 * 256 + b2) 8388608); lia.
Qed.

Lemma decodedSamples_short (payload : list Z) :
  (length payload < 3)%nat -> decodedSamples payload = [].
Proof.
  intros H. unfold decodedSamples.
  rewrite Nat.div_small by exact H. reflexivity.
Qed.

Lemma decodedSamples_group (b0 b1 b2 : Z) (rest : list Z) :
  decodedSamples (b0 :: b1 :: b2 :: rest) = uvValue b0 b1 b2 :: decodedSamples rest.
Proof.
  unfold decodedSamples.
  replace (length (b0 :: b1 :: b2 :: rest) / 3)%nat with (S (length rest / 3)).
  2:{ cbn [length]. replace (S (S (S (length rest)))) with (1 * 3 + length rest)%nat by lia.
      rewrite Nat.div_add_l by lia. reflexivity. }
  cbn [seq map]. f_equal.
  rewrite <- seq_shift, map_map. apply map_ext. intros i.
  unfold sampleAt.
  replace (3 * S i)%nat with (S (S (S (3 * i)))) by lia.
  replace (S (S (S (3 * i))) + 1)%nat with (S (S (S (3 * i + 1)))) by lia.
  replace (S (S (S (3 * i))) + 2)%nat with (S (S (S (3 * i + 2)))) by lia.
  reflexivity.
Qed.

Lemma decodedSamples_complete_groups (payload : list Z) :
  decodedSamples payload
    = decodedSamples (firstn (3 * (length payload / 3)) payload).
Proof.
  induction payload as [|x|x y|b0 b1 b2 rest IH] using list3_ind.
  - reflexivity.
  - reflexivity.
  - reflexivity.
  - replace (length (b0 :: b1 :: b2 :: rest) / 3)%nat with (S (length rest / 3)).
    2:{ cbn [length].
        replace (S (S (S (length rest)))) with (1 * 3 + length rest)%nat by lia.
        rewrite Nat.div_add_l by lia. reflexivity. }
    replace (3 * S (length rest / 3))%nat
      with (S (S (S (3 * (length rest / 3))))) by lia.
    cbn [firstn]. rewrite !decodedSamples_group, <- IH. reflexivity.
Qed.

Lemma sampleLoop_pushes (Date_now : nat -> Z) (payload : list Z) :
  forall this,
    rawSignalBuffer (sampleLoop Date_now payload this)
      = rawSignalBuffer this ++ decodedSamples payload.
Proof.
  induction payload as [|x|x y|b0 b1 b2 rest IH] using list3_ind; intros this.
  - cbn [sampleLoop]. rewrite decodedSamples_short by (cbn; lia).
    symmetry. apply app_nil_r.
  - cbn [sampleLoop]. rewrite decodedSamples_short by (cbn; lia).
    symmetry. apply app_nil_r.
  - cbn [sampleLoop]. rewrite decodedSamples_short by (cbn; lia).
    symmetry. apply app_nil_r.
  - cbn [sampleLoop]. rewrite IH, decodedSamples_group.
    change (rawSignalBuffer (pushSample Date_now b0 b1 b2 this))
      with (rawSignalBuffer this ++ [uvValue b0 b1 b2]).
    rewrite <- app_assoc. reflexivity.
Qed.

Lemma sampleLoop_binaryBuffer (Date_now : nat -> Z) (payload : list Z) :
  forall this,
    binaryBuffer (sampleLoop Date_now payload this) = binaryBuffer this.
Proof.
  induction payload as [|x|x y|b0 b1 b2 rest IH] using list3_ind; intros this;
    try reflexivity.
  cbn [sampleLoop]. rewrite IH. reflexivity.
Qed.

(** C5. The sample decoder reads each complete 3-byte group as the
    signed 24-bit big-endian value (the bit operations of the source give
    the two's-complement value, in [-2^23, 2^23)) and scales it by
    [(2.4 / 6 / 8388607) * 1000000]; a payload of length [L] yields exactly
    [L / 3] samples, the [i]-th from bytes [3i, 3i+1, 3i+2]; bytes after
    the last complete group are dropped and are not carried into the next
    payload; the byte accumulator is not touched.  The most positive and
    the most negative 24-bit values decode with the right sign. *)
Theorem sample_decoder_groups :
  forall (Date_now : nat -> Z) (bandPowers : list float -> FrequencyBands)
         (payload : list Z) (this : DeviceService),
    (forall b0 b1 b2, is_byte b0 -> is_byte b1 -> is_byte b2 ->
        rawInt24 b0 b1 b2 = signed24 b0 b1 b2 /\
        -8388608 <= rawInt24 b0 b1 b2 < 8388608 /\
        uvValue b0 b1 b2
          = (number_of_int (signed24 b0 b1 b2)
             * ((2.4 / 6 / 8388607) * 1000000))%float) /\
    length (decodedSamples payload) = (length payload / 3)%nat /\
    (forall i, (i < length payload / 3)%nat ->
        nth_error (decodedSamples payload) i
          = Some (uvValue (nth (3 * i) payload 0) (nth (3 * i + 1) payload 0)
                          (nth (3 * i + 2) payload 0))) /\
    decodedSamples payload
      = decodedSamples (firstn (3 * (length payload / 3)) payload) /\
    rawSignalBuffer (sampleLoop Date_now payload this)
      = rawSignalBuffer this ++ decodedSamples payload /\
    (forall next,
        rawSignalBuffer (sampleLoop Date_now next (sampleLoop Date_now payload this))
          = rawSignalBuffer this ++ decodedSamples payload ++ decodedSamples next) /\
    binaryBuffer (parseEEGPayload Date_now bandPowers payload this)
      = binaryBuffer this /\
    rawSignalBuffer (parseEEGPayload Date_now bandPowers payload this)
      = (let window := rawSignalBuffer this ++ decodedSamples payload in
         if (FFT_SIZE <=? length window)%nat && (1000 <? length window)%nat
         then lastN 500 window else window) /\
    (rawInt24 0x7F 0xFF 0xFF = 8388607 /\ rawInt24 0x80 0x00 0x00 = -8388608 /\
     uvValue 0x7F 0xFF 0xFF = 399999.99999999994%float /\
     uvValue 0x80 0x00 0x00 = (-400000.04768372147)%float).
Proof.
  intros Date_now bandPowers payload this.
  split.
  { intros b0 b1 b2 H0 H1 H2.
    destruct (rawInt24_signed24 b0 b1 b2 H0 H1 H2) as [E R].
    split; [exact E|]. split; [exact R|].
    unfold uvValue. rewrite E. reflexivity. }
  split.
  { unfold decodedSamples. rewrite length_map, length_seq. reflexivity. }
  split.
  { intros i Hi. unfold decodedSamples.
    rewrite nth_error_map.
    rewrite (nth_error_nth' (seq 0 (length payload / 3)) O)
      by (rewrite length_seq; exact Hi).
    rewrite seq_nth by exact Hi. reflexivity. }
  split; [apply decodedSamples_complete_groups|].
  split; [apply sampleLoop_pushes|].
  split.
  { intros next. rewrite !sampleLoop_pushes, app_assoc. reflexivity. }
  split.
  { unfold parseEEGPayload.
    destruct (FFT_SIZE <=? _)%nat; [|apply sampleLoop_binaryBuffer].
    destruct (1000 <? _)%nat; apply sampleLoop_binaryBuffer. }
  split; [|repeat split; vm_compute; reflexivity].
  unfold parseEEGPayload. cbv zeta.
  change (rawSignalBuffer (analyzeSignal bandPowers
            (lastN FFT_SIZE (rawSignalBuffer (sampleLoop Date_now payload this)))
            (sampleLoop Date_now payload this)))
    with (rawSignalBuffer (sampleLoop Date_now payload this)).
  rewrite <- (sampleLoop_pushes Date_now payload this).
  destruct (FFT_SIZE <=? _)%nat; [|reflexivity].
  destruct (1000 <? _)%nat; reflexivity.
Qed.

Lemma sample_decoder_groups_witness :
  rawInt24 0xFF 0xFF 0xFE = signed24 0xFF 0xFF 0xFE /\
  -8388608 <= rawInt24 0xFF 0xFF 0xFE < 8388608 /\
  uvValue 0xFF 0xFF 0xFE
    = (number_of_int (signed24 0xFF 0xFF 0xFE)
       * ((2.4 / 6 / 8388607) * 1000000))%float.
Proof.
  refine (proj1 (sample_decoder_groups (fun _ => 0) (fun _ => bands emptyData)
                   [] newDeviceService) 0xFF 0xFF 0xFE _ _ _);
    unfold is_byte; lia.
Defined.

(** ** Metrics: the meditation flag *)

(** C7. Whenever metrics are computed (by the analysis of a window or by
    a simulation tick), [isMeditating] is the strict comparison of the
    freshly computed relaxation with the threshold 0.85: the metrics of
    an analysis depend on the band powers alone, not on the previous
    snapshot, and a relaxation equal to the threshold gives [false]. *)
Theorem meditation_flag_is_strict_threshold_test :
  MEDITATION_THRESHOLD = 0.85%float /\
  (forall b : FrequencyBands,
      isMeditating (deriveMetrics b)
        = (MEDITATION_THRESHOLD <? relaxation (deriveMetrics b))%float) /\
  (forall (bandPowers : list float -> FrequencyBands) (data : list float)
          (this : DeviceService),
      metrics (latestData (analyzeSignal bandPowers data this))
        = deriveMetrics (bandPowers data)) /\
  (forall (Date_now : nat -> Z) (Math_random : nat -> float)
          (Math_sin : float -> float) (this : DeviceService),
      let m := metrics (latestData
                 (updateSimulation Date_now Math_random Math_sin this)) in
      isMeditating m = (MEDITATION_THRESHOLD <? relaxation m)%float) /\
  (forall r : float,
      r = MEDITATION_THRESHOLD -> (MEDITATION_THRESHOLD <? r)%float = false) /\
  (MEDITATION_THRESHOLD <? next_up MEDITATION_THRESHOLD)%float = true.
Proof.
  split; [reflexivity|].
  split; [reflexivity|].
  split; [reflexivity|].
  split; [reflexivity|].
  split.
  - intros r ->. reflexivity.
  - reflexivity.
Qed.

Lemma meditation_flag_is_strict_threshold_test_witness :
  (MEDITATION_THRESHOLD <? 0.85)%float = false.
Proof.
  refine (proj1 (proj2 (proj2 (proj2 (proj2
            meditation_flag_is_strict_threshold_test)))) 0.85%float _).
  reflexivity.
Defined.

(** ** Simulation without motion *)

Module SimulationFacts.

#[local] Open Scope float_scope.

(** The smoothing reaches a fixed point of the binary64 arithmetic after
    214 ticks. *)
Lemma relaxAfter_fixed : relaxStep (relaxAfter 214) = relaxAfter 214.
Proof. vm_compute. reflexivity. Qed.

Lemma relaxAfter_stable (n : nat) :
  (214 <= n)%nat -> relaxAfter n = relaxAfter 214.
Proof.
  induction 1 as [|n Hn IH]; [reflexivity|].
  change (relaxAfter (S n)) with (relaxStep (relaxAfter n)).
  rewrite IH. apply relaxAfter_fixed.
Qed.

Lemma relaxAfter_table :
  forallb (fun n => (relaxAfter n <=? relaxAfter (S n))
                    && ((relaxAfter n <=? relaxAfter n) && (relaxAfter n <=? 1))
                    && (if (n <? 8)%nat
                        then negb (MEDITATION_THRESHOLD <? relaxAfter n)
                        else MEDITATION_THRESHOLD <? relaxAfter n))
          (seq 0 215) = true.
Proof. vm_compute. reflexivity. Qed.

Lemma relaxAfter_facts (n : nat) :
  (relaxAfter n <=? relaxAfter (S n)) = true /\
  ((relaxAfter n <=? relaxAfter n) = true /\ (relaxAfter n <=? 1) = true) /\
  (MEDITATION_THRESHOLD <? relaxAfter n) = negb (n <? 8)%nat.
Proof.
  assert (Hlow : forall k, (k <= 214)%nat ->
             (relaxAfter k <=? relaxAfter (S k)) = true /\
             ((relaxAfter k <=? relaxAfter k) = true /\
              (relaxAfter k <=? 1) = true) /\
             (MEDITATION_THRESHOLD <? relaxAfter k) = negb (k <? 8)%nat).
  { intros k Hk. pose proof relaxAfter_table as T.
    rewrite forallb_forall in T.
    specialize (T k). rewrite in_seq in T. specialize (T ltac:(lia)).
    apply andb_prop in T. destruct T as [T T3].
    apply andb_prop in T. destruct T as [T1 T2].
    apply andb_prop in T2.
    split; [exact T1|]. split; [exact T2|].
    destruct (k <? 8)%nat; cbn [negb].
    - apply negb_true_iff in T3. exact T3.
    - exact T3. }
  destruct (Nat.le_gt_cases n 214) as [Hn|Hn]; [apply Hlow, Hn|].
  rewrite (relaxAfter_stable n) by lia.
  rewrite (relaxAfter_stable (S n)) by lia.
  destruct (Hlow 214%nat (Nat.le_refl _)) as (_ & H2 & H3).
  split; [vm_compute; reflexivity|].
  split; [exact H2|].
  rewrite H3. destruct (Nat.ltb_spec n 8); [lia|reflexivity].
Qed.

Section Run.

Variable Date_now : nat -> Z.
Variable Math_random : nat -> float.
Variable Math_sin : float -> float.

Lemma updateSimulation_calm (this : DeviceService) :
  calm this ->
  calm (updateSimulation Date_now Math_random Math_sin this) /\
  relaxation (metrics (latestData
     (updateSimulation Date_now Math_random Math_sin this)))
    = relaxStep (relaxation (metrics (latestData this))).
Proof.
  intros (Hag & Hlast & _).
  unfold calm, updateSimulation. cbv zeta. rewrite Hag.
  split; [split; [reflexivity|split; [exact Hlast|reflexivity]]|reflexivity].
Qed.

Lemma handleMotion_calm (this : DeviceService) :
  calm this ->
  calm (handleMotion 0 0 0 this) /\
  latestData (handleMotion 0 0 0 this) = latestData this.
Proof.
  intros (Hag & Hlast & Hflag).
  unfold calm, handleMotion.
  destruct Hlast as [-> | ->].
  - split; [split; [exact Hag|split; [right; reflexivity|exact Hflag]]|reflexivity].
  - split; [split; [exact Hag|split; [right; reflexivity|exact Hflag]]|reflexivity].
Qed.

Lemma simRun_calm (events : list simEvent) :
  forall this,
    Forall zeroMotion events -> calm this ->
    calm (simRun Date_now Math_random Math_sin events this) /\
    relaxation (metrics (latestData
       (simRun Date_now Math_random Math_sin events this)))
      = Nat.iter (ticks events) relaxStep (relaxation (metrics (latestData this))).
Proof.
  induction events as [|e events IH]; intros this Hev Hcalm.
  - split; [exact Hcalm|reflexivity].
  - inversion Hev as [|e' events' He Hrest]; subst.
    change (simRun Date_now Math_random Math_sin (e :: events) this)
      with (simRun Date_now Math_random Math_sin events
                   (simStep Date_now Math_random Math_sin this e)).
    destruct He as [-> | ->]; cbn [simStep].
    + destruct (updateSimulation_calm this Hcalm) as [Hc Hr].
      destruct (IH _ Hrest Hc) as [Hc' Hr'].
      split; [exact Hc'|].
      rewrite Hr', Hr.
      change (ticks (Tick :: events)) with (S (ticks events)).
      rewrite Nat.iter_succ_r. reflexivity.
    + destruct (handleMotion_calm this Hcalm) as [Hc Hd].
      destruct (IH _ Hrest Hc) as [Hc' Hr'].
      split; [exact Hc'|].
      rewrite Hr', Hd. reflexivity.
Qed.

End Run.

(** C9. The simulation started on a fresh service (empty snapshot, no
    acceleration seen yet) and fed only timer ticks and motion events that
    read zero: the agitation stays 0, the relaxation after a run is the
    smoothing [prev * 0.85 + 1 * 0.15] iterated once per tick from the
    initial value (0.5 in place of the falsy 0); one more event never
    lowers it; it never exceeds 1; from the eighth tick on it strictly
    exceeds the threshold 0.85 and [isMeditating] is true (and it is false
    before); from tick 214 on it stays within [2^-51] of 1. *)
Theorem simulation_relaxes_without_motion :
  forall (Date_now : nat -> Z) (Math_random : nat -> float)
         (Math_sin : float -> float) (this : DeviceService)
         (events : list simEvent),
    latestData this = emptyData -> lastAcceleration this = None ->
    Forall zeroMotion events ->
    let run evs :=
      simRun Date_now Math_random Math_sin evs (startSimulation this) in
    let relax evs := relaxation (metrics (latestData (run evs))) in
    agitationLevel (run events) = 0 /\
    relax events = relaxAfter (ticks events) /\
    relaxAfter (S (ticks events)) = relaxStep (relaxAfter (ticks events)) /\
    (forall e, zeroMotion e -> (relax events <=? relax (events ++ [e])) = true) /\
    (relax events <=? 1) = true /\
    (MEDITATION_THRESHOLD <? relax events) = negb (ticks events <? 8)%nat /\
    isMeditating (metrics (latestData (run events)))
      = negb (ticks events <? 8)%nat /\
    ((214 <= ticks events)%nat -> (1 - relax events <=? 0x1p-51) = true).
Proof.
  intros Date_now Math_random Math_sin this events Hdata Hlast Hev run relax.
  assert (Hcalm : calm (startSimulation this)).
  { unfold calm, startSimulation.
    change (latestData (set_agitationLevel 0 (set_isSimulating true this)))
      with (latestData this).
    change (lastAcceleration (set_agitationLevel 0 (set_isSimulating true this)))
      with (lastAcceleration this).
    rewrite Hdata, Hlast.
    split; [reflexivity|]. split; [left; reflexivity|reflexivity]. }
  assert (Hrun : forall evs, Forall zeroMotion evs ->
             calm (run evs) /\ relax evs = relaxAfter (ticks evs)).
  { intros evs Hevs.
    destruct (simRun_calm Date_now Math_random Math_sin evs _ Hevs Hcalm)
      as [Hc Hr].
    split; [exact Hc|].
    subst relax run. cbv beta. rewrite Hr.
    change (latestData (startSimulation this)) with (latestData this).
    rewrite Hdata. reflexivity. }
  destruct (Hrun events Hev) as [(Hag & _ & Hflag) Hrelax].
  destruct (relaxAfter_facts (ticks events)) as (Hmono & (Hrefl & Hle) & Hthr).
  split; [exact Hag|].
  split; [exact Hrelax|].
  split; [reflexivity|].
  split.
  { intros e He.
    assert (Hev' : Forall zeroMotion (events ++ [e])).
    { apply Forall_app. split; [exact Hev|]. apply Forall_cons; [exact He|apply Forall_nil]. }
    destruct (Hrun _ Hev') as [_ Hrelax'].
    rewrite Hrelax, Hrelax'.
    unfold ticks. rewrite filter_app, length_app.
    destruct He as [-> | ->]; cbn [filter length].
    - rewrite Nat.add_1_r. exact Hmono.
    - rewrite Nat.add_0_r. exact Hrefl. }
  split; [rewrite Hrelax; exact Hle|].
  split; [rewrite Hrelax; exact Hthr|].
  split; [rewrite Hflag; fold (relax events); rewrite Hrelax; exact Hthr|].
  intros HK. rewrite Hrelax, (relaxAfter_stable _ HK).
  vm_compute. reflexivity.
Qed.

Lemma simulation_relaxes_without_motion_witness :
  relaxation (metrics (latestData
    (simRun (fun _ => 0%Z) (fun _ => 0.5) (fun x => x)
            [Tick; Motion 0 0 0; Tick; Tick; Tick; Tick; Tick; Tick; Tick]
            (startSimulation newDeviceService))))
    = relaxAfter 8 /\
  isMeditating (metrics (latestData
    (simRun (fun _ => 0%Z) (fun _ => 0.5) (fun x => x)
            [Tick; Motion 0 0 0; Tick; Tick; Tick; Tick; Tick; Tick; Tick]
            (startSimulation newDeviceService)))) = true.
Proof.
  pose proof (simulation_relaxes_without_motion
                (fun _ => 0%Z) (fun _ => 0.5) (fun x => x) newDeviceService
                [Tick; Motion 0 0 0; Tick; Tick; Tick; Tick; Tick; Tick; Tick]
                eq_refl eq_refl) as H.
  refine ((fun H' => conj (proj1 (proj2 H')) (proj1 (proj2 (proj2 (proj2
            (proj2 (proj2 (proj2 H')))))))) (H _)).
  repeat (apply Forall_cons; [first [left; reflexivity | right; reflexivity]|]).
  apply Forall_nil.
Defined.

End SimulationFacts.

(** ** Binary64 arithmetic: signs and NaN *)

Section SpecFloatFacts.

Variables prec emax : Z.
Hypothesis prec_pos : 0 < prec.

Lemma shr_1_m (mrs : shr_record) :
  0 <= shr_m mrs -> shr_m (shr_1 mrs) = Z.div2 (shr_m mrs).
Proof.
  destruct mrs as [m r s]. cbn [shr_m]. intros Hm.
  destruct m as [|p|p]; [reflexivity| |lia].
  destruct p; reflexivity.
Qed.

Lemma iter_shr_1_m (p : positive) :
  forall mrs, 0 <= shr_m mrs ->
  shr_m (iter_pos shr_1 p mrs) = Z.shiftr (shr_m mrs) (Zpos p).
Proof.
  induction p as [p IH|p IH|]; intros mrs Hm; cbn [iter_pos].
  - assert (H1 : 0 <= shr_m (shr_1 mrs)).
    { rewrite shr_1_m by exact Hm. rewrite Z.div2_div. apply Z.div_pos; lia. }
    assert (H2 : 0 <= shr_m (iter_pos shr_1 p (shr_1 mrs))).
    { rewrite IH by exact H1. apply Z.shiftr_nonneg. exact H1. }
    rewrite IH by exact H2. rewrite IH by exact H1.
    rewrite shr_1_m by exact Hm.
    rewrite Z.div2_spec, !Z.shiftr_shiftr by lia.
    f_equal. lia.
  - assert (H2 : 0 <= shr_m (iter_pos shr_1 p mrs)).
    { rewrite IH by exact Hm. apply Z.shiftr_nonneg. exact Hm. }
    rewrite IH by exact H2. rewrite IH by exact Hm.
    rewrite Z.shiftr_shiftr by lia. f_equal. lia.
  - rewrite shr_1_m by exact Hm. apply Z.div2_spec.
Qed.

Lemma shr_m_nonneg (mrs : shr_record) (e n : Z) :
  0 <= shr_m mrs -> 0 <= shr_m (fst (shr mrs e n)).
Proof.
  intros Hm. destruct n as [|p|p]; cbn [shr fst]; try exact Hm.
  rewrite iter_shr_1_m by exact Hm. apply Z.shiftr_nonneg. exact Hm.
Qed.

Lemma shr_m_pos (mrs : shr_record) (e n : Z) :
  0 < shr_m mrs -> (0 < n -> 2 ^ n <= shr_m mrs) ->
  0 < shr_m (fst (shr mrs e n)) /\ e <= snd (shr mrs e n).
Proof.
  intros Hm Hn. destruct n as [|p|p]; cbn [shr fst snd]; try (split; [exact Hm|lia]).
  rewrite iter_shr_1_m by lia. rewrite Z.shiftr_div_pow2 by lia.
  split; [|lia].
  specialize (Hn ltac:(lia)).
  apply Z.div_str_pos. split; [apply Z.pow_pos_nonneg; lia|exact Hn].
Qed.

Lemma shr_record_of_loc_m (m : Z) (l : location) :
  shr_m (shr_record_of_loc m l) = m.
Proof. destruct l as [|[]]; reflexivity. Qed.

Lemma digits2_lower (p : positive) :
  2 ^ (Zpos (digits2_pos p) - 1) <= Zpos p.
Proof.
  induction p as [p IH|p IH|]; cbn [digits2_pos].
  - rewrite Pos2Z.inj_succ.
    replace (Z.succ (Zpos (digits2_pos p)) - 1) with (Z.succ (Zpos (digits2_pos p) - 1)) by lia.
    rewrite Z.pow_succ_r by lia. lia.
  - rewrite Pos2Z.inj_succ.
    replace (Z.succ (Zpos (digits2_pos p)) - 1) with (Z.succ (Zpos (digits2_pos p) - 1)) by lia.
    rewrite Z.pow_succ_r by lia. lia.
  - reflexivity.
Qed.

Lemma shr_fexp_nonneg (m e : Z) (l : location) :
  0 <= m -> 0 <= shr_m (fst (shr_fexp prec emax m e l)).
Proof.
  intros Hm. unfold shr_fexp. apply shr_m_nonneg.
  rewrite shr_record_of_loc_m. exact Hm.
Qed.

Lemma shr_fexp_pos (m e : Z) (l : location) :
  0 < m -> SpecFloat.emin prec emax <= e ->
  0 < shr_m (fst (shr_fexp prec emax m e l)) /\
  SpecFloat.emin prec emax <= snd (shr_fexp prec emax m e l).
Proof.
  intros Hm He. unfold shr_fexp.
  destruct (shr_m_pos (shr_record_of_loc m l) e
              (fexp prec emax (Zdigits2 m + e) - e)) as [H1 H2].
  - rewrite shr_record_of_loc_m. exact Hm.
  - rewrite shr_record_of_loc_m. intros Hn.
    destruct m as [|p|p]; try lia. cbn [Zdigits2] in *.
    unfold fexp in *.
    apply Z.le_trans with (2 ^ (Zpos (digits2_pos p) - 1)); [|apply digits2_lower].
    apply Z.pow_le_mono_r; lia.
  - split; [exact H1|lia].
Qed.

Lemma round_nearest_even_ge (m : Z) (l : location) :
  m <= round_nearest_even m l.
Proof.
  destruct l as [|[]]; cbn [round_nearest_even]; try lia.
  destruct (Z.even m); lia.
Qed.

(** Rounding a non-negative mantissa never yields NaN and keeps the sign. *)
Lemma binary_round_aux_signed (s : bool) (m e : Z) (l : location) :
  0 <= m -> signedSF s (binary_round_aux prec emax s m e l).
Proof.
  intros Hm. unfold binary_round_aux.
  pose proof (shr_fexp_nonneg m e l Hm) as H1.
  destruct (shr_fexp prec emax m e l) as [mrs' e'] eqn:E1. cbn [fst] in H1.
  pose proof (round_nearest_even_ge (shr_m mrs') (loc_of_shr_record mrs')) as Hr.
  pose proof (shr_fexp_nonneg (round_nearest_even (shr_m mrs') (loc_of_shr_record mrs'))
                e' loc_Exact ltac:(lia)) as H2.
  destruct (shr_fexp prec emax _ e' loc_Exact) as [mrs'' e''] eqn:E2. cbn [fst] in H2.
  destruct (shr_m mrs'') as [|p|p]; [exact I| |lia].
  destruct (e'' <=? emax - prec); reflexivity.
Qed.

(** Rounding a positive mantissa at an exponent not below [emin] never
    yields zero either. *)
Lemma binary_round_aux_nonzero (s : bool) (m e : Z) (l : location) :
  0 < m -> SpecFloat.emin prec emax <= e ->
  nonzeroSF s (binary_round_aux prec emax s m e l).
Proof.
  intros Hm He. unfold binary_round_aux.
  pose proof (shr_fexp_pos m e l Hm He) as [H1 H1'].
  destruct (shr_fexp prec emax m e l) as [mrs' e'] eqn:E1. cbn [fst snd] in H1, H1'.
  pose proof (round_nearest_even_ge (shr_m mrs') (loc_of_shr_record mrs')) as Hr.
  pose proof (shr_fexp_pos (round_nearest_even (shr_m mrs') (loc_of_shr_record mrs'))
                e' loc_Exact ltac:(lia) H1') as [H2 _].
  destruct (shr_fexp prec emax _ e' loc_Exact) as [mrs'' e''] eqn:E2. cbn [fst] in H2.
  destruct (shr_m mrs'') as [|p|p]; [lia| |lia].
  destruct (e'' <=? emax - prec); reflexivity.
Qed.

Lemma binary_round_nonzero (s : bool) (m : positive) (e : Z) :
  SpecFloat.emin prec emax <= e -> nonzeroSF s (binary_round prec emax s m e).
Proof.
  intros He. unfold binary_round.
  destruct (shl_align m e (fexp prec emax (Zpos (digits2_pos m) + e)))
    as [mz ez] eqn:E.
  apply binary_round_aux_nonzero; [lia|].
  unfold shl_align in E.
  destruct (fexp prec emax (Zpos (digits2_pos m) + e) - e) as [|d|d] eqn:Ed;
    injection E as <- <-; try exact He.
  unfold fexp. lia.
Qed.

Lemma valid_exponent (s : bool) (m : positive) (e : Z) :
  SpecFloat.valid_binary prec emax (S754_finite s m e) = true -> SpecFloat.emin prec emax <= e.
Proof.
  cbn [SpecFloat.valid_binary]. unfold bounded, canonical_mantissa, fexp, SpecFloat.emin.
  intros H. apply andb_prop in H. destruct H as [H _].
  apply Z.eqb_eq in H. lia.
Qed.

(** Sum of two finite non-negative numbers. *)
Lemma SFadd_finite_signed (x y : spec_float) :
  finiteSF false x -> finiteSF false y ->
  signedSF false (SFadd prec emax x y).
Proof.
  destruct x as [sx|sx| |sx mx ex], y as [sy|sy| |sy my ey];
    cbn [finiteSF]; intros Hx Hy; try contradiction; subst.
  - cbn [SFadd]. destruct sx, sy; exact I.
  - exact eq_refl.
  - exact eq_refl.
  - cbn [SFadd cond_Zopp Z.add binary_normalize].
    unfold binary_round.
    destruct (shl_align _ _ _) as [mz ez].
    apply binary_round_aux_signed. lia.
Qed.

(** A non-negative number plus a positive one is positive. *)
Lemma SFadd_nonzero (x y : spec_float) :
  signedSF false x -> nonzeroSF false y ->
  SpecFloat.valid_binary prec emax x = true ->
  SpecFloat.valid_binary prec emax y = true ->
  nonzeroSF false (SFadd prec emax x y).
Proof.
  destruct x as [sx|sx| |sx mx ex], y as [sy|sy| |sy my ey];
    cbn [signedSF nonzeroSF]; intros Hx Hy Vx Vy; try contradiction; subst;
    try exact eq_refl.
  cbn [SFadd cond_Zopp Z.add binary_normalize].
  apply binary_round_nonzero.
  apply valid_exponent in Vx, Vy. lia.
Qed.

(** A finite non-negative number divided by a positive one. *)
Lemma SFdiv_signed (x y : spec_float) :
  finiteSF false x -> nonzeroSF false y ->
  signedSF false (SFdiv prec emax x y).
Proof.
  destruct x as [sx|sx| |sx mx ex], y as [sy|sy| |sy my ey];
    cbn [finiteSF nonzeroSF]; intros Hx Hy; try contradiction; subst;
    try exact I.
  cbn [SFdiv]. unfold SFdiv_core_binary.
  set (m' := match _ with Z0 => Zpos mx | Zpos _ => _ | Zneg _ => 0 end).
  assert (Hm : 0 <= m').
  { subst m'. destruct (ex - ey - _) as [|p|p]; try lia.
    apply Z.shiftl_nonneg. lia. }
  pose proof (Z.div_pos m' (Zpos my) Hm ltac:(lia)) as Hq.
  unfold Z.div in Hq.
  destruct (Z.div_eucl m' (Zpos my)) as [q r].
  apply binary_round_aux_signed. exact Hq.
Qed.

(** A non-negative number times a positive finite one. *)
Lemma SFmul_signed (x : spec_float) (my : positive) (ey : Z) :
  signedSF false x ->
  signedSF false (SFmul prec emax x (S754_finite false my ey)).
Proof.
  destruct x as [sx|sx| |sx mx ex]; cbn [signedSF]; intros Hx;
    try contradiction; subst.
  - exact I.
  - exact eq_refl.
  - cbn [SFmul xorb]. apply binary_round_aux_signed. lia.
Qed.

End SpecFloatFacts.

(** ** Metric derivation: the clamp *)

Module MetricFacts.

#[local] Open Scope float_scope.

Lemma Prim2SF_zero : Prim2SF 0 = S754_zero false.
Proof. vm_compute. reflexivity. Qed.

Lemma Prim2SF_infinity : Prim2SF infinity = S754_infinity false.
Proof. vm_compute. reflexivity. Qed.

Lemma SFcompare_refl_signed (x : spec_float) :
  signedSF false x -> SFcompare x x = Some Eq.
Proof.
  destruct x as [s|s| |s m e]; cbn [signedSF]; intros H;
    try contradiction; subst; try reflexivity.
  cbn [SFcompare]. rewrite Z.compare_refl, Pos.compare_cont_refl. reflexivity.
Qed.

Lemma is_nan_signed (y : float) :
  signedSF false (Prim2SF y) -> is_nan y = false.
Proof.
  intros H. unfold is_nan. rewrite eqb_spec. unfold SFeqb.
  rewrite (SFcompare_refl_signed _ H). reflexivity.
Qed.

Lemma ltb_leb (a b : float) : (a <? b) = true -> (a <=? b) = true.
Proof.
  rewrite ltb_spec, leb_spec. unfold SFltb, SFleb.
  destruct (SFcompare (Prim2SF a) (Prim2SF b)) as [[]|]; congruence.
Qed.

Lemma bandPower_finite (x : float) :
  bandPower x -> finiteSF false (Prim2SF x).
Proof.
  intros [H0 Hinf]. rewrite leb_spec, Prim2SF_zero in H0.
  rewrite ltb_spec, Prim2SF_infinity in Hinf.
  destruct (Prim2SF x) as [s|s| |s m e]; cbn [finiteSF].
  - exact I.
  - destruct s; discriminate.
  - discriminate.
  - destruct s; [discriminate|reflexivity].
Qed.

Lemma zero_ltb_nonzero (d : float) :
  nonzeroSF false (Prim2SF d) -> (0 <? d) = true.
Proof.
  intros H. rewrite ltb_spec, Prim2SF_zero.
  destruct (Prim2SF d) as [s|s| |s m e]; cbn [nonzeroSF] in H;
    try contradiction; subst; reflexivity.
Qed.

Lemma zero_ltb_signed (y : float) :
  signedSF false (Prim2SF y) ->
  (0 <? y) = true \/ ((0 <? y) = false /\ (y <? 0) = false).
Proof.
  intros H. rewrite !ltb_spec, Prim2SF_zero.
  destruct (Prim2SF y) as [s|s| |s m e]; cbn [signedSF] in H;
    try contradiction; subst; auto.
Qed.

(** [Math.min(1, Math.max(0, y))] for a non-negative [y] that is not NaN. *)
Lemma clamp_unit (y : float) :
  signedSF false (Prim2SF y) ->
  let r := Math_min 1 (Math_max 0 y) in
  (0 <=? r) = true /\ (r <=? 1) = true /\ is_nan r = false.
Proof.
  intros Hy r.
  assert (Hnan : is_nan y = false) by (apply is_nan_signed, Hy).
  assert (Hmax : (Math_max 0 y = y /\ (0 <? y) = true) \/ Math_max 0 y = 0).
  { unfold Math_max. rewrite Hnan.
    change (is_nan 0 || false) with false. cbv iota.
    destruct (zero_ltb_signed y Hy) as [H|[H1 H2]].
    - rewrite H. left. split; reflexivity.
    - rewrite H1, H2. right. reflexivity. }
  destruct Hmax as [[Hmax Hpos]|Hmax]; subst r; rewrite Hmax.
  - unfold Math_min. rewrite Hnan.
    change (is_nan 1 || false) with false. cbv iota.
    destruct (1 <? y) eqn:H1.
    + repeat split; vm_compute; reflexivity.
    + destruct (y <? 1) eqn:H2.
      * split; [apply ltb_leb, Hpos|]. split; [apply ltb_leb, H2|exact Hnan].
      * change (classify 1) with PNormal. cbv iota.
        repeat split; vm_compute; reflexivity.
  - repeat split; vm_compute; reflexivity.
Qed.

Lemma prec_positive : (0 < prec)%Z.
Proof. reflexivity. Qed.

(** The scaled ratio [x / (y + t + eps) * 0.8] of band powers: the
    divisor is positive and the result is a non-negative number or
    [+infinity], never NaN. *)
Lemma scaled_ratio_signed (x y t : float) :
  bandPower x -> bandPower y -> bandPower t ->
  nonzeroSF false (Prim2SF (y + t + eps)) /\
  signedSF false (Prim2SF (x / (y + t + eps) * 0.8)).
Proof.
  intros Hx Hy Ht.
  apply bandPower_finite in Hx, Hy, Ht.
  assert (Hsum : signedSF false (Prim2SF (y + t))).
  { rewrite add_spec. apply SFadd_finite_signed; assumption. }
  assert (Heps : Prim2SF eps = S754_finite false 4611686018427388 (-62))
    by (vm_compute; reflexivity).
  assert (Hdiv : nonzeroSF false (Prim2SF (y + t + eps))).
  { rewrite add_spec. apply SFadd_nonzero.
    - exact prec_positive.
    - exact Hsum.
    - rewrite Heps. exact eq_refl.
    - apply Prim2SF_valid.
    - apply Prim2SF_valid. }
  split; [exact Hdiv|].
  assert (Hquot : signedSF false (Prim2SF (x / (y + t + eps)))).
  { rewrite div_spec. apply SFdiv_signed; assumption. }
  rewrite mul_spec.
  replace (Prim2SF 0.8) with (S754_finite false 7205759403792794 (-53))
    by (vm_compute; reflexivity).
  apply SFmul_signed. exact Hquot.
Qed.

(** C6. For band powers alpha, beta and theta that are non-negative
    (finite) numbers, the all-zero case included, both divisors
    [beta + theta + 0.001] and [alpha + theta + 0.001] are strictly
    positive, so no division by zero takes place; relaxation and attention
    are the ratios scaled by 0.8 and clamped, they lie within [0, 1] and
    are not NaN; these are the metrics an analysis with such band powers
    publishes. *)
Theorem metrics_within_unit_interval :
  forall b : FrequencyBands,
    bandPower (alpha b) -> bandPower (beta b) -> bandPower (theta b) ->
    let m := deriveMetrics b in
    eps = 0.001 /\
    relaxation m
      = Math_min 1 (Math_max 0 (alpha b / (beta b + theta b + eps) * 0.8)) /\
    attention m
      = Math_min 1 (Math_max 0 (beta b / (alpha b + theta b + eps) * 0.8)) /\
    (0 <? beta b + theta b + eps) = true /\
    (0 <? alpha b + theta b + eps) = true /\
    ((0 <=? relaxation m) = true /\ (relaxation m <=? 1) = true /\
     is_nan (relaxation m) = false) /\
    ((0 <=? attention m) = true /\ (attention m <=? 1) = true /\
     is_nan (attention m) = false) /\
    (forall (bandPowers : list float -> FrequencyBands) (data : list float)
            (this : DeviceService),
        bandPowers data = b ->
        metrics (latestData (analyzeSignal bandPowers data this)) = m).
Proof.
  intros b Ha Hb Ht m.
  destruct (scaled_ratio_signed (alpha b) (beta b) (theta b) Ha Hb Ht) as [D1 R1].
  destruct (scaled_ratio_signed (beta b) (alpha b) (theta b) Hb Ha Ht) as [D2 R2].
  split; [reflexivity|].
  split; [reflexivity|].
  split; [reflexivity|].
  split; [apply zero_ltb_nonzero, D1|].
  split; [apply zero_ltb_nonzero, D2|].
  split; [exact (clamp_unit _ R1)|].
  split; [exact (clamp_unit _ R2)|].
  intros bandPowers data this <-. reflexivity.
Qed.

(** Finiteness matters: were alpha and beta both [+infinity], the ratio
    would be NaN and the clamp would pass it on. *)
Remark infinite_band_powers_give_nan :
  is_nan (relaxation (deriveMetrics
    {| delta := 0; theta := 0; alpha := infinity; beta := infinity;
       gamma := 0 |})) = true.
Proof. vm_compute. reflexivity. Qed.

Lemma metrics_within_unit_interval_witness :
  let m := deriveMetrics (bands emptyData) in
  (0 <? 0 + 0 + eps) = true /\
  ((0 <=? relaxation m) = true /\ (relaxation m <=? 1) = true /\
   is_nan (relaxation m) = false) /\
  ((0 <=? attention m) = true /\ (attention m <=? 1) = true /\
   is_nan (attention m) = false).
Proof.
  pose proof (metrics_within_unit_interval (bands emptyData)
                (conj eq_refl eq_refl) (conj eq_refl eq_refl)
                (conj eq_refl eq_refl)) as H.
  exact (conj (proj1 (proj2 (proj2 (proj2 H))))
              (conj (proj1 (proj2 (proj2 (proj2 (proj2 (proj2 H))))))
                    (proj1 (proj2 (proj2 (proj2 (proj2 (proj2 (proj2 H))))))))).
Defined.

End MetricFacts.

(** ** Checksum engine: algebra *)

Module CrcAlgebra.

#[local] Opaque crc8_byte mix8 parity8.

Lemma mix8_zero : mix8 0 = 0.
Proof. vm_compute. reflexivity. Qed.

Lemma mix8_range (x : Z) : is_byte x -> is_byte (mix8 x).
Proof. apply (byte_valued mix8). vm_compute. reflexivity. Qed.

Lemma mix8_xor (x y : Z) :
  is_byte x -> is_byte y -> mix8 (Z.lxor x y) = Z.lxor (mix8 x) (mix8 y).
Proof.
  apply (equal_on_bytes2 (fun a b => mix8 (Z.lxor a b))
                         (fun a b => Z.lxor (mix8 a) (mix8 b))).
  vm_compute. reflexivity.
Qed.

Lemma parity8_crc8_byte (c b : Z) :
  is_byte c -> is_byte b ->
  parity8 (crc8_byte c b) = xorb (parity8 c) (parity8 b).
Proof.
  intros Hc Hb. apply Bool.eqb_prop.
  apply (forall_byte2 (fun c b => Bool.eqb (parity8 (crc8_byte c b))
                                          (xorb (parity8 c) (parity8 b))));
    [vm_compute; reflexivity|exact Hc|exact Hb].
Qed.

Lemma fold_crc8_xor (a : list Z) :
  forall b c d, bytes a -> bytes b -> is_byte c -> is_byte d ->
    length a = length b ->
    fold_left crc8_byte (xorBytes a b) (Z.lxor c d) =
      Z.lxor (fold_left crc8_byte a c) (fold_left crc8_byte b d).
Proof.
  induction a as [|x a IH]; intros [|y b] c d Ha Hb Hc Hd Hlen;
    try discriminate Hlen.
  - reflexivity.
  - inversion Ha as [|? ? Hx Ha']; subst. inversion Hb as [|? ? Hy Hb']; subst.
    cbn [xorBytes]. rewrite !fold_left_step.
    rewrite (crc8_byte_xor_first c x Hc Hx), (crc8_byte_xor_first d y Hd Hy).
    rewrite <- (IH b (mix8 (Z.lxor c x)) (mix8 (Z.lxor d y)) Ha' Hb'
                   (mix8_range _ (lxor_byte _ _ Hc Hx))
                   (mix8_range _ (lxor_byte _ _ Hd Hy))
                   (eq_add_S _ _ Hlen)).
    rewrite (crc8_byte_xor_first _ _ (lxor_byte _ _ Hc Hd) (lxor_byte _ _ Hx Hy)).
    rewrite <- (mix8_xor _ _ (lxor_byte _ _ Hc Hx) (lxor_byte _ _ Hd Hy)).
    replace (Z.lxor (Z.lxor c d) (Z.lxor x y))
      with (Z.lxor (Z.lxor c x) (Z.lxor d y)); [reflexivity|].
    rewrite !Z.lxor_assoc. f_equal.
    rewrite <- !Z.lxor_assoc. f_equal. apply Z.lxor_comm.
Qed.

Lemma fold_crc8_parity (data : list Z) :
  bytes data -> forall c, is_byte c ->
    parity8 (fold_left crc8_byte data c) =
      fold_left (fun p x => xorb p (parity8 x)) data (parity8 c).
Proof.
  induction 1 as [|b data Hb _ IH]; intros c Hc; [reflexivity|].
  rewrite !fold_left_step, (IH _ (crc8_byte_range c b Hc Hb)).
  rewrite (parity8_crc8_byte c b Hc Hb). reflexivity.
Qed.

End CrcAlgebra.

(** ** Frame decoder: streams *)

Lemma indexOf_app_some (x : Z) (b v : list Z) (k : nat) :
  indexOf x b = Some k -> indexOf x (b ++ v) = Some k.
Proof.
  revert k. induction b as [|a b IH]; intros k; [discriminate|].
  cbn [indexOf app]. destruct (a =? x); [trivial|].
  destruct (indexOf x b) as [j|]; [|discriminate].
  rewrite (IH j eq_refl). trivial.
Qed.

Lemma indexOf_split (x : Z) (b : list Z) (k : nat) :
  indexOf x b = Some k ->
  exists junk l, b = junk ++ x :: l /\ length junk = k /\ ~ In x junk.
Proof.
  revert k. induction b as [|a b IH]; intros k; [discriminate|].
  cbn [indexOf]. destruct (Z.eqb_spec a x) as [->|Hne].
  - intros [= <-]. exists [], b. split; [reflexivity|]. split; [reflexivity|intros []].
  - destruct (indexOf x b) as [j|]; [|discriminate].
    intros [= <-]. destruct (IH j eq_refl) as (junk & l & -> & <- & Hno).
    exists (a :: junk), l. split; [reflexivity|]. split; [reflexivity|].
    intros [E|E]; [congruence|exact (Hno E)].
Qed.

Lemma indexOf_none (x : Z) (b : list Z) : indexOf x b = None -> ~ In x b.
Proof.
  induction b as [|a b IH]; [intros _ []|].
  cbn [indexOf]. destruct (Z.eqb_spec a x) as [->|Hne]; [discriminate|].
  destruct (indexOf x b); [discriminate|].
  intros _ [E|E]; [congruence|exact (IH eq_refl E)].
Qed.

Lemma fromStart_no_start (b : list Z) : ~ In 0xAA b -> fromStart b = [].
Proof. intros H. unfold fromStart. rewrite (indexOf_absent _ _ H). reflexivity. Qed.

Lemma fromStart_split (junk l : list Z) :
  ~ In 0xAA junk -> fromStart (junk ++ 0xAA :: l) = 0xAA :: l.
Proof.
  intros H. unfold fromStart, slice_from. rewrite (indexOf_first _ _ _ H).
  rewrite skipn_app, skipn_all, Nat.sub_diag. reflexivity.
Qed.

Lemma fromStart_cases (b : list Z) :
  (~ In 0xAA b /\ fromStart b = []) \/
  (exists junk l, ~ In 0xAA junk /\ b = junk ++ 0xAA :: l /\ fromStart b = 0xAA :: l).
Proof.
  destruct (indexOf 0xAA b) as [k|] eqn:E.
  - right. destruct (indexOf_split _ _ _ E) as (junk & l & -> & _ & Hno).
    exists junk, l. split; [exact Hno|]. split; [reflexivity|].
    apply fromStart_split, Hno.
  - left. apply indexOf_none in E. split; [exact E|apply fromStart_no_start, E].
Qed.

Lemma fromStart_idempotent (b : list Z) : fromStart (fromStart b) = fromStart b.
Proof.
  destruct (fromStart_cases b) as [(_ & ->)|(junk & l & _ & _ & ->)];
    [reflexivity|].
  apply (fromStart_split [] l). intros [].
Qed.

Lemma fromStart_app (b1 b2 v : list Z) :
  fromStart b1 = fromStart b2 -> fromStart (b1 ++ v) = fromStart (b2 ++ v).
Proof.
  assert (H : forall b, fromStart (b ++ v) = fromStart (fromStart b ++ v)).
  { intros b.
    destruct (fromStart_cases b) as [(Hno & ->)|(junk & l & Hno & -> & ->)].
    - cbn [app].
      destruct (fromStart_cases v) as [(Hv & ->)|(j' & l' & Hv & -> & ->)].
      + apply fromStart_no_start. intros Hin. apply in_app_or in Hin. tauto.
      + rewrite app_assoc. apply fromStart_split.
        intros Hin. apply in_app_or in Hin. tauto.
    - rewrite <- app_assoc. cbn [app].
      rewrite (fromStart_split junk (l ++ v) Hno).
      symmetry. apply (fromStart_split [] (l ++ v)). intros []. }
  intros E. rewrite (H b1), (H b2), E. reflexivity.
Qed.

Lemma sameFrames_refl {Svc : Type} (r : list Z * Svc) : sameFrames r r.
Proof. split; reflexivity. Qed.

Lemma sameFrames_sym {Svc : Type} (r1 r2 : list Z * Svc) :
  sameFrames r1 r2 -> sameFrames r2 r1.
Proof. intros [H1 H2]. split; symmetry; assumption. Qed.

Lemma sameFrames_trans {Svc : Type} (r1 r2 r3 : list Z * Svc) :
  sameFrames r1 r2 -> sameFrames r2 r3 -> sameFrames r1 r3.
Proof. intros [H1 H2] [H3 H4]. split; etransitivity; eassumption. Qed.

Section StreamFacts.

Context {Svc : Type}.
Variable parse : list Z -> Svc -> Svc.
Variable warn : Z -> Z -> Svc -> Svc.

(** Bytes before the first START never matter to a pass. *)
Lemma decodePass_fromStart (b : list Z) (s : Svc) :
  sameFrames (decodePass parse warn b s) (decodePass parse warn (fromStart b) s).
Proof.
  destruct (fromStart_cases b) as [(Hno & ->)|(junk & l & Hno & -> & ->)].
  - rewrite (decodePass_short parse warn [] s) by (cbn [length]; lia).
    destruct (Nat.lt_ge_cases (length b) 6) as [Hlt|Hge].
    + rewrite (decodePass_short parse warn b s Hlt).
      split; [reflexivity|]. cbn [fst]. apply fromStart_no_start, Hno.
    + rewrite (decodePass_noise parse warn b s Hno Hge). apply sameFrames_refl.
  - destruct (Nat.lt_ge_cases (length (junk ++ 0xAA :: l)) 6) as [Hlt|Hge].
    + rewrite (decodePass_short parse warn _ s Hlt).
      rewrite (decodePass_short parse warn (0xAA :: l) s).
      * split; [reflexivity|]. cbn [fst].
        rewrite (fromStart_split junk l Hno).
        symmetry. apply (fromStart_split [] l). intros [].
      * rewrite length_app in Hlt. lia.
    + rewrite (decodePass_resync parse warn junk l s Hno Hge). apply sameFrames_refl.
Qed.

Lemma decodePass_sameFrames (b1 b2 : list Z) (s : Svc) :
  fromStart b1 = fromStart b2 ->
  sameFrames (decodePass parse warn b1 s) (decodePass parse warn b2 s).
Proof.
  intros E.
  apply (sameFrames_trans _ _ _ (decodePass_fromStart b1 s)).
  rewrite E. apply sameFrames_sym, decodePass_fromStart.
Qed.

(** What an iteration decides on the bytes at hand, it decides again
    when more bytes follow them. *)
Lemma loopBody_app (b v : list Z) (s : Svc) (b' : list Z) (s' : Svc) :
  loopBody parse warn b s = Continue b' s' ->
  loopBody parse warn (b ++ v) s = Continue (b' ++ v) s'.
Proof.
  unfold loopBody. destruct (indexOf 0xAA b) as [[|k]|] eqn:E; [| |discriminate].
  - rewrite (indexOf_app_some _ _ v _ E).
    destruct (Nat.ltb_spec (length b) 4) as [|H4]; [discriminate|].
    destruct (Nat.ltb_spec (length (b ++ v)) 4) as [H4'|_];
      [rewrite length_app in H4'; lia|].
    rewrite (app_nth1 b v 0 (n := 3)) by lia.
    set (len := Z.to_nat (nth 3 b 0)).
    destruct (Nat.ltb_spec (length b) (4 + len + 2)) as [|Hsize]; [discriminate|].
    destruct (Nat.ltb_spec (length (b ++ v)) (4 + len + 2)) as [Hsize'|_];
      [rewrite length_app in Hsize'; lia|].
    rewrite !(app_nth1 b v 0) by lia.
    assert (Hslice : forall from to, (to <= length b)%nat ->
               slice from to (b ++ v) = slice from to b).
    { intros from to Hto. unfold slice. rewrite skipn_app, firstn_app.
      rewrite length_skipn.
      replace (to - from - (length b - from))%nat with O by lia.
      cbn [firstn]. apply app_nil_r. }
    assert (Hdrop : forall n, (n <= length b)%nat ->
               slice_from n (b ++ v) = slice_from n b ++ v).
    { intros n Hn. unfold slice_from. rewrite skipn_app.
      replace (n - length b)%nat with O by lia. reflexivity. }
    rewrite !Hslice by lia. rewrite !Hdrop by lia.
    destruct (negb (nth (4 + len + 2 - 1) b 0 =? 0xBB)); [intros [= <- <-]; reflexivity|].
    destruct (nth (4 + len + 2 - 2) b 0 =? crc8 (slice 1 (4 + len + 2 - 2) b));
      intros [= <- <-]; reflexivity.
  - rewrite (indexOf_app_some _ _ v _ E). intros [= <- <-].
    apply indexOf_bound in E. unfold slice_from. rewrite skipn_app.
    replace (S k - length b)%nat with O by lia. reflexivity.
Qed.

(** A pass may be interrupted where the bytes at hand end and resumed
    when the rest arrives: the outcome is that of one pass over all of
    them. *)
Lemma decodePass_resume (n : nat) :
  forall (b : list Z) (s : Svc) (v : list Z),
    (length b <= n)%nat ->
    sameFrames (decodePass parse warn (b ++ v) s)
               (decodePass parse warn (fst (decodePass parse warn b s) ++ v)
                           (snd (decodePass parse warn b s))).
Proof.
  induction n as [|n IH]; intros b s v Hn.
  - rewrite (decodePass_short parse warn b s) by lia. apply sameFrames_refl.
  - rewrite (decodePass_unfold parse warn b s).
    destruct (Nat.ltb_spec (length b) 6) as [|H6]; [apply sameFrames_refl|].
    destruct (loopBody parse warn b s) as [b' s'|b' s'] eqn:Hbody.
    + apply loopBody_stops in Hbody.
      destruct Hbody as (-> & [(Hnone & ->)|(_ & -> & _)]);
        [|apply sameFrames_refl].
      cbn [fst snd app]. apply decodePass_sameFrames.
      apply (fromStart_app b [] v).
      rewrite (fromStart_no_start b (indexOf_none _ _ Hnone)). reflexivity.
    + cbn [fst snd].
      rewrite (decodePass_unfold parse warn (b ++ v) s).
      destruct (Nat.ltb_spec (length (b ++ v)) 6) as [H6'|_];
        [rewrite length_app in H6'; lia|].
      rewrite (loopBody_app b v s b' s' Hbody).
      apply IH. apply loopBody_shrinks in Hbody. lia.
Qed.

(** A pass leaves nothing for a second pass. *)
Lemma decodePass_settled (n : nat) :
  forall (b : list Z) (s : Svc),
    (length b <= n)%nat ->
    decodePass parse warn (fst (decodePass parse warn b s))
               (snd (decodePass parse warn b s))
      = decodePass parse warn b s.
Proof.
  induction n as [|n IH]; intros b s Hn.
  - rewrite (decodePass_short parse warn b s) by lia. cbn [fst snd].
    apply decodePass_short. lia.
  - destruct (Nat.lt_ge_cases (length b) 6) as [Hlt|H6].
    { rewrite (decodePass_short parse warn b s Hlt). cbn [fst snd].
      apply decodePass_short, Hlt. }
    assert (Hun := decodePass_unfold parse warn b s).
    destruct (Nat.ltb_spec (length b) 6) as [|_]; [lia|].
    destruct (loopBody parse warn b s) as [b' s'|b' s'] eqn:Hbody.
    + rewrite Hun. cbn [fst snd].
      apply loopBody_stops in Hbody.
      destruct Hbody as (-> & [(_ & ->)|(_ & -> & _)]).
      * apply decodePass_short. cbn [length]. lia.
      * exact Hun.
    + rewrite Hun. apply IH. apply loopBody_shrinks in Hbody. lia.
Qed.

Lemma feed_one_pass (chunks : list (list Z)) :
  forall (acc : list Z) (s : Svc),
    decodePass parse warn acc s = (acc, s) ->
    sameFrames (feed parse warn chunks acc s)
               (decodePass parse warn (acc ++ concat chunks) s).
Proof.
  induction chunks as [|v later IH]; intros acc s Hacc.
  - cbn [feed concat]. rewrite app_nil_r, Hacc. apply sameFrames_refl.
  - cbn [feed concat]. rewrite app_assoc.
    pose proof (decodePass_resume (length (acc ++ v)) (acc ++ v) s (concat later)
                  (Nat.le_refl _)) as Hres.
    pose proof (decodePass_settled (length (acc ++ v)) (acc ++ v) s (Nat.le_refl _))
      as Hset.
    destruct (decodePass parse warn (acc ++ v) s) as [b1 s1].
    cbn [fst snd] in Hres, Hset.
    apply (sameFrames_trans _ _ _ (IH b1 s1 Hset)).
    apply sameFrames_sym, Hres.
Qed.

(** The accumulator a pass leaves: a suffix of what it was given, either
    shorter than the smallest frame or an unfinished frame. *)
Lemma decodePass_leaves (n : nat) :
  forall (b : list Z) (s : Svc),
    (length b <= n)%nat ->
    let b' := fst (decodePass parse warn b s) in
    (exists k, b' = skipn k b) /\
    ((length b' < 6)%nat \/
     (nth 0 b' 0 = 0xAA /\ (length b' < 4 + Z.to_nat (nth 3 b' 0%Z) + 2)%nat)).
Proof.
  induction n as [|n IH]; intros b s Hn; cbv zeta.
  - rewrite (decodePass_short parse warn b s) by lia. cbn [fst].
    split; [exists O; reflexivity|left; lia].
  - rewrite (decodePass_unfold parse warn b s).
    destruct (Nat.ltb_spec (length b) 6) as [Hlt|H6].
    { cbn [fst]. split; [exists O; reflexivity|left; exact Hlt]. }
    destruct (loopBody parse warn b s) as [b' s'|b' s'] eqn:Hbody.
    + cbn [fst]. apply loopBody_stops in Hbody.
      destruct Hbody as (_ & [(_ & ->)|(Hidx & -> & Hwait)]).
      * split; [exists (length b); symmetry; apply skipn_all|left; cbn; lia].
      * split; [exists O; reflexivity|right].
        split; [|lia].
        destruct b as [|a b]; [discriminate|].
        cbn [indexOf] in Hidx. cbn [nth].
        destruct (Z.eqb_spec a 0xAA) as [->|]; [reflexivity|].
        destruct (indexOf 0xAA b); discriminate.
    + pose proof (loopBody_shrinks _ _ _ _ _ _ Hbody) as Hshr.
      destruct (IH b' s' ltac:(lia)) as ((k & Hk) & Hform).
      split; [|exact Hform].
      apply loopBody_drops in Hbody.
      destruct Hbody as [(j & _ & _ & ->)|(_ & _ & [->| ->])];
        rewrite Hk, skipn_skipn; eexists; reflexivity.
Qed.

(** A transmission is decoded frame by frame. *)
Lemma decodePass_wire (sent : list sentFrame) :
  forall s : Svc,
    Forall (fun f => ~ In 0xAA (gap f)) sent ->
    decodePass parse warn (wire sent) s =
      ([], fold_left (fun s p => parse p s) (dataPayloads sent) s).
Proof.
  induction sent as [|f sent IH]; intros s Hsent.
  - apply decodePass_short. cbn [wire map concat length]. lia.
  - inversion Hsent as [|? ? Hgap Hrest]; subst.
    unfold wire. cbn [map concat]. fold (wire sent).
    rewrite <- app_assoc.
    assert (E : decodePass parse warn
                  (gap f ++ frame (func f) (addr f) (payload f) ++ wire sent) s =
                decodePass parse warn
                  (frame (func f) (addr f) (payload f) ++ wire sent) s).
    { rewrite frame_app.
      apply (decodePass_resync parse warn (gap f) _ s Hgap).
      rewrite length_app. cbn [length]. rewrite length_app. cbn [length]. lia. }
    rewrite E, decodePass_frame, IH by exact Hrest.
    unfold dataPayloads. cbn [filter].
    destruct (func f =? 0xF0); reflexivity.
Qed.

End StreamFacts.

Lemma decodePass_unfinished {Svc : Type} (parse : list Z -> Svc -> Svc)
      (warn : Z -> Z -> Svc -> Svc) (b : list Z) (s : Svc) :
  unfinished b -> decodePass parse warn b s = (b, s).
Proof.
  intros [Hlt|(Hhead & Hsize)]; [apply decodePass_short, Hlt|].
  rewrite decodePass_unfold.
  destruct (Nat.ltb_spec (length b) 6) as [|H6]; [reflexivity|].
  destruct b as [|a b]; [cbn [length] in H6; lia|].
  cbn [nth] in Hhead. subst a.
  unfold loopBody. rewrite indexOf_head.
  destruct (Nat.ltb_spec (length (0xAA :: b)) 4) as [|_]; [reflexivity|].
  destruct (Nat.ltb_spec (length (0xAA :: b))
                         (4 + Z.to_nat (nth 3 (0xAA :: b) 0) + 2)) as [|Hge];
    [reflexivity|lia].
Qed.

Lemma bytes_nth (b : list Z) (i : nat) : bytes b -> is_byte (nth i b 0).
Proof.
  intros H. destruct (Nat.lt_ge_cases i (length b)) as [Hi|Hi].
  - unfold bytes in H. rewrite Forall_forall in H. apply H, nth_In, Hi.
  - rewrite nth_overflow by exact Hi. unfold is_byte. lia.
Qed.

Lemma unfinished_bound (b : list Z) : bytes b -> unfinished b -> (length b <= 260)%nat.
Proof.
  intros Hb [Hlt|(_ & Hsize)]; [lia|].
  pose proof (bytes_nth b 3 Hb) as H3. unfold is_byte in H3. lia.
Qed.

(** The service's pass in terms of the generic one. *)
Lemma processBinaryFrames_decodePass (Date_now : nat -> Z)
      (bandPowers : list float -> FrequencyBands) (this : DeviceService) :
  processBinaryFrames Date_now bandPowers this =
    let r := decodePass (parseEEGPayload Date_now bandPowers) console_warn
                        (binaryBuffer this) this in
    set_binaryBuffer (fst r) (snd r).
Proof.
  unfold processBinaryFrames.
  destruct (decodePass _ _ (binaryBuffer this) this) as [b s]. reflexivity.
Qed.

(** X1. How the serial stream is cut into chunks does not matter.  From
    an accumulator that a pass would leave alone (the empty one, or an
    unfinished frame), feeding the chunks one by one, with a pass after
    each, hands over the same payloads and reports the same CRC
    mismatches, in the same order, as one pass over all the bytes at once;
    the accumulators left agree from their first START byte on.  On the
    device service the two ways end in the same state but for the
    accumulator. *)
Theorem chunking_does_not_matter :
  forall (acc : list Z) (chunks : list (list Z)),
    unfinished acc ->
    (forall (Svc : Type) (parse : list Z -> Svc -> Svc)
            (warn : Z -> Z -> Svc -> Svc) (this : Svc),
        sameFrames (feed parse warn chunks acc this)
                   (decodePass parse warn (acc ++ concat chunks) this)) /\
    snd (feed logPayload logWarning chunks acc [])
      = snd (decodePass logPayload logWarning (acc ++ concat chunks) []) /\
    (forall (Date_now : nat -> Z) (bandPowers : list float -> FrequencyBands)
            (this : DeviceService),
        binaryBuffer this = acc ->
        let many := receiveAll Date_now bandPowers chunks this in
        let one := receive Date_now bandPowers (concat chunks) this in
        set_binaryBuffer [] many = set_binaryBuffer [] one /\
        fromStart (binaryBuffer many) = fromStart (binaryBuffer one)).
Proof.
  intros acc chunks Hacc.
  assert (Hgen : forall (Svc : Type) (parse : list Z -> Svc -> Svc)
                        (warn : Z -> Z -> Svc -> Svc) (this : Svc),
             sameFrames (feed parse warn chunks acc this)
                        (decodePass parse warn (acc ++ concat chunks) this)).
  { intros Svc parse warn this. apply feed_one_pass.
    apply decodePass_unfinished, Hacc. }
  split; [exact Hgen|]. split; [apply Hgen|].
  intros Date_now bandPowers this Hbuf many one. subst many one.
  rewrite receiveAll_feed, receive_decodePass, Hbuf. cbv zeta.
  destruct (Hgen _ (parseEEGPayload Date_now bandPowers) console_warn this)
    as [Hs Hb].
  destruct (feed _ _ chunks acc this) as [b1 s1].
  destruct (decodePass _ _ (acc ++ concat chunks) this) as [b2 s2].
  cbn [fst snd] in *. subst s2. split; [reflexivity|exact Hb].
Qed.

Lemma chunking_does_not_matter_witness :
  snd (feed logPayload logWarning
            [[0x01; 0x03; 0x12]; [0x34; 0x56; 0x22]; [0xBB; 0x07]] [0xAA; 0xF0] [])
    = snd (decodePass logPayload logWarning
             ([0xAA; 0xF0] ++ concat [[0x01; 0x03; 0x12]; [0x34; 0x56; 0x22]; [0xBB; 0x07]])
             []).
Proof.
  refine (proj1 (proj2
    (chunking_does_not_matter [0xAA; 0xF0]
       [[0x01; 0x03; 0x12]; [0x34; 0x56; 0x22]; [0xBB; 0x07]] _))).
  left. cbn [length]. lia.
Defined.

(** X2. The accumulator stays bounded.  Whatever octets a pass is given,
    what it leaves is a suffix of them that is either shorter than the
    smallest frame (6 bytes) or starts with START and is shorter than the
    frame its LENGTH byte announces; so it never holds more than 260
    bytes, and after every delivery the service's accumulator is such. *)
Theorem accumulator_stays_bounded :
  forall (buffer : list Z),
    bytes buffer ->
    (forall (Svc : Type) (parse : list Z -> Svc -> Svc)
            (warn : Z -> Z -> Svc -> Svc) (this : Svc),
        let buffer' := fst (decodePass parse warn buffer this) in
        (exists k, buffer' = skipn k buffer) /\
        unfinished buffer' /\ (length buffer' <= 260)%nat) /\
    (forall (Date_now : nat -> Z) (bandPowers : list float -> FrequencyBands)
            (this : DeviceService) (value : list Z),
        binaryBuffer this ++ value = buffer ->
        let this' := receive Date_now bandPowers value this in
        unfinished (binaryBuffer this') /\
        (length (binaryBuffer this') <= 260)%nat).
Proof.
  intros buffer Hbytes.
  assert (Hgen : forall (Svc : Type) (parse : list Z -> Svc -> Svc)
                        (warn : Z -> Z -> Svc -> Svc) (this : Svc),
             let buffer' := fst (decodePass parse warn buffer this) in
             (exists k, buffer' = skipn k buffer) /\
             unfinished buffer' /\ (length buffer' <= 260)%nat).
  { intros Svc parse warn this buffer'.
    destruct (decodePass_leaves parse warn (length buffer) buffer this (Nat.le_refl _))
      as ((k & Hk) & Hform).
    fold buffer' in Hk, Hform.
    split; [exists k; exact Hk|]. split; [exact Hform|].
    apply unfinished_bound; [|exact Hform].
    rewrite Hk. apply bytes_skipn, Hbytes. }
  split; [exact Hgen|].
  intros Date_now bandPowers this value Hbuf this'. subst this'.
  rewrite receive_decodePass, Hbuf. cbv zeta.
  destruct (Hgen _ (parseEEGPayload Date_now bandPowers) console_warn this)
    as (_ & H1 & H2).
  destruct (decodePass _ _ buffer this) as [b s]. cbn [fst snd] in *.
  change (binaryBuffer (set_binaryBuffer b s)) with b. split; assumption.
Qed.

Lemma accumulator_stays_bounded_witness :
  (length (fst (decodePass logPayload logWarning
                  [0x01; 0x02; 0xAA; 0xF0; 0x01; 0xFF; 0x00; 0x00]%Z [])) <= 260)%nat.
Proof.
  refine (proj2 (proj2 (proj1
    (accumulator_stays_bounded [0x01; 0x02; 0xAA; 0xF0; 0x01; 0xFF; 0x00; 0x00] _)
    _ logPayload logWarning []))).
  repeat (apply Forall_cons; [unfold is_byte; lia|]). apply Forall_nil.
Defined.

(** X3. A pass leaves nothing for a second pass: run again on its own
    outcome, it changes neither the accumulator nor the service.  So
    [processBinaryFrames] twice is [processBinaryFrames] once, and the
    delivery of an empty chunk after a pass changes nothing. *)
Theorem second_pass_changes_nothing :
  (forall (Svc : Type) (parse : list Z -> Svc -> Svc)
          (warn : Z -> Z -> Svc -> Svc) (buffer : list Z) (this : Svc),
      let r := decodePass parse warn buffer this in
      decodePass parse warn (fst r) (snd r) = r) /\
  (forall (Date_now : nat -> Z) (bandPowers : list float -> FrequencyBands)
          (this : DeviceService),
      let this' := processBinaryFrames Date_now bandPowers this in
      processBinaryFrames Date_now bandPowers this' = this' /\
      receive Date_now bandPowers [] this' = this').
Proof.
  assert (Hgen : forall (Svc : Type) (parse : list Z -> Svc -> Svc)
                        (warn : Z -> Z -> Svc -> Svc) (buffer : list Z) (this : Svc),
             decodePass parse warn (fst (decodePass parse warn buffer this))
                        (snd (decodePass parse warn buffer this))
             = decodePass parse warn buffer this).
  { intros Svc parse warn buffer this.
    apply (decodePass_settled parse warn (length buffer)), Nat.le_refl. }
  split; [exact Hgen|].
  intros Date_now bandPowers this this'.
  assert (H : processBinaryFrames Date_now bandPowers this' = this').
  { subst this'. rewrite (processBinaryFrames_decodePass _ _ this). cbv zeta.
    specialize (Hgen _ (parseEEGPayload Date_now bandPowers) console_warn
                     (binaryBuffer this) this).
    destruct (decodePass _ _ (binaryBuffer this) this) as [b s].
    cbn [fst snd] in *.
    rewrite processBinaryFrames_decodePass. cbv zeta.
    change (binaryBuffer (set_binaryBuffer b s)) with b.
    rewrite (decodePass_commute _ _ (set_binaryBuffer b)).
    - rewrite Hgen. reflexivity.
    - intros p s0. apply parseEEGPayload_set_binaryBuffer.
    - reflexivity. }
  split; [exact H|].
  unfold receive, appendBuffer. rewrite app_nil_r.
  replace (set_binaryBuffer (binaryBuffer this') this') with this';
    [exact H|destruct this'; reflexivity].
Qed.

(** X4. A transmission of several frames is decoded frame by frame.  For
    frames sent back to back, each one possibly preceded by line noise
    without a START byte, one pass hands the payloads of the data frames
    (FUNCTION [0xF0]) to the sample decoder in the order sent, skips the
    other frames, reports nothing and leaves the accumulator empty; cut
    into chunks in any way, the same payloads arrive in the same order and
    no START byte is left behind. *)
Theorem transmission_decoded_in_order :
  forall (sent : list sentFrame) (chunks : list (list Z)),
    Forall (fun f => ~ In 0xAA (gap f)) sent ->
    concat chunks = wire sent ->
    (forall (Svc : Type) (parse : list Z -> Svc -> Svc)
            (warn : Z -> Z -> Svc -> Svc) (this : Svc),
        decodePass parse warn (wire sent) this =
          ([], fold_left (fun s p => parse p s) (dataPayloads sent) this) /\
        snd (feed parse warn chunks [] this) =
          fold_left (fun s p => parse p s) (dataPayloads sent) this /\
        fromStart (fst (feed parse warn chunks [] this)) = []) /\
    snd (feed logPayload logWarning chunks [] []) = map Handed (dataPayloads sent) /\
    (forall (Date_now : nat -> Z) (bandPowers : list float -> FrequencyBands)
            (this : DeviceService),
        binaryBuffer this = [] ->
        set_binaryBuffer [] (receiveAll Date_now bandPowers chunks this) =
          fold_left (fun s p => parseEEGPayload Date_now bandPowers p s)
                    (dataPayloads sent) this).
Proof.
  intros sent chunks Hgaps Hchunks.
  assert (Hgen : forall (Svc : Type) (parse : list Z -> Svc -> Svc)
                        (warn : Z -> Z -> Svc -> Svc) (this : Svc),
             decodePass parse warn (wire sent) this =
               ([], fold_left (fun s p => parse p s) (dataPayloads sent) this) /\
             snd (feed parse warn chunks [] this) =
               fold_left (fun s p => parse p s) (dataPayloads sent) this /\
             fromStart (fst (feed parse warn chunks [] this)) = []).
  { intros Svc parse warn this.
    pose proof (decodePass_wire parse warn sent this Hgaps) as Hone.
    split; [exact Hone|].
    destruct (feed_one_pass parse warn chunks [] this) as [Hs Hb].
    { apply decodePass_short. cbn [length]. lia. }
    cbn [app] in Hs, Hb. rewrite Hchunks, Hone in Hs, Hb.
    split; [exact Hs|exact Hb]. }
  split; [exact Hgen|]. split.
  - rewrite (proj1 (proj2 (Hgen _ logPayload logWarning []))).
    generalize (dataPayloads sent). intros l.
    change (fold_left (fun s p => logPayload p s) l [] = [] ++ map Handed l).
    generalize (@nil event). induction l as [|p l IH]; intros log.
    + cbn [fold_left map]. symmetry. apply app_nil_r.
    + cbn [fold_left map]. rewrite IH. unfold logPayload.
      rewrite <- app_assoc. reflexivity.
  - intros Date_now bandPowers this Hbuf.
    rewrite receiveAll_feed, Hbuf. cbv zeta.
    destruct (Hgen _ (parseEEGPayload Date_now bandPowers) console_warn this)
      as (_ & Hs & _).
    destruct (feed _ _ chunks [] this) as [b s]. cbn [fst snd] in *. subst s.
    assert (Hfold : forall l s,
              fold_left (fun s p => parseEEGPayload Date_now bandPowers p s) l
                        (set_binaryBuffer [] s)
              = set_binaryBuffer [] (fold_left
                  (fun s p => parseEEGPayload Date_now bandPowers p s) l s)).
    { induction l as [|p l IH]; intros s; [reflexivity|].
      cbn [fold_left]. rewrite parseEEGPayload_set_binaryBuffer. apply IH. }
    transitivity (set_binaryBuffer [] (fold_left
                    (fun s p => parseEEGPayload Date_now bandPowers p s)
                    (dataPayloads sent) this)); [reflexivity|].
    rewrite <- Hfold. f_equal. destruct this; cbn in Hbuf |- *. subst. reflexivity.
Qed.

Lemma transmission_decoded_in_order_witness :
  snd (feed logPayload logWarning
         [[0x07; 0xAA; 0xF0; 0x01; 0x03; 0x12]; [0x34; 0x56; 0x22; 0xBB; 0xAA; 0xB0];
          [0xB0; 0x00; crc8 [0xB0; 0xB0; 0x00]; 0xBB]] [] [])
    = map Handed
          (dataPayloads
             [{| gap := [0x07]; func := 0xF0; addr := 0x01;
                 payload := [0x12; 0x34; 0x56] |};
              {| gap := []; func := 0xB0; addr := 0xB0; payload := [] |}]).
Proof.
  refine (proj1 (proj2
    (transmission_decoded_in_order
       [{| gap := [0x07]; func := 0xF0; addr := 0x01; payload := [0x12; 0x34; 0x56] |};
        {| gap := []; func := 0xB0; addr := 0xB0; payload := [] |}]
       [[0x07; 0xAA; 0xF0; 0x01; 0x03; 0x12]; [0x34; 0x56; 0x22; 0xBB; 0xAA; 0xB0];
        [0xB0; 0x00; crc8 [0xB0; 0xB0; 0x00]; 0xBB]] _ _))).
  - apply Forall_cons; [cbn; intros [H|[]]; discriminate H|].
    apply Forall_cons; [intros []|]. apply Forall_nil.
  - vm_compute. reflexivity.
Defined.

(** X5. A frame with one damaged byte is not accepted.  When one byte
    among FUNCTION, ADDRESS and the payload of a well-formed frame is
    replaced by any other octet (LENGTH, which moves the frame's end, is
    left out), the checksum computed by the decoder differs from the one
    sent: the iteration hands nothing over, reports the mismatch and goes
    on one byte further. *)
Theorem single_corrupted_byte_is_rejected :
  forall (func addr : Z) (payload pre post rest : list Z) (x y : Z),
    is_byte func -> is_byte addr -> bytes payload -> (length payload <= 255)%nat ->
    func :: addr :: Z.of_nat (length payload) :: payload = pre ++ x :: post ->
    length pre <> 2%nat -> is_byte y -> y <> x ->
    let crc := crc8 (pre ++ x :: post) in
    let crc' := crc8 (pre ++ y :: post) in
    let damaged := (pre ++ y :: post) ++ [crc; 0xBB] in
    crc' <> crc /\
    (forall (Svc : Type) (parse : list Z -> Svc -> Svc)
            (warn : Z -> Z -> Svc -> Svc) (this : Svc),
        loopBody parse warn (0xAA :: damaged ++ rest) this
          = Continue (damaged ++ rest) (warn crc crc' this)) /\
    loopBody logPayload logWarning (0xAA :: damaged ++ rest) []
      = Continue (damaged ++ rest) [CrcMismatch crc crc'].
Proof.
  intros func addr payload pre post rest x y Hfunc Haddr Hpayload Hlen Hsplit
         Hpos Hy Hne crc crc' damaged.
  assert (Hcovered : bytes (pre ++ x :: post)).
  { rewrite <- Hsplit. unfold bytes.
    repeat (apply Forall_cons; [first [assumption | unfold is_byte; lia]|]).
    exact Hpayload. }
  assert (Hparts : bytes pre /\ is_byte x /\ bytes post).
  { unfold bytes in *. apply Forall_app in Hcovered. destruct Hcovered as [Hp Hq].
    inversion Hq; subst. auto. }
  destruct Hparts as (Hpre & Hx & Hpost).
  assert (Hcrc : crc' <> crc).
  { unfold crc, crc'. intros E.
    apply (crc8_single_byte_change pre post y x Hpre Hpost Hy Hx) in E.
    exact (Hne E). }
  assert (Hshape : exists func' addr' payload',
             pre ++ y :: post
               = func' :: addr' :: Z.of_nat (length payload') :: payload').
  { destruct pre as [|p0 [|p1 [|p2 pre]]].
    - cbn [app] in *. injection Hsplit as _ <-. exists y, addr, payload. reflexivity.
    - cbn [app] in *. injection Hsplit as <- _ <-. exists func, y, payload. reflexivity.
    - cbn [length] in Hpos. congruence.
    - cbn [app] in *. injection Hsplit as <- <- <- Hp.
      exists func, addr, (pre ++ y :: post). f_equal. f_equal. f_equal.
      rewrite Hp, !length_app. reflexivity. }
  destruct Hshape as (func' & addr' & payload' & Hshape).
  assert (Hgen : forall (Svc : Type) (parse : list Z -> Svc -> Svc)
            (warn : Z -> Z -> Svc -> Svc) (this : Svc),
        loopBody parse warn (0xAA :: damaged ++ rest) this
          = Continue (damaged ++ rest) (warn crc crc' this)).
  { intros Svc parse warn this. unfold damaged, crc'.
    rewrite Hshape, <- app_assoc. cbn [app].
    pose proof (loopBody_candidate parse warn func' addr' payload' crc 0xBB rest this)
      as Hbody.
    cbv zeta in Hbody. cbn [app] in Hbody. rewrite Hbody.
    rewrite Z.eqb_refl. cbn [negb].
    destruct (Z.eqb_spec crc (crc8 (func' :: addr' :: Z.of_nat (length payload')
                                          :: payload'))) as [E|_]; [|reflexivity].
    exfalso. apply Hcrc. unfold crc'. rewrite Hshape. symmetry. exact E. }
  split; [exact Hcrc|]. split; [exact Hgen|]. apply Hgen.
Qed.

Lemma single_corrupted_byte_is_rejected_witness :
  loopBody logPayload logWarning
           (0xAA :: ([0xF1; 0x01; 0x03; 0x12; 0x34; 0x56]
                       ++ [crc8 [0xF0; 0x01; 0x03; 0x12; 0x34; 0x56]; 0xBB]) ++ []) []
    = Continue (([0xF1; 0x01; 0x03; 0x12; 0x34; 0x56]
                   ++ [crc8 [0xF0; 0x01; 0x03; 0x12; 0x34; 0x56]; 0xBB]) ++ [])
               [CrcMismatch (crc8 [0xF0; 0x01; 0x03; 0x12; 0x34; 0x56])
                            (crc8 [0xF1; 0x01; 0x03; 0x12; 0x34; 0x56])].
Proof.
  refine (proj2 (proj2
    (single_corrupted_byte_is_rejected 0xF0 0x01 [0x12; 0x34; 0x56]
       [] [0x01; 0x03; 0x12; 0x34; 0x56] [] 0xF0 0xF1 _ _ _ _ _ _ _ _))).
  - unfold is_byte. lia.
  - unfold is_byte. lia.
  - repeat (apply Forall_cons; [unfold is_byte; lia|]). apply Forall_nil.
  - cbn [length]. lia.
  - reflexivity.
  - cbn [length]. discriminate.
  - unfold is_byte. lia.
  - discriminate.
Defined.

(** ** Checksum engine: what it detects *)

(** X6. The checksum of a block of octets followed by its own checksum
    is 0, and no other octet in that place gives 0: a receiver may run
    [crc8] over FUNCTION .. CRC and compare with 0. *)
Theorem crc8_residue_is_zero :
  forall data : list Z,
    bytes data ->
    crc8 (data ++ [crc8 data]) = 0 /\
    (forall c, is_byte c -> crc8 (data ++ [c]) = 0 -> c = crc8 data).
Proof.
  intros data Hdata.
  pose proof (crc8_range data Hdata) as Hc.
  split.
  - rewrite crc8_snoc, (crc8_byte_xor_first _ _ Hc Hc), Z.lxor_nilpotent.
    exact CrcAlgebra.mix8_zero.
  - intros c Hbyte H. rewrite crc8_snoc in H.
    rewrite (crc8_byte_xor_first _ _ Hc Hbyte) in H.
    rewrite <- CrcAlgebra.mix8_zero in H.
    apply mix8_injective in H.
    + apply Z.lxor_eq in H. symmetry. exact H.
    + apply lxor_byte; assumption.
    + unfold is_byte. lia.
Qed.

Lemma crc8_residue_is_zero_witness :
  crc8 ([0xF0; 0x01; 0x03; 0x12; 0x34; 0x56]
          ++ [crc8 [0xF0; 0x01; 0x03; 0x12; 0x34; 0x56]]) = 0.
Proof.
  refine (proj1 (crc8_residue_is_zero [0xF0; 0x01; 0x03; 0x12; 0x34; 0x56] _)).
  repeat (apply Forall_cons; [unfold is_byte; lia|]). apply Forall_nil.
Defined.

(** X7. The checksum is linear over xor: the checksum of a message with an
    error pattern laid over it is the xor of the two checksums, so an
    error goes unnoticed exactly when the pattern itself checks to 0. *)
Theorem crc8_error_pattern :
  forall message pattern : list Z,
    bytes message -> bytes pattern -> length message = length pattern ->
    crc8 (xorBytes message pattern) = Z.lxor (crc8 message) (crc8 pattern) /\
    (crc8 (xorBytes message pattern) = crc8 message <-> crc8 pattern = 0).
Proof.
  intros message pattern Hm Hp Hlen.
  assert (E : crc8 (xorBytes message pattern)
              = Z.lxor (crc8 message) (crc8 pattern)).
  { unfold crc8.
    rewrite <- (CrcAlgebra.fold_crc8_xor message pattern 0 0 Hm Hp);
      [reflexivity| | |exact Hlen]; unfold is_byte; lia. }
  split; [exact E|]. rewrite E. split.
  - intros H. rewrite <- (Z.lxor_0_r (crc8 message)) in H at 2.
    apply lxor_cancel_l in H. exact H.
  - intros ->. apply Z.lxor_0_r.
Qed.

Lemma crc8_error_pattern_witness :
  crc8 (xorBytes [0xF0; 0x01; 0x03] [0x00; 0x80; 0x01])
    = Z.lxor (crc8 [0xF0; 0x01; 0x03]) (crc8 [0x00; 0x80; 0x01]).
Proof.
  refine (proj1 (crc8_error_pattern [0xF0; 0x01; 0x03] [0x00; 0x80; 0x01] _ _ _)).
  - repeat (apply Forall_cons; [unfold is_byte; lia|]). apply Forall_nil.
  - repeat (apply Forall_cons; [unfold is_byte; lia|]). apply Forall_nil.
  - reflexivity.
Defined.

(** X8. The checksum has the parity of the data, so a block together with
    its checksum has an even number of 1 bits: whatever flips an odd
    number of bits is detected. *)
Theorem crc8_detects_odd_bit_errors :
  forall (data : list Z) (c : Z),
    bytes data -> is_byte c ->
    parity8 (crc8 data) = parity data /\
    parity (data ++ [crc8 data]) = false /\
    (parity (data ++ [c]) = true -> c <> crc8 data).
Proof.
  intros data c Hdata Hc.
  assert (E : parity8 (crc8 data) = parity data).
  { unfold crc8, parity.
    rewrite (CrcAlgebra.fold_crc8_parity data Hdata 0); [reflexivity|].
    unfold is_byte. lia. }
  assert (Hsnoc : forall x, parity (data ++ [x]) = xorb (parity data) (parity8 x)).
  { intros x. unfold parity. rewrite fold_left_app. reflexivity. }
  split; [exact E|].
  split; [rewrite Hsnoc, E; apply xorb_nilpotent|].
  intros H ->. rewrite Hsnoc, E, xorb_nilpotent in H. discriminate H.
Qed.

Lemma crc8_detects_odd_bit_errors_witness :
  parity ([0xF0; 0x01; 0x03; 0x12; 0x34; 0x56] ++ [0x23]) = true /\
  0x23 <> crc8 [0xF0; 0x01; 0x03; 0x12; 0x34; 0x56].
Proof.
  refine ((fun H => conj eq_refl (proj2 (proj2 H) eq_refl))
            (crc8_detects_odd_bit_errors
               [0xF0; 0x01; 0x03; 0x12; 0x34; 0x56] 0x23 _ _)).
  - repeat (apply Forall_cons; [unfold is_byte; lia|]). apply Forall_nil.
  - unfold is_byte. lia.
Defined.

(** X9. With the accumulator starting at 0, zero bytes in front of a block
    do not show in its checksum, and a block of zeros checks to 0. *)
Theorem crc8_blind_to_leading_zeros :
  forall (n : nat) (data : list Z),
    crc8 (repeat 0 n ++ data) = crc8 data /\ crc8 (repeat 0 n) = 0.
Proof.
  assert (H : forall n data, crc8 (repeat 0 n ++ data) = crc8 data).
  { induction n as [|n IH]; intros data; [reflexivity|].
    cbn [repeat app]. unfold crc8. rewrite fold_left_step.
    change (crc8_byte 0 0) with (mix8 0). rewrite CrcAlgebra.mix8_zero.
    apply IH. }
  intros n data. split; [apply H|].
  rewrite <- (app_nil_r (repeat 0 n)), H. reflexivity.
Qed.

(** ** Sample decoder: range of the samples *)

Lemma holdsBelow_spec (check : Uint63.int -> bool) (depth : nat) :
  forall prefix,
    holdsBelow check depth prefix = true ->
    (Uint63.to_Z prefix + 1) * 2 ^ Z.of_nat depth <= Uint63.wB ->
    forall z,
      Uint63.to_Z prefix * 2 ^ Z.of_nat depth <= z
        < (Uint63.to_Z prefix + 1) * 2 ^ Z.of_nat depth ->
      check (Uint63.of_Z z) = true.
Proof.
  induction depth as [|d IH]; intros prefix H Hfit z Hz.
  - cbn [holdsBelow] in H. change (2 ^ Z.of_nat 0) with 1 in Hz.
    assert (z = Uint63.to_Z prefix) as -> by lia.
    rewrite Uint63.of_to_Z. exact H.
  - cbn [holdsBelow] in H. apply andb_prop in H. destruct H as [H0 H1].
    pose proof (Uint63.to_Z_bounded prefix) as Hp.
    rewrite Nat2Z.inj_succ, Z.pow_succ_r in Hfit, Hz by lia.
    assert (Hd : 1 <= 2 ^ Z.of_nat d) by (apply (Z.pow_le_mono_r 2 0); lia).
    assert (E0 : Uint63.to_Z (Uint63.add prefix prefix) = 2 * Uint63.to_Z prefix).
    { rewrite Uint63.add_spec, Z.mod_small; nia. }
    assert (E1 : Uint63.to_Z (Uint63.add (Uint63.add prefix prefix) one63)
                 = 2 * Uint63.to_Z prefix + 1).
    { rewrite Uint63.add_spec, E0. change (Uint63.to_Z one63) with 1.
      rewrite Z.mod_small; nia. }
    destruct (Z.lt_ge_cases z ((2 * Uint63.to_Z prefix + 1) * 2 ^ Z.of_nat d)).
    + apply (IH _ H0); rewrite E0; nia.
    + apply (IH _ H1); rewrite E1; nia.
Qed.

(** All magnitudes below 2^23, by evaluation. *)
Lemma all_magnitudes_scale_within_range :
  holdsBelow magnitudeScales 23 zero63 = true.
Proof. vm_cast_no_check (eq_refl true). Qed.

Ltac split_checks H :=
  unfold withinRange in *;
  repeat match goal with
         | E : _ && _ = true |- _ => apply andb_prop in E; destruct E
         | E : negb _ = true |- _ => apply negb_true_iff in E
         end;
  repeat match goal with E : _ = _ :> bool |- _ => rewrite E end;
  split; reflexivity.

Lemma magnitudeScales_codes (z : Z) :
  0 <= z < Uint63.wB ->
  magnitudeScales (Uint63.of_Z z) = true ->
  scalesWithinRange z = true /\ scalesWithinRange (- z) = true.
Proof.
  intros Hz H. unfold magnitudeScales in H. cbv zeta in H.
  unfold scalesWithinRange, number_of_int. cbv zeta.
  rewrite Z.opp_involutive.
  destruct (Z.ltb_spec z 0) as [?|_]; [lia|].
  destruct (Z.eq_dec z 0) as [->|Hne].
  - change (- 0) with 0. change (0 <? 0) with false. change (0 =? 0) with true.
    change (Uint63.eqb (Uint63.of_Z 0) zero63) with true in H.
    split_checks H.
  - assert (Hnz : Uint63.eqb (Uint63.of_Z z) zero63 = false).
    { destruct (Uint63.eqb (Uint63.of_Z z) zero63) eqn:E; [|reflexivity].
      apply Uint63.eqb_spec in E. apply (f_equal Uint63.to_Z) in E.
      rewrite Uint63.of_Z_spec, Z.mod_small in E by lia.
      change (Uint63.to_Z zero63) with 0 in E. lia. }
    rewrite Hnz in H.
    destruct (Z.ltb_spec (- z) 0) as [_|?]; [|lia].
    destruct (Z.eqb_spec z 0) as [?|_]; [lia|].
    destruct (Z.eqb_spec (- z) 0) as [?|_]; [lia|].
    split_checks H.
Qed.

Lemma uvValue_within_range (b0 b1 b2 : Z) :
  is_byte b0 -> is_byte b1 -> is_byte b2 ->
  scalesWithinRange (rawInt24 b0 b1 b2) = true.
Proof.
  intros H0 H1 H2.
  pose proof (proj2 (rawInt24_signed24 b0 b1 b2 H0 H1 H2)) as Hr.
  destruct (Z.eq_dec (rawInt24 b0 b1 b2) (-8388608)) as [->|Hne].
  { vm_compute. reflexivity. }
  assert (Hall : forall z, 0 <= z < 8388608 ->
            scalesWithinRange z = true /\ scalesWithinRange (- z) = true).
  { intros z Hz. apply magnitudeScales_codes.
    - change Uint63.wB with 9223372036854775808. lia.
    - apply (holdsBelow_spec _ _ _ all_magnitudes_scale_within_range).
      + vm_compute. discriminate.
      + change (Uint63.to_Z zero63) with 0.
        change (2 ^ Z.of_nat 23) with 8388608. lia. }
  destruct (Z.lt_ge_cases (rawInt24 b0 b1 b2) 0).
  - replace (rawInt24 b0 b1 b2) with (- - rawInt24 b0 b1 b2) by lia.
    apply Hall. lia.
  - apply Hall. lia.
Qed.

(** X10. Every sample the decoder produces from octets lies within the
    converter's range, between -400000.05 and 400000 microvolts: it is
    never NaN or infinite; it is negative exactly when the sign bit of the
    group is set and zero exactly for the group [00 00 00]. *)
Theorem samples_within_converter_range :
  forall payload : list Z,
    bytes payload ->
    (forall b0 b1 b2, is_byte b0 -> is_byte b1 -> is_byte b2 ->
        let uv := uvValue b0 b1 b2 in
        withinRange uv = true /\ is_nan uv = false /\
        (uv <? 0)%float = (128 <=? b0) /\
        ((uv =? 0)%float = true <-> b0 = 0 /\ b1 = 0 /\ b2 = 0)) /\
    Forall (fun uv => withinRange uv = true /\ is_nan uv = false)
           (decodedSamples payload).
Proof.
  intros payload Hpayload.
  assert (Hone : forall b0 b1 b2, is_byte b0 -> is_byte b1 -> is_byte b2 ->
             let uv := uvValue b0 b1 b2 in
             withinRange uv = true /\ is_nan uv = false /\
             (uv <? 0)%float = (128 <=? b0) /\
             ((uv =? 0)%float = true <-> b0 = 0 /\ b1 = 0 /\ b2 = 0)).
  { intros b0 b1 b2 H0 H1 H2 uv.
    pose proof (uvValue_within_range b0 b1 b2 H0 H1 H2) as H.
    unfold scalesWithinRange in H. cbv zeta in H.
    fold (uvValue b0 b1 b2) in H. fold uv in H.
    apply andb_prop in H. destruct H as [H Hzero].
    apply andb_prop in H. destruct H as [H Hneg].
    apply andb_prop in H. destruct H as [Hrange Hnan].
    apply Bool.eqb_prop in Hzero, Hneg. apply negb_true_iff in Hnan.
    destruct (rawInt24_signed24 b0 b1 b2 H0 H1 H2) as [E _].
    unfold signed24 in E. unfold is_byte in *.
    split; [exact Hrange|]. split; [exact Hnan|]. split.
    - rewrite Hneg, E.
      destruct (Z.ltb_spec (b0 * 65536 + b1 * 256 + b2) 8388608);
        destruct (Z.leb_spec 128 b0);
        repeat match goal with
               | |- context [?a <? ?b] => destruct (Z.ltb_spec a b)
               end; try reflexivity; lia.
    - rewrite Hzero, E, Z.eqb_eq.
      destruct (Z.ltb_spec (b0 * 65536 + b1 * 256 + b2) 8388608); lia. }
  split; [exact Hone|].
  unfold decodedSamples. apply Forall_forall. intros uv Hin.
  apply in_map_iff in Hin. destruct Hin as (i & <- & _).
  unfold sampleAt.
  destruct (Hone (nth (3 * i) payload 0) (nth (3 * i + 1) payload 0)
                 (nth (3 * i + 2) payload 0)) as (Hr & Hn & _);
    try (apply bytes_nth, Hpayload).
  split; assumption.
Qed.

Lemma samples_within_converter_range_witness :
  Forall (fun uv => withinRange uv = true /\ is_nan uv = false)
         (decodedSamples [0x80; 0x00; 0x00; 0x7F; 0xFF; 0xFF; 0x01]).
Proof.
  refine (proj2 (samples_within_converter_range
                   [0x80; 0x00; 0x00; 0x7F; 0xFF; 0xFF; 0x01] _)).
  repeat (apply Forall_cons; [unfold is_byte; lia|]). apply Forall_nil.
Defined.

(** ** Sample window and snapshot *)

Section WindowFacts.

Variable Date_now : nat -> Z.
Variable bandPowers : list float -> FrequencyBands.

Lemma length_lastN {A : Type} (n : nat) (l : list A) :
  length (lastN n l) = Nat.min n (length l).
Proof. unfold lastN. rewrite length_skipn. lia. Qed.

Lemma last_app_nonempty {A : Type} (l1 l2 : list A) (d : A) :
  l2 <> [] -> last (l1 ++ l2) d = last l2 d.
Proof.
  intros H. induction l1 as [|a l1 IH]; [reflexivity|].
  cbn [app last]. rewrite IH.
  destruct (l1 ++ l2) eqn:E; [|reflexivity].
  apply app_eq_nil in E. tauto.
Qed.

Lemma last_default {A : Type} (l : list A) (d d' : A) :
  l <> [] -> last l d = last l d'.
Proof.
  induction l as [|a [|b l] IH]; intros H; [congruence|reflexivity|].
  change (last (b :: l) d = last (b :: l) d'). apply IH. discriminate.
Qed.

Lemma last_lastN {A : Type} (n : nat) (l : list A) (d : A) :
  (0 < n)%nat -> last (lastN n l) d = last l d.
Proof.
  intros Hn. unfold lastN.
  destruct (Nat.le_gt_cases (length l) n) as [Hle|Hgt].
  - replace (length l - n)%nat with O by lia. reflexivity.
  - rewrite <- (firstn_skipn (length l - n) l) at 3.
    rewrite last_app_nonempty; [reflexivity|].
    intros E. apply (f_equal (@length A)) in E.
    rewrite length_skipn in E. cbn [length] in E. lia.
Qed.

(** What the loop of [parseEEGPayload] leaves in the snapshot: the last
    decoded sample, stamped with the clock reading taken for it; bands
    and metrics are not touched. *)
Lemma sampleLoop_latestData (payload : list Z) :
  forall this,
    let this' := sampleLoop Date_now payload this in
    value (raw (latestData this'))
      = last (decodedSamples payload) (value (raw (latestData this))) /\
    bands (latestData this') = bands (latestData this) /\
    metrics (latestData this') = metrics (latestData this) /\
    clockReads this' = (clockReads this + length payload / 3)%nat /\
    (decodedSamples payload <> [] ->
     timestamp (raw (latestData this')) = Date_now (pred (clockReads this'))).
Proof.
  induction payload as [|x|x y|b0 b1 b2 rest IH] using list3_ind; intros this;
    cbv zeta.
  - cbn. repeat split; try lia. congruence.
  - cbn. repeat split; try lia. congruence.
  - cbn. repeat split; try lia. congruence.
  - cbn [sampleLoop]. rewrite decodedSamples_group.
    destruct (IH (pushSample Date_now b0 b1 b2 this)) as (Hv & Hb & Hm & Hc & Ht).
    rewrite Hb, Hm, Hc.
    replace (length (b0 :: b1 :: b2 :: rest) / 3)%nat with (S (length rest / 3)).
    2:{ cbn [length].
        replace (S (S (S (length rest)))) with (1 * 3 + length rest)%nat by lia.
        rewrite Nat.div_add_l by lia. reflexivity. }
    split.
    { rewrite Hv.
      change (value (raw (latestData (pushSample Date_now b0 b1 b2 this))))
        with (uvValue b0 b1 b2).
      clear. destruct (decodedSamples rest) as [|u us]; [reflexivity|].
      change (last (uvValue b0 b1 b2 :: u :: us) (value (raw (latestData this))))
        with (last (u :: us) (value (raw (latestData this)))).
      apply last_default. discriminate. }
    split; [reflexivity|]. split; [reflexivity|].
    split; [cbn; lia|].
    intros _. destruct (decodedSamples rest) as [|u us] eqn:E.
    + assert (Hz : (length rest / 3 = 0)%nat).
      { apply (f_equal (@length float)) in E. unfold decodedSamples in E.
        rewrite length_map, length_seq in E. exact E. }
      assert (Hshort : (length rest < 3)%nat)
        by (apply Nat.div_small_iff; [discriminate|exact Hz]).
      assert (Hrest : sampleLoop Date_now rest (pushSample Date_now b0 b1 b2 this)
                      = pushSample Date_now b0 b1 b2 this).
      { destruct rest as [|r0 [|r1 [|r2 rest]]]; try reflexivity.
        cbn [length] in Hshort. lia. }
      rewrite Hrest, Hz, Nat.add_0_r. reflexivity.
    + rewrite Ht by discriminate. rewrite Hc. reflexivity.
Qed.

Lemma sampleLoop_simulation (payload : list Z) :
  forall this,
    let this' := sampleLoop Date_now payload this in
    isSimulating this' = isSimulating this /\
    agitationLevel this' = agitationLevel this /\
    lastAcceleration this' = lastAcceleration this /\
    randomDraws this' = randomDraws this /\
    consoleWarnings this' = consoleWarnings this.
Proof.
  induction payload as [|x|x y|b0 b1 b2 rest IH] using list3_ind; intros this;
    cbv zeta; try (repeat split; reflexivity).
  cbn [sampleLoop].
  destruct (IH (pushSample Date_now b0 b1 b2 this)) as (H1 & H2 & H3 & H4 & H5).
  rewrite H1, H2, H3, H4, H5. repeat split; reflexivity.
Qed.

Lemma parseEEGPayload_cases (payload : list Z) (this : DeviceService) :
  let this1 := sampleLoop Date_now payload this in
  let window := rawSignalBuffer this ++ decodedSamples payload in
  parseEEGPayload Date_now bandPowers payload this =
    if (FFT_SIZE <=? length window)%nat
    then
      let this2 := analyzeSignal bandPowers (lastN FFT_SIZE window) this1 in
      if (1000 <? length window)%nat
      then set_rawSignalBuffer (lastN 500 window) this2
      else this2
    else this1.
Proof.
  cbv zeta. unfold parseEEGPayload. cbv zeta.
  change (rawSignalBuffer (analyzeSignal bandPowers
            (lastN FFT_SIZE (rawSignalBuffer (sampleLoop Date_now payload this)))
            (sampleLoop Date_now payload this)))
    with (rawSignalBuffer (sampleLoop Date_now payload this)).
  rewrite (sampleLoop_pushes Date_now payload this). reflexivity.
Qed.

Lemma parseEEGPayload_window_bound (payload : list Z) (this : DeviceService) :
  (length (rawSignalBuffer this) <= 1000)%nat ->
  (length (rawSignalBuffer (parseEEGPayload Date_now bandPowers payload this))
     <= 1000)%nat.
Proof.
  intros _. rewrite parseEEGPayload_cases. cbv zeta.
  set (window := rawSignalBuffer this ++ decodedSamples payload).
  destruct (Nat.leb_spec FFT_SIZE (length window)) as [Hfft|Hfft].
  - destruct (Nat.ltb_spec 1000 (length window)) as [Hcap|Hcap].
    + change (rawSignalBuffer (set_rawSignalBuffer (lastN 500 window) _))
        with (lastN 500 window).
      rewrite length_lastN. lia.
    + change (rawSignalBuffer (analyzeSignal bandPowers _
                (sampleLoop Date_now payload this)))
        with (rawSignalBuffer (sampleLoop Date_now payload this)).
      rewrite sampleLoop_pushes. exact Hcap.
  - rewrite sampleLoop_pushes. unfold FFT_SIZE in Hfft. fold window. lia.
Qed.

Lemma parseEEGPayload_simulation (payload : list Z) (this : DeviceService) :
  let this' := parseEEGPayload Date_now bandPowers payload this in
  isSimulating this' = isSimulating this /\
  agitationLevel this' = agitationLevel this /\
  lastAcceleration this' = lastAcceleration this /\
  randomDraws this' = randomDraws this /\
  consoleWarnings this' = consoleWarnings this.
Proof.
  cbv zeta. rewrite parseEEGPayload_cases. cbv zeta.
  pose proof (sampleLoop_simulation payload this) as H. cbv zeta in H.
  destruct (FFT_SIZE <=? _)%nat; [|exact H].
  destruct (1000 <? _)%nat; exact H.
Qed.

End WindowFacts.

(** A property of the service that the sample decoder and the CRC
    diagnostic keep is kept by a whole pass. *)
Lemma whileLoop_preserves {Svc : Type} (parse : list Z -> Svc -> Svc)
      (warn : Z -> Z -> Svc -> Svc) (P : Svc -> Prop) :
  (forall p s, P s -> P (parse p s)) ->
  (forall r c s, P s -> P (warn r c s)) ->
  forall fuel buffer this r,
    whileLoop parse warn fuel buffer this = Some r -> P this -> P (snd r).
Proof.
  intros Hparse Hwarn.
  induction fuel as [|fuel IH]; intros buffer this r; [discriminate|].
  cbn [whileLoop]. destruct (length buffer <? 6)%nat.
  { intros [= <-] H. exact H. }
  destruct (loopBody parse warn buffer this) as [b s|b s] eqn:Hbody.
  - intros [= <-] H. apply loopBody_stops in Hbody.
    destruct Hbody as [-> _]. exact H.
  - intros Hloop H. apply (IH _ _ _ Hloop).
    revert Hbody. unfold loopBody.
    destruct (indexOf 0xAA buffer) as [[|k]|]; [| |discriminate].
    + destruct (length buffer <? 4)%nat; [discriminate|].
      destruct (length buffer <? _)%nat; [discriminate|].
      destruct (negb _); [intros [= _ <-]; exact H|].
      destruct (_ =? crc8 _).
      * destruct (_ =? 0xF0); intros [= _ <-]; [apply Hparse|]; exact H.
      * intros [= _ <-]. apply Hwarn, H.
    + intros [= _ <-]. exact H.
Qed.

Lemma decodePass_preserves {Svc : Type} (parse : list Z -> Svc -> Svc)
      (warn : Z -> Z -> Svc -> Svc) (P : Svc -> Prop) :
  (forall p s, P s -> P (parse p s)) ->
  (forall r c s, P s -> P (warn r c s)) ->
  forall buffer this, P this -> P (snd (decodePass parse warn buffer this)).
Proof.
  intros Hparse Hwarn buffer this H.
  apply (whileLoop_preserves parse warn P Hparse Hwarn (S (length buffer)) buffer this);
    [|exact H].
  apply decodePass_fuel. lia.
Qed.

Lemma receive_preserves (Date_now : nat -> Z)
      (bandPowers : list float -> FrequencyBands) (P : DeviceService -> Prop) :
  (forall b s, P s -> P (set_binaryBuffer b s)) ->
  (forall p s, P s -> P (parseEEGPayload Date_now bandPowers p s)) ->
  (forall r c s, P s -> P (console_warn r c s)) ->
  forall value this, P this -> P (receive Date_now bandPowers value this).
Proof.
  intros Hset Hparse Hwarn value this H.
  rewrite receive_decodePass. cbv zeta. apply Hset.
  apply (decodePass_preserves _ _ P Hparse Hwarn), H.
Qed.

Lemma receiveAll_preserves (Date_now : nat -> Z)
      (bandPowers : list float -> FrequencyBands) (P : DeviceService -> Prop) :
  (forall b s, P s -> P (set_binaryBuffer b s)) ->
  (forall p s, P s -> P (parseEEGPayload Date_now bandPowers p s)) ->
  (forall r c s, P s -> P (console_warn r c s)) ->
  forall chunks this, P this -> P (receiveAll Date_now bandPowers chunks this).
Proof.
  intros Hset Hparse Hwarn chunks.
  induction chunks as [|v later IH]; intros this H; [exact H|].
  change (receiveAll Date_now bandPowers (v :: later) this)
    with (receiveAll Date_now bandPowers later (receive Date_now bandPowers v this)).
  apply IH, (receive_preserves Date_now bandPowers P Hset Hparse Hwarn), H.
Qed.

(** X11. What one payload does to the snapshot.  The raw value becomes
    the last decoded sample (it stays when the payload holds no complete
    group), stamped with the clock reading taken for it; one clock reading
    is taken per sample.  With fewer than 256 samples in the window after
    the payload, bands and metrics stay as they were; otherwise they are
    those of the most recent 256 samples, whose last one is the sample
    shown as raw value. *)
Theorem payload_refreshes_snapshot :
  forall (Date_now : nat -> Z) (bandPowers : list float -> FrequencyBands)
         (payload : list Z) (this : DeviceService),
    let this' := parseEEGPayload Date_now bandPowers payload this in
    let window := rawSignalBuffer this ++ decodedSamples payload in
    let analysed := lastN FFT_SIZE window in
    value (raw (latestData this'))
      = last (decodedSamples payload) (value (raw (latestData this))) /\
    clockReads this' = (clockReads this + length payload / 3)%nat /\
    (decodedSamples payload <> [] ->
     timestamp (raw (latestData this')) = Date_now (pred (clockReads this'))) /\
    ((length window < 256)%nat ->
     bands (latestData this') = bands (latestData this) /\
     metrics (latestData this') = metrics (latestData this)) /\
    ((256 <= length window)%nat ->
     length analysed = 256%nat /\
     bands (latestData this') = bandPowers analysed /\
     metrics (latestData this') = deriveMetrics (bandPowers analysed) /\
     (decodedSamples payload <> [] ->
      last analysed 0%float = value (raw (latestData this')))).
Proof.
  intros Date_now bandPowers payload this this' window analysed.
  destruct (sampleLoop_latestData Date_now payload this) as (Hv & Hb & Hm & Hc & Ht).
  assert (E : this' =
    if (FFT_SIZE <=? length window)%nat
    then
      let this2 := analyzeSignal bandPowers analysed
                     (sampleLoop Date_now payload this) in
      if (1000 <? length window)%nat
      then set_rawSignalBuffer (lastN 500 window) this2
      else this2
    else sampleLoop Date_now payload this)
    by apply parseEEGPayload_cases.
  assert (Hraw : raw (latestData this')
                 = raw (latestData (sampleLoop Date_now payload this)) /\
                 clockReads this' = clockReads (sampleLoop Date_now payload this)).
  { rewrite E. destruct (FFT_SIZE <=? _)%nat; [|split; reflexivity].
    cbv zeta. destruct (1000 <? _)%nat; split; reflexivity. }
  destruct Hraw as [Hraw Hclock].
  split; [rewrite Hraw; exact Hv|].
  split; [rewrite Hclock; exact Hc|].
  split; [rewrite Hraw, Hclock; exact Ht|].
  split.
  - intros Hlt. rewrite E.
    destruct (Nat.leb_spec FFT_SIZE (length window)) as [Hfft|_];
      [unfold FFT_SIZE in Hfft; lia|].
    split; assumption.
  - intros Hge. rewrite E.
    destruct (Nat.leb_spec FFT_SIZE (length window)) as [_|Hfft];
      [|unfold FFT_SIZE in Hfft; lia].
    split.
    { unfold analysed. rewrite length_lastN. unfold FFT_SIZE. lia. }
    cbv zeta.
    split; [destruct (1000 <? _)%nat; reflexivity|].
    split; [destruct (1000 <? _)%nat; reflexivity|].
    intros Hne.
    transitivity (value (raw (latestData (sampleLoop Date_now payload this)))).
    2:{ destruct (1000 <? _)%nat; reflexivity. }
    rewrite Hv. unfold analysed.
    rewrite last_lastN by (unfold FFT_SIZE; lia).
    unfold window. rewrite last_app_nonempty by exact Hne.
    apply last_default, Hne.
Qed.

(** X12. The sample window stays bounded: from a window of at most 1000
    samples (the fresh and the reset service have none), no payload and no
    sequence of deliveries, whatever their bytes, leaves more than 1000
    samples in it. *)
Theorem sample_window_stays_bounded :
  forall (Date_now : nat -> Z) (bandPowers : list float -> FrequencyBands)
         (chunks : list (list Z)) (this : DeviceService),
    (length (rawSignalBuffer this) <= 1000)%nat ->
    (forall payload,
        (length (rawSignalBuffer
                   (parseEEGPayload Date_now bandPowers payload this)) <= 1000)%nat) /\
    (length (rawSignalBuffer (receiveAll Date_now bandPowers chunks this))
       <= 1000)%nat.
Proof.
  intros Date_now bandPowers chunks this H.
  split; [intros payload; apply parseEEGPayload_window_bound, H|].
  apply (receiveAll_preserves Date_now bandPowers
           (fun s => (length (rawSignalBuffer s) <= 1000)%nat)).
  - intros b s Hs. exact Hs.
  - intros p s Hs. apply parseEEGPayload_window_bound, Hs.
  - intros r c s Hs. exact Hs.
  - exact H.
Qed.

Lemma sample_window_stays_bounded_witness :
  (length (rawSignalBuffer
     (receiveAll (fun _ => 0%Z) (fun _ => bands emptyData)
        [[0xAA; 0xF0; 0x01]; [0x03; 0x12; 0x34; 0x56; 0x22; 0xBB]]%Z
        newDeviceService)) <= 1000)%nat.
Proof.
  refine (proj2 (sample_window_stays_bounded (fun _ => 0) (fun _ => bands emptyData)
                   [[0xAA; 0xF0; 0x01]; [0x03; 0x12; 0x34; 0x56; 0x22; 0xBB]]
                   newDeviceService _)).
  cbn [newDeviceService rawSignalBuffer length]. lia.
Defined.

(** X13. Serial input and simulation keep to their own state.  No
    delivery of bytes touches the simulation flag, the agitation level,
    the last acceleration or the random generator; no timer tick and no
    motion event touches the byte accumulator, the sample window or the
    console, or ends the simulation. *)
Theorem serial_input_and_simulation_are_isolated :
  forall (Date_now : nat -> Z) (Math_random : nat -> float)
         (Math_sin : float -> float) (bandPowers : list float -> FrequencyBands)
         (this : DeviceService),
    (forall chunks : list (list Z),
        let this' := receiveAll Date_now bandPowers chunks this in
        isSimulating this' = isSimulating this /\
        agitationLevel this' = agitationLevel this /\
        lastAcceleration this' = lastAcceleration this /\
        randomDraws this' = randomDraws this) /\
    (forall events : list simEvent,
        let this' := simRun Date_now Math_random Math_sin events this in
        binaryBuffer this' = binaryBuffer this /\
        rawSignalBuffer this' = rawSignalBuffer this /\
        consoleWarnings this' = consoleWarnings this /\
        isSimulating this' = isSimulating this).
Proof.
  intros Date_now Math_random Math_sin bandPowers this. split.
  - intros chunks.
    apply (receiveAll_preserves Date_now bandPowers
             (fun s => isSimulating s = isSimulating this /\
                       agitationLevel s = agitationLevel this /\
                       lastAcceleration s = lastAcceleration this /\
                       randomDraws s = randomDraws this)).
    + intros b s Hs. exact Hs.
    + intros p s (H1 & H2 & H3 & H4).
      destruct (parseEEGPayload_simulation Date_now bandPowers p s)
        as (E1 & E2 & E3 & E4 & _).
      rewrite E1, E2, E3, E4. repeat split; assumption.
    + intros r c s Hs. exact Hs.
    + repeat split; reflexivity.
  - intros events. cbv zeta. revert this.
    induction events as [|e events IH]; intros this; [repeat split; reflexivity|].
    change (simRun Date_now Math_random Math_sin (e :: events) this)
      with (simRun Date_now Math_random Math_sin events
                   (simStep Date_now Math_random Math_sin this e)).
    destruct (IH (simStep Date_now Math_random Math_sin this e))
      as (H1 & H2 & H3 & H4).
    rewrite H1, H2, H3, H4.
    destruct e as [|x y z]; cbn [simStep]; [repeat split; reflexivity|].
    unfold handleMotion.
    destruct (lastAcceleration this) as [[[lx ly] lz]|]; [|repeat split; reflexivity].
    destruct (1.0 <? _)%float; repeat split; reflexivity.
Qed.

(** ** Simulation: the agitation level *)

Module AgitationFacts.

Import MetricFacts.

#[local] Open Scope float_scope.

Lemma SFadd_signed (prec emax : Z) (x y : spec_float) :
  signedSF false x -> signedSF false y ->
  signedSF false (SFadd prec emax x y).
Proof.
  intros Hx Hy.
  destruct x as [sx|sx| |sx mx ex], y as [sy|sy| |sy my ey];
    cbn [signedSF] in Hx, Hy; try contradiction; subst;
    try (apply SFadd_finite_signed; exact I);
    try (apply SFadd_finite_signed; [exact I|reflexivity]);
    try (apply SFadd_finite_signed; [reflexivity|exact I]);
    try (apply SFadd_finite_signed; reflexivity);
    try exact I; try reflexivity.
Qed.

Lemma one_ltb_signed (d : float) :
  (1 <? d) = true -> signedSF false (Prim2SF d).
Proof.
  rewrite ltb_spec.
  replace (Prim2SF 1) with (S754_finite false 4503599627370496 (-52))
    by (vm_compute; reflexivity).
  unfold SFltb. destruct (Prim2SF d) as [s|s| |s m e]; cbn [SFcompare signedSF].
  - discriminate.
  - destruct s; [discriminate|reflexivity].
  - discriminate.
  - destruct s; [discriminate|reflexivity].
Qed.

Lemma mul_constant_signed (x c : float) :
  signedSF false (Prim2SF x) -> (0 <? c) = true -> (c <? infinity) = true ->
  signedSF false (Prim2SF (x * c)).
Proof.
  intros Hx H0 Hinf. rewrite mul_spec.
  rewrite ltb_spec, Prim2SF_zero in H0.
  rewrite ltb_spec, Prim2SF_infinity in Hinf.
  destruct (Prim2SF c) as [s|s| |s m e]; try discriminate.
  - destruct s; discriminate.
  - destruct s; [discriminate|]. apply SFmul_signed, Hx.
Qed.

Lemma Math_max_zero_signed (y : float) :
  signedSF false (Prim2SF y) -> signedSF false (Prim2SF (Math_max 0 y)).
Proof.
  intros Hy. unfold Math_max. rewrite (is_nan_signed y Hy).
  change (is_nan 0 || false) with false. cbv iota.
  destruct (0 <? y); [exact Hy|].
  destruct (y <? 0); [rewrite Prim2SF_zero; exact I|].
  change (classify 0) with PZero. cbv iota. rewrite Prim2SF_zero. exact I.
Qed.

Lemma zero_leb_signed (y : float) :
  signedSF false (Prim2SF y) -> (0 <=? y) = true.
Proof.
  intros H. rewrite leb_spec, Prim2SF_zero.
  destruct (Prim2SF y) as [s|s| |s m e]; cbn [signedSF] in H;
    try contradiction; subst; reflexivity.
Qed.

Section Steps.

Variable Date_now : nat -> Z.
Variable Math_random : nat -> float.
Variable Math_sin : float -> float.

Lemma handleMotion_agitation (x y z : float) (this : DeviceService) :
  signedSF false (Prim2SF (agitationLevel this)) ->
  signedSF false (Prim2SF (agitationLevel (handleMotion x y z this))).
Proof.
  intros H. unfold handleMotion.
  destruct (lastAcceleration this) as [[[lx ly] lz]|]; [|exact H].
  destruct (1.0 <? abs (x - lx) + abs (y - ly) + abs (z - lz)) eqn:Hd; [|exact H].
  change (signedSF false (Prim2SF
            (agitationLevel this
             + (abs (x - lx) + abs (y - ly) + abs (z - lz)) * 1.5))).
  rewrite add_spec. apply SFadd_signed; [exact H|].
  apply mul_constant_signed; [apply one_ltb_signed, Hd|reflexivity|reflexivity].
Qed.

Lemma updateSimulation_agitation (this : DeviceService) :
  signedSF false (Prim2SF (agitationLevel this)) ->
  signedSF false (Prim2SF (agitationLevel
    (updateSimulation Date_now Math_random Math_sin this))).
Proof.
  intros H.
  change (signedSF false (Prim2SF (Math_max 0 (agitationLevel this * 0.96)))).
  apply Math_max_zero_signed, mul_constant_signed; [exact H|reflexivity|reflexivity].
Qed.

Lemma simRun_agitation (events : list simEvent) :
  forall this,
    signedSF false (Prim2SF (agitationLevel this)) ->
    signedSF false (Prim2SF (agitationLevel
      (simRun Date_now Math_random Math_sin events this))).
Proof.
  induction events as [|e events IH]; intros this H; [exact H|].
  change (simRun Date_now Math_random Math_sin (e :: events) this)
    with (simRun Date_now Math_random Math_sin events
                 (simStep Date_now Math_random Math_sin this e)).
  apply IH. destruct e as [|x y z]; cbn [simStep].
  - apply updateSimulation_agitation, H.
  - apply handleMotion_agitation, H.
Qed.

End Steps.

(** X14. The agitation level is never negative and never NaN.  After
    [startSimulation] and any sequence of timer ticks and motion events,
    whatever numbers the events carry (infinite ones and NaN included), the
    level is a number [>= 0]; a motion event keeps it so, and adds nothing
    when no acceleration was seen before; a tick replaces it by
    [Math.max(0, level * 0.96)]. *)
Theorem agitation_is_never_negative_or_nan :
  forall (Date_now : nat -> Z) (Math_random : nat -> float)
         (Math_sin : float -> float) (this : DeviceService)
         (events : list simEvent),
    let run := simRun Date_now Math_random Math_sin events (startSimulation this) in
    (0 <=? agitationLevel run) = true /\ is_nan (agitationLevel run) = false /\
    (forall x y z,
        let moved := handleMotion x y z run in
        (0 <=? agitationLevel moved) = true /\
        (lastAcceleration run = None -> agitationLevel moved = agitationLevel run)) /\
    (let ticked := updateSimulation Date_now Math_random Math_sin run in
     agitationLevel ticked = Math_max 0 (agitationLevel run * 0.96) /\
     (0 <=? agitationLevel ticked) = true).
Proof.
  intros Date_now Math_random Math_sin this events run.
  assert (H : signedSF false (Prim2SF (agitationLevel run))).
  { apply simRun_agitation. exact I. }
  split; [apply zero_leb_signed, H|].
  split; [apply is_nan_signed, H|].
  split.
  - intros x y z moved. split.
    + apply zero_leb_signed, handleMotion_agitation, H.
    + intros Hnone. unfold moved, handleMotion. rewrite Hnone. reflexivity.
  - cbv zeta. split; [reflexivity|].
    apply zero_leb_signed, (updateSimulation_agitation Date_now Math_random Math_sin), H.
Qed.

End AgitationFacts.

(** ** Simulation: motion events *)

Module MotionFacts.

#[local] Open Scope float_scope.

Lemma Prim2SF_nan : Prim2SF nan = S754_nan.
Proof. vm_compute. reflexivity. Qed.

(** A NaN among the six numbers makes the summed change NaN, which is
    not above the threshold. *)
Lemma delta_nan (x y z lx ly lz : float) :
  Prim2SF x = S754_nan \/ Prim2SF lx = S754_nan ->
  (1.0 <? abs (x - lx) + abs (y - ly) + abs (z - lz)) = false.
Proof.
  intros H. rewrite ltb_spec, !add_spec, !abs_spec, !sub_spec.
  assert (E : SF64sub (Prim2SF x) (Prim2SF lx) = S754_nan).
  { destruct H as [-> | ->]; [reflexivity|]. destruct (Prim2SF x); reflexivity. }
  rewrite E. unfold SF64add. cbn [SFabs SFadd]. unfold SFltb.
  destruct (Prim2SF 1); reflexivity.
Qed.

Lemma handleMotion_nan (x y z : float) (this : DeviceService) :
  Prim2SF x = S754_nan \/
  (exists lx ly lz, lastAcceleration this = Some (lx, ly, lz) /\
                    Prim2SF lx = S754_nan) ->
  agitationLevel (handleMotion x y z this) = agitationLevel this.
Proof.
  intros H. unfold handleMotion.
  destruct (lastAcceleration this) as [[[lx ly] lz]|]; [|reflexivity].
  rewrite delta_nan; [reflexivity|].
  destruct H as [H|(lx' & ly' & lz' & [= <- <- <-] & H)]; [left|right]; exact H.
Qed.

Lemma motionReadings_total (event : DeviceMotionEvent) :
  exists x y z, motionReadings event = Some (x, y, z) /\
                isNull x = false /\ isNull y = false /\ isNull z = false.
Proof.
  unfold motionReadings. cbv zeta.
  destruct (isNull (optionalChain ax (acceleration event))
            || isNull (optionalChain ay (acceleration event))
            || isNull (optionalChain az (acceleration event))) eqn:E.
  - assert (H : forall v, isNull (orZero v) = false) by (intros []; reflexivity).
    rewrite !H. cbn [orb].
    do 3 eexists. split; [reflexivity|]. rewrite !H. repeat split.
  - rewrite E. do 3 eexists. split; [reflexivity|].
    apply orb_false_elim in E. destruct E as [E Hz].
    apply orb_false_elim in E. destruct E as [Hx Hy]. repeat split; assumption.
Qed.

End MotionFacts.

(** X15. The head of [handleMotion].  The second [null] test never
    fires: every event goes on to the bookkeeping and leaves a last
    acceleration.  An event whose [acceleration] is absent yields three
    [undefined] readings, whatever [accelerationIncludingGravity] holds:
    it adds no agitation, and neither does the event after it, which is
    compared with these readings.  The readings including gravity are used
    only when [acceleration] is present with a [null] field; a field
    missing there counts as 0. *)
Theorem motion_without_acceleration_is_lost :
  forall (event : DeviceMotionEvent) (this : DeviceService),
    motionReadings event <> None /\
    lastAcceleration (handleMotionEvent event this) <> None /\
    (acceleration event = None ->
     motionReadings event = Some (Undefined, Undefined, Undefined) /\
     agitationLevel (handleMotionEvent event this) = agitationLevel this /\
     forall next : DeviceMotionEvent,
       agitationLevel (handleMotionEvent next (handleMotionEvent event this))
         = agitationLevel this) /\
    (forall a g,
        acceleration event = Some a ->
        (isNull (ax a) || isNull (ay a) || isNull (az a)) = true ->
        accelerationIncludingGravity event = g ->
        motionReadings event
          = Some (orZero (optionalChain ax g), orZero (optionalChain ay g), orZero (optionalChain az g))).
Proof.
  intros event this.
  destruct (MotionFacts.motionReadings_total event) as (x & y & z & E & _).
  split; [rewrite E; discriminate|].
  split; [unfold handleMotionEvent; rewrite E; discriminate|].
  split.
  - intros Hacc.
    assert (Er : motionReadings event = Some (Undefined, Undefined, Undefined)).
    { unfold motionReadings. rewrite Hacc. reflexivity. }
    assert (Hfirst : handleMotionEvent event this
                     = handleMotion nan nan nan this).
    { unfold handleMotionEvent. rewrite Er. reflexivity. }
    assert (Hag : agitationLevel (handleMotion nan nan nan this)
                  = agitationLevel this).
    { apply MotionFacts.handleMotion_nan. left. exact MotionFacts.Prim2SF_nan. }
    split; [exact Er|]. split; [rewrite Hfirst; exact Hag|].
    intros next.
    destruct (MotionFacts.motionReadings_total next) as (x' & y' & z' & E' & _).
    unfold handleMotionEvent at 1. rewrite E', Hfirst.
    rewrite MotionFacts.handleMotion_nan; [exact Hag|].
    right. exists nan, nan, nan. split; [reflexivity|exact MotionFacts.Prim2SF_nan].
  - intros a g Hacc Hnull <-. unfold motionReadings. rewrite Hacc.
    cbn [optionalChain]. rewrite Hnull.
    assert (H : forall v, isNull (orZero v) = false) by (intros []; reflexivity).
    rewrite !H. reflexivity.
Qed.

(** X16. Stopping the simulation forgets the past.  Whatever state the
    service is in, [stopSimulation] empties snapshot, accumulator and
    sample window and clears agitation and last acceleration; a
    simulation started next and fed only ticks and zero motion relaxes as
    from a fresh service: the relaxation after [n] ticks is the smoothing
    iterated [n] times from the initial value, and [isMeditating] turns
    true at the eighth tick. *)
Theorem simulation_restart_forgets_the_past :
  forall (Date_now : nat -> Z) (Math_random : nat -> float)
         (Math_sin : float -> float) (this : DeviceService)
         (events : list simEvent),
    Forall zeroMotion events ->
    let stopped := stopSimulation this in
    let run := simRun Date_now Math_random Math_sin events
                      (startSimulation stopped) in
    (latestData stopped = emptyData /\ lastAcceleration stopped = None /\
     agitationLevel stopped = 0%float /\ isSimulating stopped = false /\
     binaryBuffer stopped = [] /\ rawSignalBuffer stopped = []) /\
    isSimulating run = true /\
    agitationLevel run = 0%float /\
    relaxation (metrics (latestData run)) = relaxAfter (ticks events) /\
    isMeditating (metrics (latestData run)) = negb (ticks events <? 8)%nat.
Proof.
  intros Date_now Math_random Math_sin this events Hev stopped run.
  split; [repeat split; reflexivity|].
  assert (Hcalm : calm (startSimulation stopped)).
  { split; [reflexivity|]. split; [left; reflexivity|reflexivity]. }
  destruct (SimulationFacts.simRun_calm Date_now Math_random Math_sin events _
              Hev Hcalm) as [(Hag & _ & Hflag) Hr].
  fold run in Hag, Hflag, Hr.
  assert (Hsim : forall evs s, isSimulating (simRun Date_now Math_random Math_sin evs s)
                               = isSimulating s).
  { induction evs as [|e evs IH]; intros s; [reflexivity|].
    change (simRun Date_now Math_random Math_sin (e :: evs) s)
      with (simRun Date_now Math_random Math_sin evs
                   (simStep Date_now Math_random Math_sin s e)).
    rewrite IH. destruct e as [|x y z]; cbn [simStep]; [reflexivity|].
    unfold handleMotion.
    destruct (lastAcceleration s) as [[[lx ly] lz]|]; [|reflexivity].
    destruct (1.0 <? _)%float; reflexivity. }
  split; [unfold run; rewrite Hsim; reflexivity|].
  split; [exact Hag|].
  assert (E : relaxation (metrics (latestData run)) = relaxAfter (ticks events)).
  { rewrite Hr. reflexivity. }
  split; [exact E|].
  rewrite Hflag, E.
  apply (SimulationFacts.relaxAfter_facts (ticks events)).
Qed.

Lemma simulation_restart_forgets_the_past_witness :
  relaxation (metrics (latestData
    (simRun (fun _ => 0%Z) (fun _ => 0.5%float) (fun x => x)
       [Tick; Tick]
       (startSimulation (stopSimulation
          (simRun (fun _ => 0%Z) (fun _ => 0.5%float) (fun x => x)
             [Motion 0 0 0; Motion 3 4 5; Tick; Tick; Tick]
             (startSimulation newDeviceService)))))))
    = relaxAfter 2.
Proof.
  refine (proj1 (proj2 (proj2 (proj2
    (simulation_restart_forgets_the_past (fun _ => 0%Z) (fun _ => 0.5%float)
       (fun x => x)
       (simRun (fun _ => 0%Z) (fun _ => 0.5%float) (fun x => x)
          [Motion 0 0 0; Motion 3 4 5; Tick; Tick; Tick]
          (startSimulation newDeviceService))
       [Tick; Tick] _))))).
  repeat (apply Forall_cons; [left; reflexivity|]). apply Forall_nil.
Defined.

(** ** Band powers *)

Module BandFacts.

Import MetricFacts AgitationFacts.

#[local] Open Scope float_scope.

Lemma band_limits :
  Math_floor (0.5 / res) = Some 0%Z /\ Math_ceil (4 / res) = Some 5%Z /\
  Math_floor (4 / res) = Some 4%Z /\ Math_ceil (8 / res) = Some 9%Z /\
  Math_floor (8 / res) = Some 8%Z /\ Math_ceil (14 / res) = Some 15%Z /\
  Math_floor (14 / res) = Some 14%Z /\ Math_ceil (30 / res) = Some 31%Z /\
  Math_floor (30 / res) = Some 30%Z /\ Math_ceil (40 / res) = Some 41%Z.
Proof. vm_compute. repeat split; reflexivity. Qed.

Lemma element_nth (spectrum : list float) (i : nat) :
  element spectrum (Z.of_nat i) = nth i spectrum nan.
Proof.
  unfold element. destruct (Z.ltb_spec (Z.of_nat i) 0); [lia|].
  rewrite Nat2Z.id. reflexivity.
Qed.

(** The loop from bin [i] over [fuel] bins that all exist. *)
Lemma binLoop_sum (spectrum : list float) (fuel : nat) :
  forall (i : nat) (maxBin : Z) (sum : float) (count : Z),
    (i + fuel <= length spectrum)%nat -> maxBin = (Z.of_nat (i + fuel) - 1)%Z ->
    binLoop fuel (Z.of_nat i) maxBin spectrum sum count =
      (fold_left PrimFloat.add (firstn fuel (skipn i spectrum)) sum,
       (count + Z.of_nat fuel)%Z).
Proof.
  induction fuel as [|fuel IH]; intros i maxBin sum count Hlen Hmax.
  - cbn [binLoop firstn fold_left]. f_equal. cbn. lia.
  - cbn [binLoop].
    destruct (Z.leb_spec (Z.of_nat i) maxBin) as [_|H]; [|lia].
    destruct (Z.ltb_spec (Z.of_nat i) (Z.of_nat (length spectrum))) as [_|H]; [|lia].
    cbn [andb].
    replace (Z.of_nat i + 1)%Z with (Z.of_nat (S i)) by lia.
    rewrite (IH (S i)) by lia. rewrite element_nth.
    assert (E : skipn i spectrum = nth i spectrum nan :: skipn (S i) spectrum).
    { clear - Hlen. revert i Hlen.
      induction spectrum as [|a l IHl]; intros i Hlen; [cbn [length] in Hlen; lia|].
      destruct i as [|i]; [reflexivity|].
      cbn [skipn nth]. apply IHl. cbn [length] in Hlen. lia. }
    rewrite E. cbn [firstn fold_left]. f_equal. lia.
Qed.

Lemma getPowerBins_mean (spectrum : list float) (from to : nat) (minBin maxBin : Z) :
  minBin = Z.of_nat from -> maxBin = (Z.of_nat to - 1)%Z ->
  (from < to)%nat -> (to <= length spectrum)%nat ->
  getPowerBins minBin maxBin spectrum = binMean from to spectrum.
Proof.
  intros -> -> Hlt Hlen. unfold getPowerBins, binMean.
  replace (Z.to_nat (Z.of_nat to - 1 - Z.of_nat from + 1)) with (to - from)%nat by lia.
  rewrite (binLoop_sum spectrum (to - from) from) by lia.
  destruct (Z.ltb_spec 0 (0 + Z.of_nat (to - from))) as [_|H]; [|lia].
  rewrite Z.add_0_l. reflexivity.
Qed.

Lemma leb_zero_signed (v : float) :
  (0 <=? v) = true -> signedSF false (Prim2SF v).
Proof.
  rewrite leb_spec, Prim2SF_zero.
  destruct (Prim2SF v) as [s|s| |s m e]; cbn [signedSF]; try exact (fun _ => I).
  - destruct s; [discriminate|reflexivity].
  - discriminate.
  - destruct s; [discriminate|reflexivity].
Qed.

Lemma fold_add_signed (l : list float) :
  forall acc,
    Forall (fun v => (0 <=? v) = true) l -> signedSF false (Prim2SF acc) ->
    signedSF false (Prim2SF (fold_left PrimFloat.add l acc)).
Proof.
  induction l as [|v l IH]; intros acc Hl Hacc; [exact Hacc|].
  inversion Hl as [|? ? Hv Hrest]; subst.
  cbn [fold_left]. apply IH; [exact Hrest|].
  rewrite add_spec. apply SFadd_signed; [exact Hacc|apply leb_zero_signed, Hv].
Qed.

Lemma Forall_slice {A : Type} (P : A -> Prop) (from n : nat) (l : list A) :
  Forall P l -> Forall P (firstn n (skipn from l)).
Proof.
  rewrite !Forall_forall. intros H x Hx. apply H.
  rewrite <- (firstn_skipn from l). apply in_or_app. right.
  rewrite <- (firstn_skipn n (skipn from l)). apply in_or_app. left. exact Hx.
Qed.

Lemma SFdiv_by_finite (x : spec_float) (m : positive) (e : Z) :
  signedSF false x ->
  signedSF false (SFdiv prec emax x (S754_finite false m e)).
Proof.
  intros Hx. destruct x as [s|s| |s mx ex]; cbn [signedSF] in Hx;
    try contradiction.
  - exact I.
  - subst. reflexivity.
  - subst. apply SFdiv_signed; reflexivity.
Qed.

Lemma binMean_signed (from to : nat) (spectrum : list float) :
  (0 < to - from <= 32)%nat ->
  Forall (fun v => (0 <=? v) = true) spectrum ->
  (0 <=? binMean from to spectrum) = true /\
  is_nan (binMean from to spectrum) = false.
Proof.
  intros Hn Hsp.
  assert (H : signedSF false (Prim2SF (binMean from to spectrum))).
  { unfold binMean. rewrite div_spec.
    assert (Hd : exists m e, Prim2SF (number_of_int (Z.of_nat (to - from)))
                             = S754_finite false m e).
    { generalize (to - from)%nat Hn. clear. intros n Hn.
      do 33 (destruct n as [|n]; [try lia; vm_compute; eauto|]). lia. }
    destruct Hd as (m & e & ->).
    apply SFdiv_by_finite, fold_add_signed; [apply Forall_slice, Hsp|].
    rewrite Prim2SF_zero. exact I. }
  split; [apply zero_leb_signed, H|apply is_nan_signed, H].
Qed.

End BandFacts.

(** The band limits fall on whole bins of a spectrum that is long enough. *)
Lemma bandsOfSpectrum_means (spectrum : list float) :
  (42 <= length spectrum)%nat ->
  bandsOfSpectrum spectrum =
    Some {| delta := binMean 0 6 spectrum;
            theta := binMean 4 10 spectrum;
            alpha := binMean 8 16 spectrum;
            beta := binMean 14 32 spectrum;
            gamma := binMean 30 42 spectrum |}.
Proof.
  intros Hlen.
  destruct BandFacts.band_limits
    as (L0 & L1 & L2 & L3 & L4 & L5 & L6 & L7 & L8 & L9).
  unfold bandsOfSpectrum, getPower.
  rewrite L0, L1, L2, L3, L4, L5, L6, L7, L8, L9.
  rewrite (BandFacts.getPowerBins_mean spectrum 0 6 0 5) by lia.
  rewrite (BandFacts.getPowerBins_mean spectrum 4 10 4 9) by lia.
  rewrite (BandFacts.getPowerBins_mean spectrum 8 16 8 15) by lia.
  rewrite (BandFacts.getPowerBins_mean spectrum 14 32 14 31) by lia.
  rewrite (BandFacts.getPowerBins_mean spectrum 30 42 30 41) by lia.
  reflexivity.
Qed.

(** X17. The five bands of [analyzeSignal] on the 0.9765625 Hz grid.  On
    a spectrum of at least 42 bins (the analysis has 128) the band powers
    are the left-to-right means of the bins 0..5 (delta), 4..9 (theta),
    8..15 (alpha), 14..31 (beta) and 30..41 (gamma): neighbouring bands
    share two bins, and delta takes in the bin 0.  On an empty spectrum
    every band is 0. *)
Theorem band_powers_are_bin_means :
  forall spectrum : list float,
    (42 <= length spectrum)%nat ->
    res = 0.9765625%float /\
    bandsOfSpectrum spectrum =
      Some {| delta := binMean 0 6 spectrum;
              theta := binMean 4 10 spectrum;
              alpha := binMean 8 16 spectrum;
              beta := binMean 14 32 spectrum;
              gamma := binMean 30 42 spectrum |} /\
    bandsOfSpectrum [] = Some (bands emptyData).
Proof.
  intros spectrum Hlen.
  split; [reflexivity|].
  split; [apply bandsOfSpectrum_means, Hlen|].
  vm_compute. reflexivity.
Qed.

Lemma band_powers_are_bin_means_witness :
  bandsOfSpectrum (repeat 1%float 128) =
    Some {| delta := 1%float; theta := 1%float; alpha := 1%float;
            beta := 1%float; gamma := 1%float |}.
Proof.
  refine (eq_trans (proj1 (proj2 (band_powers_are_bin_means (repeat 1%float 128) _))) _).
  - rewrite repeat_length. lia.
  - vm_compute. reflexivity.
Defined.

(** X18. Band powers of a spectrum without negative or NaN entries are
    themselves neither negative nor NaN. *)
Theorem band_powers_are_nonnegative :
  forall (spectrum : list float) (b : FrequencyBands),
    (42 <= length spectrum)%nat ->
    Forall (fun v => (0 <=? v)%float = true) spectrum ->
    bandsOfSpectrum spectrum = Some b ->
    ((0 <=? delta b) && (0 <=? theta b) && (0 <=? alpha b) && (0 <=? beta b)
     && (0 <=? gamma b))%float = true /\
    (is_nan (delta b) || is_nan (theta b) || is_nan (alpha b) || is_nan (beta b)
     || is_nan (gamma b)) = false.
Proof.
  intros spectrum b Hlen Hsp Hb.
  pose proof (bandsOfSpectrum_means spectrum Hlen) as E.
  rewrite E in Hb. injection Hb as <-. cbn [delta theta alpha beta gamma].
  destruct (BandFacts.binMean_signed 0 6 spectrum ltac:(lia) Hsp) as [-> ->].
  destruct (BandFacts.binMean_signed 4 10 spectrum ltac:(lia) Hsp) as [-> ->].
  destruct (BandFacts.binMean_signed 8 16 spectrum ltac:(lia) Hsp) as [-> ->].
  destruct (BandFacts.binMean_signed 14 32 spectrum ltac:(lia) Hsp) as [-> ->].
  destruct (BandFacts.binMean_signed 30 42 spectrum ltac:(lia) Hsp) as [-> ->].
  split; reflexivity.
Qed.

Lemma band_powers_are_nonnegative_witness :
  bandsOfSpectrum (repeat 1%float 128)
    = Some {| delta := 1%float; theta := 1%float; alpha := 1%float;
              beta := 1%float; gamma := 1%float |} /\
  (is_nan (delta {| delta := 1%float; theta := 1%float; alpha := 1%float;
                    beta := 1%float; gamma := 1%float |})
   || is_nan 1%float || is_nan 1%float || is_nan 1%float || is_nan 1%float) = false.
Proof.
  assert (E : bandsOfSpectrum (repeat 1%float 128)
              = Some {| delta := 1%float; theta := 1%float; alpha := 1%float;
                        beta := 1%float; gamma := 1%float |})
    by (vm_compute; reflexivity).
  split; [exact E|].
  refine (proj2 (band_powers_are_nonnegative (repeat 1%float 128)
    {| delta := 1%float; theta := 1%float; alpha := 1%float;
       beta := 1%float; gamma := 1%float |} _ _ E)).
  - rewrite repeat_length. lia.
  - apply Forall_forall. intros v Hv. apply repeat_spec in Hv. subst v. reflexivity.
Defined.

(** ** Magnitudes *)

Module MagnitudeFacts.

Import MetricFacts AgitationFacts.

#[local] Open Scope float_scope.

Lemma SFmul_square (prec emax : Z) (x : spec_float) :
  x <> S754_nan -> signedSF false (SFmul prec emax x x).
Proof.
  intros H. destruct x as [s|s| |s m e]; cbn [SFmul signedSF].
  - exact I.
  - destruct s; reflexivity.
  - congruence.
  - replace (xorb s s) with false by (destruct s; reflexivity).
    apply binary_round_aux_signed. lia.
Qed.

Lemma SFsqrt_signed (prec emax : Z) (x : spec_float) :
  signedSF false x -> signedSF false (SFsqrt prec emax x).
Proof.
  intros H. destruct x as [s|s| |s m e]; cbn [signedSF] in H;
    try contradiction; subst; cbn [SFsqrt signedSF]; try exact I; try reflexivity.
  unfold SFsqrt_core_binary. cbv zeta.
  set (e' := Z.min _ _).
  set (m' := match (e - 2 * e')%Z with
             | 0%Z => Z.pos m
             | Z.pos _ => Z.shiftl (Z.pos m) (e - 2 * e')
             | Z.neg _ => 0%Z
             end).
  assert (Hm : (0 <= m')%Z).
  { unfold m'. destruct (e - 2 * e')%Z; [lia| |lia].
    apply Z.shiftl_nonneg. lia. }
  pose proof (Z.sqrtrem_spec m' Hm) as Hs.
  destruct (Z.sqrtrem m') as [q r].
  apply binary_round_aux_signed. lia.
Qed.

Lemma not_nan_spec (x : float) : is_nan x = false -> Prim2SF x <> S754_nan.
Proof.
  unfold is_nan. rewrite eqb_spec. intros H E. rewrite E in H. discriminate H.
Qed.

Lemma magnitude_signed (re im : float) :
  is_nan re = false -> is_nan im = false ->
  (0 <=? magnitude re im) = true.
Proof.
  intros Hre Him. apply zero_leb_signed. unfold magnitude.
  rewrite sqrt_spec. apply SFsqrt_signed.
  rewrite add_spec. apply SFadd_signed; rewrite mul_spec;
    apply SFmul_square, not_nan_spec; assumption.
Qed.

End MagnitudeFacts.

(** X19. The magnitudes [calculateSpectrum] returns: one for each index
    below half the length (rounded up), and when the transformed arrays
    hold no NaN, none of them is negative or NaN. *)
Theorem spectrum_is_nonnegative :
  forall real imag : list float,
    Forall (fun v => is_nan v = false) real ->
    Forall (fun v => is_nan v = false) imag ->
    length imag = length real ->
    let spectrum := magnitudes real imag in
    length spectrum = ((length real + 1) / 2)%nat /\
    Forall (fun v => (0 <=? v)%float = true /\ is_nan v = false) spectrum.
Proof.
  intros real imag Hreal Himag Hlen spectrum.
  split; [unfold spectrum, magnitudes; rewrite length_map, length_seq; reflexivity|].
  unfold spectrum, magnitudes. apply Forall_forall. intros v Hv.
  apply in_map_iff in Hv. destruct Hv as (i & <- & Hi).
  apply in_seq in Hi.
  assert (Hlt : (i < length real)%nat).
  { destruct Hi as [_ Hi]. cbn [Nat.add] in Hi.
    destruct (length real) as [|n] eqn:E; [cbn in Hi; lia|].
    apply (Nat.lt_le_trans _ _ _ Hi).
    apply Nat.Div0.div_le_upper_bound. lia. }
  rewrite Forall_forall in Hreal, Himag.
  assert (H : (0 <=? magnitude (nth i real nan) (nth i imag nan))%float = true).
  { apply MagnitudeFacts.magnitude_signed.
    - apply Hreal, nth_In, Hlt.
    - apply Himag, nth_In. rewrite Hlen. exact Hlt. }
  split; [exact H|].
  apply MetricFacts.is_nan_signed, BandFacts.leb_zero_signed, H.
Qed.

Lemma spectrum_is_nonnegative_witness :
  Forall (fun v => (0 <=? v)%float = true /\ is_nan v = false)
         (magnitudes (repeat (-3)%float 256) (repeat 4%float 256)).
Proof.
  refine (proj2 (spectrum_is_nonnegative
    (repeat (-3)%float 256) (repeat 4%float 256) _ _ _)).
  - apply Forall_forall. intros v Hv. apply repeat_spec in Hv. subst v. reflexivity.
  - apply Forall_forall. intros v Hv. apply repeat_spec in Hv. subst v. reflexivity.
  - rewrite !repeat_length. reflexivity.
Defined.

(** ** The reordering pass of the FFT *)

Module ReorderFacts.

Lemma setNth_map {A B : Type} (f : A -> B) (i : nat) (v : A) (l : list A) :
  setNth i (f v) (map f l) = map f (setNth i v l).
Proof.
  revert i. induction l as [|a l IH]; intros i; [reflexivity|].
  destruct i as [|i]; cbn [setNth map]; [reflexivity|]. rewrite IH. reflexivity.
Qed.

Lemma swap_map {A B : Type} (f : A -> B) (d : A) (i j : nat) (l : list A) :
  swap (f d) i j (map f l) = map f (swap d i j l).
Proof.
  unfold swap. rewrite !map_nth, !setNth_map. reflexivity.
Qed.

(** The pass moves the elements without looking at them. *)
Lemma reorderLoop_map {A B : Type} (f : A -> B) (d : A) (steps : nat) :
  forall (i : nat) (j N : Z) (l : list A),
    reorderLoop (f d) steps i j N (map f l)
      = option_map (map f) (reorderLoop d steps i j N l).
Proof.
  induction steps as [|steps IH]; intros i j N l; [reflexivity|].
  cbn [reorderLoop]. destruct (Z.even N); [|reflexivity].
  destruct (carryLoop (S (Z.to_nat N)) j (N / 2)) as [[j' k]|]; [|reflexivity].
  destruct (Z.of_nat i <? j).
  - rewrite swap_map. apply IH.
  - apply IH.
Qed.

Lemma bitReversal_map {A B : Type} (f : A -> B) (d : A) (l : list A) :
  bitReversal (f d) (map f l) = option_map (map f) (bitReversal d l).
Proof. unfold bitReversal. rewrite length_map. apply reorderLoop_map. Qed.

Lemma list_as_map_nth {A : Type} (d : A) (l : list A) :
  l = map (fun i => nth i l d) (seq 0 (length l)).
Proof.
  induction l as [|a l IH]; [reflexivity|].
  cbn [length seq map nth]. f_equal.
  rewrite <- seq_shift, map_map. exact IH.
Qed.

Lemma bitReversal_indices :
  bitReversal 256%nat (seq 0 256) = Some (map reversedIndex (seq 0 256)).
Proof. vm_compute. reflexivity. Qed.

Lemma reversedIndex_involutive (i : nat) :
  (i < 256)%nat -> (reversedIndex i < 256)%nat /\ reversedIndex (reversedIndex i) = i.
Proof.
  intros Hi.
  assert (H : forallb (fun i => (reversedIndex i <? 256)%nat
                                && (reversedIndex (reversedIndex i) =? i)%nat)
                      (seq 0 256) = true) by (vm_compute; reflexivity).
  rewrite forallb_forall in H. specialize (H i).
  rewrite in_seq in H. specialize (H ltac:(lia)).
  apply andb_prop in H. destruct H as [H1 H2].
  apply Nat.ltb_lt in H1. apply Nat.eqb_eq in H2. split; assumption.
Qed.

Lemma bitReversal_256 {A : Type} (d : A) (l : list A) :
  length l = 256%nat ->
  bitReversal d l = Some (map (fun i => nth (reversedIndex i) l d) (seq 0 256)).
Proof.
  intros Hlen.
  rewrite (list_as_map_nth d l) at 1. rewrite Hlen.
  replace d with ((fun i => nth i l d) 256%nat) at 1
    by (apply nth_overflow; lia).
  rewrite (bitReversal_map (fun i => nth i l d) 256%nat (seq 0 256)).
  rewrite bitReversal_indices. cbn [option_map]. rewrite map_map. reflexivity.
Qed.

End ReorderFacts.

(** X20. The reordering pass of [calculateSpectrum] on 256 elements is the
    bit-reversal permutation: it ends (the counters stay integers), the
    element at index [i] comes from the index whose eight bits are those
    of [i] in reverse order, and a second pass restores the array. *)
Theorem reordering_is_bit_reversal :
  forall (A : Type) (d : A) (l : list A),
    length l = 256%nat ->
    exists l',
      bitReversal d l = Some l' /\ length l' = 256%nat /\
      (forall i, (i < 256)%nat -> nth i l' d = nth (reversedIndex i) l d) /\
      bitReversal d l' = Some l.
Proof.
  intros A d l Hlen.
  set (l' := map (fun i => nth (reversedIndex i) l d) (seq 0 256)).
  assert (Hlen' : length l' = 256%nat)
    by (unfold l'; rewrite length_map, length_seq; reflexivity).
  assert (Hnth : forall i, (i < 256)%nat -> nth i l' d = nth (reversedIndex i) l d).
  { intros i Hi. unfold l'.
    rewrite (nth_indep _ d (nth (reversedIndex 0) l d))
      by (rewrite length_map, length_seq; exact Hi).
    change (nth (reversedIndex 0) l d)
      with ((fun i => nth (reversedIndex i) l d) O).
    rewrite map_nth, seq_nth by exact Hi. reflexivity. }
  exists l'. split; [apply ReorderFacts.bitReversal_256, Hlen|].
  split; [exact Hlen'|]. split; [exact Hnth|].
  rewrite (ReorderFacts.bitReversal_256 d l' Hlen'). f_equal.
  transitivity (map (fun i => nth i l d) (seq 0 256)).
  - apply map_ext_in. intros i Hi. apply in_seq in Hi.
    destruct (ReorderFacts.reversedIndex_involutive i ltac:(lia)) as [Hr Hinv].
    rewrite (Hnth _ Hr), Hinv. reflexivity.
  - rewrite <- Hlen. symmetry. apply ReorderFacts.list_as_map_nth.
Qed.

Lemma reordering_is_bit_reversal_witness :
  exists l',
    bitReversal 0 (map Z.of_nat (seq 0 256)) = Some l' /\ length l' = 256%nat /\
    (forall i, (i < 256)%nat ->
       nth i l' 0 = nth (reversedIndex i) (map Z.of_nat (seq 0 256)) 0) /\
    bitReversal 0 l' = Some (map Z.of_nat (seq 0 256)).
Proof.
  apply (reordering_is_bit_reversal Z 0 (map Z.of_nat (seq 0 256))).
  rewrite length_map, length_seq. reflexivity.
Defined.

(** ** Metrics: the flag and the clamp *)

Module ClampFacts.

Import MetricFacts.

#[local] Open Scope float_scope.

Lemma Prim2SF_one : Prim2SF 1 = S754_finite false 4503599627370496 (-52).
Proof. vm_compute. reflexivity. Qed.

Lemma Prim2SF_threshold :
  Prim2SF MEDITATION_THRESHOLD = S754_finite false 7656119366529843 (-53).
Proof. vm_compute. reflexivity. Qed.

Lemma mantissa_antisym (m : positive) :
  Pos.compare_cont Eq 4503599627370496 m
    = CompOpp (Pos.compare_cont Eq m 4503599627370496).
Proof. symmetry. apply (Pos.compare_cont_antisym m 4503599627370496 Eq). Qed.

Lemma Math_max_zero (y : float) :
  signedSF false (Prim2SF y) ->
  ((exists s, Prim2SF y = S754_zero s) /\ Math_max 0 y = 0) \/
  (nonzeroSF false (Prim2SF y) /\ Math_max 0 y = y).
Proof.
  intros Hy. unfold Math_max. rewrite (is_nan_signed y Hy).
  change (is_nan 0 || false) with false. cbv iota.
  rewrite !ltb_spec, Prim2SF_zero. unfold SFltb.
  destruct (Prim2SF y) as [s|s| |s m e] eqn:E; cbn [signedSF] in Hy;
    try contradiction; cbn [SFcompare].
  - left. split; [exists s; reflexivity|]. reflexivity.
  - subst s. right. split; reflexivity.
  - subst s. right. split; reflexivity.
Qed.

(** Above 1 is above the threshold. *)
Lemma above_one_above_threshold (y : float) :
  (1 <? y) = true -> (MEDITATION_THRESHOLD <? y) = true.
Proof.
  rewrite !ltb_spec, Prim2SF_one, Prim2SF_threshold. unfold SFltb.
  destruct (Prim2SF y) as [s|s| |s m e]; cbn [SFcompare]; try discriminate.
  - destruct s; [discriminate|reflexivity].
  - destruct s; [discriminate|].
    destruct (Z.compare_spec (-52) e) as [He|He|He]; try discriminate.
    + subst e. change (-53 ?= -52)%Z with Lt. intros _. reflexivity.
    + intros _. destruct (Z.compare_spec (-53) e) as [He'|He'|He'];
        [lia|reflexivity|lia].
Qed.

Lemma Math_min_one (y : float) :
  nonzeroSF false (Prim2SF y) ->
  ((1 <=? y) = true /\ Math_min 1 y = 1 /\ (MEDITATION_THRESHOLD <? y) = true) \/
  ((y <? 1) = true /\ Math_min 1 y = y).
Proof.
  intros Hy.
  assert (Hs : signedSF false (Prim2SF y))
    by (destruct (Prim2SF y); cbn in *; tauto).
  unfold Math_min. rewrite (is_nan_signed y Hs).
  change (is_nan 1 || false) with false. cbv iota.
  destruct (1 <? y) eqn:H1.
  - left. split; [apply ltb_leb, H1|]. split; [reflexivity|].
    apply above_one_above_threshold, H1.
  - destruct (y <? 1) eqn:H2; [right; split; reflexivity|].
    left. change (classify 1) with PNormal. cbv iota.
    revert H1 H2. rewrite leb_spec, !ltb_spec, Prim2SF_one, Prim2SF_threshold.
    unfold SFltb, SFleb.
    destruct (Prim2SF y) as [s|s| |s m e]; cbn [nonzeroSF] in Hy;
      try contradiction; subst s; cbn [SFcompare]; try discriminate.
    destruct (Z.compare_spec (-52) e) as [He|He|He]; try discriminate.
    + subst e. rewrite ?Z.compare_refl. change (-53 ?= -52)%Z with Lt.
      rewrite (mantissa_antisym m).
      destruct (Pos.compare_cont Eq m 4503599627370496); cbn [CompOpp];
        try discriminate.
      intros _ _. repeat split.
    + destruct (Z.compare_spec e (-52)) as [He'|He'|He']; try lia;
        intros _ H; discriminate H.
Qed.

Lemma threshold_above_zero (y : float) :
  (exists s, Prim2SF y = S754_zero s) -> (MEDITATION_THRESHOLD <? y) = false.
Proof.
  intros (s & E). rewrite ltb_spec, Prim2SF_threshold, E. reflexivity.
Qed.

Lemma clamp_cases (y : float) :
  signedSF false (Prim2SF y) ->
  let r := Math_min 1 (Math_max 0 y) in
  (MEDITATION_THRESHOLD <? r) = (MEDITATION_THRESHOLD <? y) /\
  ((exists s, Prim2SF y = S754_zero s) -> r = 0) /\
  ((1 <? y) = true -> r = 1) /\
  ((0 <? y) = true -> (y <? 1) = true -> r = y).
Proof.
  intros Hy r. subst r.
  destruct (Math_max_zero y Hy) as [[Hz ->]|[Hnz ->]].
  - replace (Math_min 1 0) with 0 by (vm_compute; reflexivity).
    rewrite (threshold_above_zero y Hz).
    split; [reflexivity|]. split; [reflexivity|].
    destruct Hz as (s & E). split.
    + rewrite ltb_spec, Prim2SF_one, E. discriminate.
    + rewrite ltb_spec, Prim2SF_zero, E. discriminate.
  - assert (Hnotzero : ~ exists s, Prim2SF y = S754_zero s).
    { intros (s & E). rewrite E in Hnz. exact Hnz. }
    destruct (Math_min_one y Hnz) as [(Hge & -> & Hthr)|(Hlt & ->)].
    + split; [rewrite Hthr; reflexivity|].
      split; [intros H; contradiction|].
      split; [reflexivity|].
      intros _ Hlt. exfalso. revert Hge Hlt.
      rewrite leb_spec, ltb_spec. unfold SFleb, SFltb.
      rewrite Prim2SF_one.
      destruct (Prim2SF y) as [s|s| |s m e]; cbn [nonzeroSF] in Hnz;
        try contradiction; subst s; cbn [SFcompare]; try discriminate.
      destruct (Z.compare_spec (-52) e) as [He|He|He];
        destruct (Z.compare_spec e (-52)) as [He'|He'|He']; try lia;
        try discriminate.
      subst e. rewrite (mantissa_antisym m).
      destruct (Pos.compare_cont Eq m 4503599627370496);
        cbn [CompOpp]; discriminate.
    + split; [reflexivity|]. split; [intros H; contradiction|].
      split; [|reflexivity].
      intros Hgt. exfalso. revert Hgt Hlt.
      rewrite !ltb_spec. unfold SFltb. rewrite Prim2SF_one.
      destruct (Prim2SF y) as [s|s| |s m e]; cbn [nonzeroSF] in Hnz;
        try contradiction; subst s; cbn [SFcompare]; try discriminate.
      destruct (Z.compare_spec (-52) e) as [He|He|He];
        destruct (Z.compare_spec e (-52)) as [He'|He'|He']; try lia;
        try discriminate.
      subst e. rewrite (mantissa_antisym m).
      destruct (Pos.compare_cont Eq m 4503599627370496);
        cbn [CompOpp]; discriminate.
Qed.

End ClampFacts.

(** X21. Clamping does not change the meditation flag.  For finite,
    non-negative band powers [isMeditating] is the threshold test on the
    scaled ratio [alpha / (beta + theta + eps) * 0.8] itself; a scaled ratio
    above 1 gives relaxation 1 and the flag, one strictly between 0 and 1
    is the relaxation as it is, and without alpha power the relaxation is
    0 and the flag is off. *)
Theorem meditation_flag_ignores_the_clamp :
  forall b : FrequencyBands,
    bandPower (alpha b) -> bandPower (beta b) -> bandPower (theta b) ->
    let m := deriveMetrics b in
    let scaled := (rawRelaxationRatio b * 0.8)%float in
    isMeditating m = (MEDITATION_THRESHOLD <? scaled)%float /\
    ((1 <? scaled)%float = true -> relaxation m = 1%float /\ isMeditating m = true) /\
    ((0 <? scaled)%float = true -> (scaled <? 1)%float = true ->
     relaxation m = scaled) /\
    (alpha b = 0%float -> relaxation m = 0%float /\ isMeditating m = false).
Proof.
  intros b Ha Hb Ht m scaled.
  destruct (MetricFacts.scaled_ratio_signed (alpha b) (beta b) (theta b) Ha Hb Ht)
    as [Hd Hs].
  destruct (ClampFacts.clamp_cases scaled Hs) as (Hflag & Hzero & Hone & Hmid).
  change (relaxation m) with (Math_min 1 (Math_max 0 scaled)).
  change (isMeditating m)
    with (MEDITATION_THRESHOLD <? Math_min 1 (Math_max 0 scaled))%float.
  split; [exact Hflag|]. split.
  - intros H. split; [apply Hone, H|].
    rewrite Hflag. apply ClampFacts.above_one_above_threshold, H.
  - split; [exact Hmid|].
    intros Halpha.
    assert (Hz : exists s, Prim2SF scaled = S754_zero s).
    { unfold scaled, rawRelaxationRatio. rewrite Halpha, mul_spec, div_spec.
      rewrite MetricFacts.Prim2SF_zero.
      replace (Prim2SF 0.8) with (S754_finite false 7205759403792794 (-53))
        by (vm_compute; reflexivity).
      destruct (Prim2SF (beta b + theta b + eps)) as [s|s| |s md ed];
        cbn [nonzeroSF] in Hd; try contradiction; subst s;
        eexists; reflexivity. }
    split; [apply Hzero, Hz|].
    rewrite Hflag. apply ClampFacts.threshold_above_zero, Hz.
Qed.

Lemma meditation_flag_ignores_the_clamp_witness :
  isMeditating (deriveMetrics
    {| delta := 1; theta := 2; alpha := 30; beta := 3; gamma := 1 |}) = true.
Proof.
  refine (eq_trans (proj1 (meditation_flag_ignores_the_clamp
    {| delta := 1; theta := 2; alpha := 30; beta := 3; gamma := 1 |} _ _ _)) _).
  - split; reflexivity.
  - split; reflexivity.
  - split; reflexivity.
  - vm_compute. reflexivity.
Defined.

(** ** Handshake: the frame and the decoder *)

Module HandshakeLoop.

Import Handshake HandshakeFacts.
Import String.

Lemma cleanId_chars (s : string) :
  cleanId s =
    String (charAt 0 (removeNonDigits s)) (String (charAt 1 (removeNonDigits s))
      (String (charAt 2 (removeNonDigits s)) (String (charAt 3 (removeNonDigits s))
        (String (charAt 4 (removeNonDigits s)) (String (charAt 5 (removeNonDigits s))
          EmptyString))))).
Proof. apply pad_and_truncate. Qed.

Lemma packedByte_range (s : string) (k : nat) :
  is_byte (packedByte (removeNonDigits s) k) /\
  packedByte (removeNonDigits s) k mod 256 = packedByte (removeNonDigits s) k.
Proof.
  apply digit_pair_byte; apply digit_hexValue, charAt_digit.
Qed.

(** The identifier bytes of the frame. *)
Lemma handshakeFrame_frame (s : string) :
  handshakeFrame s =
    frame 0xB0 0xB0 [packedByte (removeNonDigits s) 0;
                     packedByte (removeNonDigits s) 1;
                     packedByte (removeNonDigits s) 2].
Proof.
  set (d := removeNonDigits s).
  assert (Hd : forall i, isDigit (charAt i d) = true)
    by (intros i; apply charAt_digit).
  assert (H1 : parseInt16 (sliceStr 0 2 (cleanId s)) = Some (packedByte d 0)).
  { rewrite cleanId_chars. apply parseInt16_two_digits; apply Hd. }
  assert (H2 : parseInt16 (sliceStr 2 4 (cleanId s)) = Some (packedByte d 1)).
  { rewrite cleanId_chars. apply parseInt16_two_digits; apply Hd. }
  assert (H3 : parseInt16 (sliceStr 4 6 (cleanId s)) = Some (packedByte d 2)).
  { rewrite cleanId_chars. apply parseInt16_two_digits; apply Hd. }
  destruct (packedByte_range s 0) as [B1 M1], (packedByte_range s 1) as [B2 M2],
           (packedByte_range s 2) as [B3 M3].
  fold d in B1, M1, B2, M2, B3, M3.
  assert (Hcrc : is_byte (crc8 [0xB0; 0xB0; 0x03; packedByte d 0; packedByte d 1;
                                packedByte d 2])).
  { apply crc8_range. unfold bytes.
    repeat (apply Forall_cons; [first [assumption | unfold is_byte; lia]|]).
    apply Forall_nil. }
  unfold handshakeFrame. rewrite H1, H2, H3. cbn [toInt].
  unfold toUint8Array, frame. cbn [app map List.length Z.of_nat Pos.of_succ_nat
                                   Pos.succ].
  rewrite M1, M2, M3, (Z.mod_small _ 256 Hcrc). reflexivity.
Qed.

(** Six digits are a cleaned identifier already. *)
Lemma cleanId_six_digits (c0 c1 c2 c3 c4 c5 : ascii) :
  isDigit c0 = true -> isDigit c1 = true -> isDigit c2 = true ->
  isDigit c3 = true -> isDigit c4 = true -> isDigit c5 = true ->
  cleanId (String c0 (String c1 (String c2 (String c3 (String c4 (String c5
             EmptyString))))))
    = String c0 (String c1 (String c2 (String c3 (String c4 (String c5
             EmptyString))))).
Proof.
  intros H0 H1 H2 H3 H4 H5. unfold cleanId. cbn [removeNonDigits].
  rewrite H0, H1, H2, H3, H4, H5. reflexivity.
Qed.

Lemma digitValue_injective (a b : ascii) : digitValue a = digitValue b -> a = b.
Proof.
  unfold digitValue. intros H.
  assert (E : nat_of_ascii a = nat_of_ascii b) by lia.
  rewrite <- (ascii_nat_embedding a), <- (ascii_nat_embedding b), E. reflexivity.
Qed.

Lemma packedByte_injective (d d' : string) (k : nat) :
  packedByte (removeNonDigits d) k = packedByte (removeNonDigits d') k ->
  charAt (2 * k) (removeNonDigits d) = charAt (2 * k) (removeNonDigits d') /\
  charAt (2 * k + 1) (removeNonDigits d) = charAt (2 * k + 1) (removeNonDigits d').
Proof.
  unfold packedByte. intros H.
  pose proof (proj2 (digit_hexValue _ (charAt_digit d (2 * k)))).
  pose proof (proj2 (digit_hexValue _ (charAt_digit d (2 * k + 1)))).
  pose proof (proj2 (digit_hexValue _ (charAt_digit d' (2 * k)))).
  pose proof (proj2 (digit_hexValue _ (charAt_digit d' (2 * k + 1)))).
  split; apply digitValue_injective; lia.
Qed.

End HandshakeLoop.

(** X22. The handshake is a frame by the decoder's own rules: START,
    FUNCTION and ADDRESS [0xB0], LENGTH 3 for the three identifier bytes,
    their checksum and END.  The decoder consumes it whole, hands nothing
    to the sample decoder (FUNCTION is not [0xF0]) and reports nothing. *)
Theorem handshake_frame_is_well_formed :
  forall deviceIdStr : String.string,
    let digits := Handshake.removeNonDigits deviceIdStr in
    let sent := Handshake.handshakeFrame deviceIdStr in
    sent = frame 0xB0 0xB0 [Handshake.packedByte digits 0;
                            Handshake.packedByte digits 1;
                            Handshake.packedByte digits 2] /\
    (forall (Svc : Type) (parse : list Z -> Svc -> Svc)
            (warn : Z -> Z -> Svc -> Svc) (rest : list Z) (this : Svc),
        loopBody parse warn (sent ++ rest) this = Continue rest this /\
        decodePass parse warn (sent ++ rest) this = decodePass parse warn rest this) /\
    decodePass logPayload logWarning sent [] = ([], []).
Proof.
  intros s digits sent.
  assert (E : sent = frame 0xB0 0xB0 [Handshake.packedByte digits 0;
                                      Handshake.packedByte digits 1;
                                      Handshake.packedByte digits 2])
    by apply HandshakeLoop.handshakeFrame_frame.
  split; [exact E|].
  assert (Hgen : forall (Svc : Type) (parse : list Z -> Svc -> Svc)
            (warn : Z -> Z -> Svc -> Svc) (rest : list Z) (this : Svc),
        loopBody parse warn (sent ++ rest) this = Continue rest this /\
        decodePass parse warn (sent ++ rest) this = decodePass parse warn rest this).
  { intros Svc parse warn rest this. rewrite E.
    rewrite loopBody_frame, decodePass_frame. split; reflexivity. }
  split; [exact Hgen|].
  rewrite <- (app_nil_r sent), (proj2 (Hgen _ logPayload logWarning [] [])).
  apply decodePass_short. cbn [length]. lia.
Qed.

(** X23. The handshake depends on the identifier through its cleaned
    form only: two identifier strings give the same frame exactly when
    their first six decimal digits, padded with ["0"], agree.  The cleaned
    form has six characters and cleaning it again changes nothing. *)
Theorem handshake_depends_on_cleaned_identifier :
  forall s1 s2 : String.string,
    (Handshake.handshakeFrame s1 = Handshake.handshakeFrame s2 <->
     Handshake.cleanId s1 = Handshake.cleanId s2) /\
    String.length (Handshake.cleanId s1) = 6%nat /\
    Handshake.cleanId (Handshake.cleanId s1) = Handshake.cleanId s1 /\
    Handshake.handshakeFrame (Handshake.cleanId s1) = Handshake.handshakeFrame s1.
Proof.
  intros s1 s2.
  assert (Hlen : forall s, String.length (Handshake.cleanId s) = 6%nat).
  { intros s. rewrite HandshakeLoop.cleanId_chars. reflexivity. }
  assert (Hidem : forall s, Handshake.cleanId (Handshake.cleanId s)
                            = Handshake.cleanId s).
  { intros s. rewrite (HandshakeLoop.cleanId_chars s).
    apply HandshakeLoop.cleanId_six_digits; apply HandshakeFacts.charAt_digit. }
  assert (Hfun : forall a b, Handshake.cleanId a = Handshake.cleanId b ->
                   Handshake.handshakeFrame a = Handshake.handshakeFrame b).
  { intros a b H. unfold Handshake.handshakeFrame. rewrite H. reflexivity. }
  split; [split|].
  - intros H. rewrite !HandshakeLoop.handshakeFrame_frame in H.
    unfold frame in H.
    pose proof (f_equal (fun l => nth 4 l 0) H) as H0.
    pose proof (f_equal (fun l => nth 5 l 0) H) as H1.
    pose proof (f_equal (fun l => nth 6 l 0) H) as H2.
    cbn [app nth] in H0, H1, H2. clear H.
    apply HandshakeLoop.packedByte_injective in H0, H1, H2.
    cbn [Nat.mul Nat.add] in H0, H1, H2.
    rewrite (HandshakeLoop.cleanId_chars s1), (HandshakeLoop.cleanId_chars s2).
    destruct H0 as [-> ->], H1 as [-> ->], H2 as [-> ->]. reflexivity.
  - apply Hfun.
  - split; [apply Hlen|]. split; [apply Hidem|]. apply Hfun, Hidem.
Qed.

(** ** The polling loop of the application *)

Module AppFacts.

Lemma lastN_all {A : Type} (n : nat) (l : list A) :
  (length l <= n)%nat -> lastN n l = l.
Proof.
  intros H. unfold lastN. replace (length l - n)%nat with O by lia. reflexivity.
Qed.

Lemma pushWave_lastN (prev : list EEGDataPoint) (raw : EEGDataPoint) :
  pushWave prev raw = lastN HISTORY_LENGTH (prev ++ [raw]).
Proof.
  unfold pushWave. cbv zeta.
  destruct (Nat.ltb_spec HISTORY_LENGTH (length (prev ++ [raw]))) as [H|H].
  - reflexivity.
  - symmetry. apply lastN_all, H.
Qed.

Lemma lastN_app_lastN {A : Type} (n : nat) (l more : list A) :
  lastN n (lastN n l ++ more) = lastN n (l ++ more).
Proof.
  unfold lastN.
  destruct (Nat.le_gt_cases (length l) n) as [H|H].
  - replace (length l - n)%nat with O by lia. reflexivity.
  - assert (E : skipn (length l - n) l ++ more = skipn (length l - n) (l ++ more)).
    { rewrite skipn_app. replace (length l - n - length l)%nat with O by lia.
      reflexivity. }
    rewrite E, skipn_skipn. f_equal.
    rewrite length_skipn, !length_app. lia.
Qed.

Lemma fold_pushWave (raws : list EEGDataPoint) :
  forall history,
    fold_left pushWave raws (lastN HISTORY_LENGTH history)
      = lastN HISTORY_LENGTH (history ++ raws).
Proof.
  induction raws as [|r raws IH]; intros history.
  - cbn [fold_left]. rewrite app_nil_r. reflexivity.
  - cbn [fold_left]. rewrite pushWave_lastN, lastN_app_lastN.
    rewrite IH, <- app_assoc. reflexivity.
Qed.

Lemma processFrame_fst (frames : list polled) :
  forall st,
    fst (fold_left processFrame frames st)
      = fold_left pushWave (map point frames) (fst st).
Proof.
  induction frames as [|p frames IH]; intros st; [reflexivity|].
  cbn [fold_left map]. rewrite IH. reflexivity.
Qed.

Lemma processFrame_snd (frames : list polled) :
  forall st,
    snd (fold_left processFrame frames st)
      = fold_left (fun v p => voiceFeedback (running p) (seen p) (now p) v)
                  frames (snd st).
Proof.
  induction frames as [|p frames IH]; intros st; [reflexivity|].
  cbn [fold_left]. rewrite IH. reflexivity.
Qed.

(** One poll either leaves the voice alone or speaks once, after the
    cool-down of the prompt, in a running closure. *)
Lemma voiceFeedback_cases (running : bool) (m : AnalysisMetrics) (now : Z)
      (voice : Voice) :
  voiceFeedback running m now voice = voice \/
  exists p,
    voiceFeedback running m now voice
      = {| lastVoiceTime := now; spoken := spoken voice ++ [(now, p)] |} /\
    running = true /\
    match p with
    | VoiceFeedback => 15000 < now - lastVoiceTime voice /\ isMeditating m = true
    | FocusBreath => 8000 < now - lastVoiceTime voice /\ isMeditating m = false
                     /\ (relaxation m <? 0.6)%float = true
    end.
Proof.
  unfold voiceFeedback.
  destruct (isMeditating m) eqn:Hm; cbn [negb andb].
  - destruct (Z.ltb_spec 15000 (now - lastVoiceTime voice)) as [H|H];
      [|left; reflexivity].
    destruct running; cbn [andb]; [|left; reflexivity].
    right. exists VoiceFeedback. repeat split. exact H.
  - destruct (relaxation m <? 0.6)%float eqn:Hr; cbn [andb]; [|left; reflexivity].
    destruct (Z.ltb_spec 8000 (now - lastVoiceTime voice)) as [H|H];
      [|left; reflexivity].
    destruct running; cbn [andb]; [|left; reflexivity].
    right. exists FocusBreath. repeat split. exact H.
Qed.

Lemma voice_run (frames : list polled) :
  forall voice,
    let voice' :=
      fold_left (fun v p => voiceFeedback (running p) (seen p) (now p) v)
                frames voice in
    exists new,
      spoken voice' = spoken voice ++ new /\
      spacedFrom (lastVoiceTime voice) new /\
      lastVoiceTime voice' = last (map fst new) (lastVoiceTime voice) /\
      (length new <= length (filter running frames))%nat.
Proof.
  induction frames as [|p frames IH]; intros voice; cbv zeta.
  - exists []. cbn. rewrite app_nil_r. repeat split. lia.
  - cbn [fold_left].
    destruct (IH (voiceFeedback (running p) (seen p) (now p) voice))
      as (new & Hs & Hsp & Hl & Hn).
    destruct (voiceFeedback_cases (running p) (seen p) (now p) voice)
      as [E|(q & E & Hrun & Hq)].
    + rewrite E in *. exists new. split; [exact Hs|]. split; [exact Hsp|].
      split; [exact Hl|].
      cbn [filter]. destruct (running p); cbn [length]; lia.
    + rewrite E in *. cbn [spoken lastVoiceTime] in *.
      exists ((now p, q) :: new).
      split; [rewrite Hs, <- app_assoc; reflexivity|].
      split.
      { cbn [spacedFrom]. split; [|exact Hsp]. destruct q; tauto. }
      split.
      { rewrite Hl. cbn [map fst]. destruct new as [|e new]; [reflexivity|].
        cbn [map]. change (last (now p :: fst e :: map fst new) (lastVoiceTime voice))
          with (last (fst e :: map fst new) (lastVoiceTime voice)).
        apply last_default. discriminate. }
      cbn [filter]. rewrite Hrun. cbn [length]. lia.
Qed.

End AppFacts.

(** X24. The wave history of the application holds the latest points:
    after any number of polls it is the last 100 of the points it had and
    the raw points polled since, so never more than 100. *)
Theorem wave_history_keeps_latest_points :
  forall (frames : list polled) (history : list EEGDataPoint) (voice : Voice),
    (length history <= HISTORY_LENGTH)%nat ->
    let history' := fst (fold_left processFrame frames (history, voice)) in
    history' = lastN HISTORY_LENGTH (history ++ map point frames) /\
    (length history' <= 100)%nat /\
    (forall raw, pushWave history raw = lastN HISTORY_LENGTH (history ++ [raw])).
Proof.
  intros frames history voice Hlen history'.
  assert (E : history' = lastN HISTORY_LENGTH
                           (history ++ map point frames)).
  { unfold history'. rewrite AppFacts.processFrame_fst. cbn [fst].
    rewrite <- (AppFacts.lastN_all HISTORY_LENGTH history Hlen) at 1.
    apply AppFacts.fold_pushWave. }
  split; [exact E|]. split.
  - rewrite E, length_lastN. unfold HISTORY_LENGTH. lia.
  - intros raw. apply AppFacts.pushWave_lastN.
Qed.

Lemma wave_history_keeps_latest_points_witness :
  (length (fst (fold_left processFrame
     (repeat {| point := raw emptyData; seen := metrics emptyData; running := true;
               now := 0 |} 150)
     ([], {| lastVoiceTime := 0; spoken := [] |}))) <= 100)%nat.
Proof.
  refine (proj1 (proj2 (wave_history_keeps_latest_points
    (repeat {| point := raw emptyData; seen := metrics emptyData; running := true;
               now := 0 |} 150) []
    {| lastVoiceTime := 0; spoken := [] |} _))).
  cbn [length]. lia.
Defined.

(** X25. Voice prompts keep their distance.  Over any sequence of polls
    the prompts spoken are spaced by the cool-downs: a [voice_feedback]
    comes more than 15 s, a [focus_breath] more than 8 s after the prompt
    before it (or after the initial time); the time kept is that of the
    last prompt; and no more prompts are spoken than there are polls in a
    running closure. *)
Theorem voice_prompts_keep_their_distance :
  forall (frames : list polled) (history : list EEGDataPoint) (voice : Voice),
    let voice' := snd (fold_left processFrame frames (history, voice)) in
    exists new,
      spoken voice' = spoken voice ++ new /\
      spacedFrom (lastVoiceTime voice) new /\
      lastVoiceTime voice' = last (map fst new) (lastVoiceTime voice) /\
      (length new <= length (filter running frames))%nat.
Proof.
  intros frames history voice voice'. unfold voice'.
  rewrite AppFacts.processFrame_snd. apply AppFacts.voice_run.
Qed.

(** * The text protocol variant: results *)

Module TextFacts.

Import TextProtocol.

Lemma split_nonempty (sep : Z) (s : text) : split sep s <> [].
Proof.
  destruct s as [|c s]; cbn [split]; [discriminate|].
  destruct (c =? sep); [discriminate|].
  destruct (split sep s); discriminate.
Qed.

Lemma split_cons (sep c : Z) (s : text) :
  split sep (c :: s) =
    if c =? sep then [] :: split sep s
    else (c :: hd [] (split sep s)) :: tl (split sep s).
Proof.
  cbn [split]. destruct (c =? sep); [reflexivity|].
  pose proof (split_nonempty sep s). destruct (split sep s); [congruence|reflexivity].
Qed.

Lemma split_no_separator (sep : Z) (s : text) :
  ~ In sep s -> split sep s = [s].
Proof.
  induction s as [|c s IH]; intros H; [reflexivity|].
  rewrite split_cons. destruct (Z.eqb_spec c sep) as [->|_].
  - exfalso. apply H. left. reflexivity.
  - rewrite IH by (intros Hin; apply H; right; exact Hin). reflexivity.
Qed.

(** The last piece holds no separator. *)
Lemma split_last_clean (sep : Z) (s : text) : ~ In sep (last (split sep s) []).
Proof.
  induction s as [|c s IH]; [intros []|].
  rewrite split_cons. destruct (Z.eqb_spec c sep) as [->|Hne].
  - pose proof (split_nonempty sep s).
    destruct (split sep s) as [|p ps] eqn:E; [congruence|]. exact IH.
  - pose proof (split_nonempty sep s).
    destruct (split sep s) as [|p ps] eqn:E; [congruence|].
    cbn [hd tl]. destruct ps as [|q ps].
    + cbn [last] in IH |- *. intros [Hin|Hin]; [congruence|exact (IH Hin)].
    + exact IH.
Qed.

(** Splitting a text that goes on: the complete pieces stay, the last
    piece is split again with what follows. *)
Lemma split_app (sep : Z) (s v : text) :
  split sep (s ++ v) =
    removelast (split sep s) ++ split sep (last (split sep s) [] ++ v).
Proof.
  induction s as [|c s IH]; [reflexivity|].
  cbn [app]. rewrite !split_cons.
  pose proof (split_nonempty sep s) as Hs.
  destruct (Z.eqb_spec c sep) as [->|Hne].
  - rewrite IH. destruct (split sep s) as [|p ps] eqn:E; [congruence|]. reflexivity.
  - rewrite IH. destruct (split sep s) as [|p ps] eqn:E; [congruence|].
    cbn [hd tl]. destruct ps as [|q ps].
    + cbn [removelast last app]. rewrite split_cons.
      destruct (Z.eqb_spec c sep); [congruence|].
      pose proof (split_nonempty sep (p ++ v)).
      destruct (split sep (p ++ v)); [congruence|reflexivity].
    + change (removelast (p :: q :: ps)) with (p :: removelast (q :: ps)).
      change (removelast ((c :: p) :: q :: ps))
        with ((c :: p) :: removelast (q :: ps)).
      change (last (p :: q :: ps) []) with (last (q :: ps) []).
      change (last ((c :: p) :: q :: ps) []) with (last (q :: ps) []).
      reflexivity.
Qed.

Lemma removelast_app_nonempty {A : Type} (l1 l2 : list A) :
  l2 <> [] -> removelast (l1 ++ l2) = l1 ++ removelast l2.
Proof. intros H. apply removelast_app, H. Qed.

Lemma split_line (sep : Z) (line rest : text) :
  ~ In sep line -> split sep (line ++ sep :: rest) = line :: split sep rest.
Proof.
  intros H. induction line as [|c line IH].
  - cbn [app]. rewrite split_cons, Z.eqb_refl. reflexivity.
  - cbn [app]. rewrite split_cons.
    destruct (Z.eqb_spec c sep) as [->|_]; [exfalso; apply H; left; reflexivity|].
    rewrite IH by (intros Hin; apply H; right; exact Hin). reflexivity.
Qed.

Lemma split_count (sep : Z) (s : text) :
  length (split sep s) = S (count_occ Z.eq_dec s sep).
Proof.
  induction s as [|c s IH]; [reflexivity|].
  rewrite split_cons. cbn [count_occ].
  pose proof (split_nonempty sep s) as Hs.
  destruct (Z.eqb_spec c sep) as [->|Hne].
  - destruct (Z.eq_dec sep sep); [|congruence]. cbn [length]. rewrite IH. reflexivity.
  - destruct (Z.eq_dec c sep); [congruence|].
    destruct (split sep s); [congruence|]. exact IH.
Qed.

Section LineFacts.

Context {Svc : Type}.
Variable parse : text -> Svc -> Svc.

Lemma processBuffer_clean (buffer : text) (this : Svc) :
  ~ In newline buffer -> processBuffer parse buffer this = (buffer, this).
Proof.
  intros H. unfold processBuffer. rewrite (split_no_separator _ _ H). reflexivity.
Qed.

Lemma processBuffer_leaves_clean (buffer : text) (this : Svc) :
  ~ In newline (fst (processBuffer parse buffer this)).
Proof. apply split_last_clean. Qed.

(** Processing may stop where the text at hand ends and go on when more
    arrives. *)
Lemma processBuffer_resume (buffer value : text) (this : Svc) :
  processBuffer parse (buffer ++ value) this =
    processBuffer parse (fst (processBuffer parse buffer this) ++ value)
                  (snd (processBuffer parse buffer this)).
Proof.
  unfold processBuffer. cbn [fst snd]. rewrite split_app.
  set (done := removelast (split newline buffer)).
  set (more := split newline (last (split newline buffer) [] ++ value)).
  assert (Hmore : more <> []) by apply split_nonempty.
  rewrite removelast_app by exact Hmore.
  rewrite fold_left_app. f_equal.
  apply last_app_nonempty, Hmore.
Qed.

Lemma feedText_one_pass (chunks : list text) :
  forall (buffer : text) (this : Svc),
    ~ In newline buffer ->
    feedText parse chunks buffer this
      = processBuffer parse (buffer ++ concat chunks) this.
Proof.
  induction chunks as [|v later IH]; intros buffer this Hclean.
  - cbn [feedText concat]. rewrite app_nil_r.
    symmetry. apply processBuffer_clean, Hclean.
  - cbn [concat]. destruct v as [|c v].
    + cbn [feedText app]. apply IH, Hclean.
    + cbn [feedText]. rewrite app_assoc.
      rewrite (processBuffer_resume (buffer ++ c :: v) (concat later) this).
      pose proof (processBuffer_leaves_clean (buffer ++ c :: v) this) as Hc.
      destruct (processBuffer parse (buffer ++ c :: v) this) as [b1 s1].
      cbn [fst snd] in *. apply IH, Hc.
Qed.

(** Complete lines, then a fragment. *)
Lemma processBuffer_lines (lines : list text) (rest : text) (this : Svc) :
  Forall (fun line => ~ In newline line) lines -> ~ In newline rest ->
  processBuffer parse (concat (map (fun line => line ++ [newline]) lines) ++ rest)
                this
    = (rest, fold_left (handleLine parse) lines this).
Proof.
  intros Hlines Hrest. unfold processBuffer.
  assert (E : split newline
                (concat (map (fun line => line ++ [newline]) lines) ++ rest)
              = lines ++ [rest]).
  { induction Hlines as [|line lines Hline _ IH].
    - cbn [map concat app]. apply split_no_separator, Hrest.
    - cbn [map concat]. rewrite <- !app_assoc. cbn [app].
      rewrite (split_line _ _ _ Hline), IH. reflexivity. }
  rewrite E, last_last, removelast_last. reflexivity.
Qed.

End LineFacts.

End TextFacts.

Module TextServiceFacts.

Import TextProtocol TextFacts.

Lemma trimStart_app (s v : text) :
  trimStart s <> [] -> trimStart (s ++ v) = trimStart s ++ v.
Proof.
  induction s as [|c s IH]; intros H; [cbn [trimStart] in H; congruence|].
  cbn [app trimStart] in *. destruct (isWhiteSpace c); [apply IH, H|reflexivity].
Qed.

Lemma trimStart_blank_app (s v : text) :
  trimStart s = [] -> trimStart (s ++ v) = trimStart v.
Proof.
  induction s as [|c s IH]; intros H; [reflexivity|].
  cbn [app trimStart] in *. destruct (isWhiteSpace c); [apply IH, H|discriminate].
Qed.

(** A carriage return before the newline is trimmed away, as is any
    white space at the end of a line. *)
Lemma trim_trailing (s : text) (c : Z) :
  isWhiteSpace c = true -> trim (s ++ [c]) = trim s.
Proof.
  intros Hc. unfold trim.
  destruct (trimStart s) as [|x xs] eqn:E.
  - rewrite (trimStart_blank_app s [c] E). cbn [trimStart]. rewrite Hc. reflexivity.
  - rewrite (trimStart_app s [c]) by (rewrite E; discriminate).
    rewrite E, rev_app_distr. cbn [rev app trimStart]. rewrite Hc. reflexivity.
Qed.

Lemma fold_handleLine {Svc : Type} (parse : text -> Svc -> Svc) (lines : list text) :
  forall this,
    fold_left (handleLine parse) lines this
      = fold_left (fun s line => parse (trim line) s) (filter nonBlank lines) this.
Proof.
  induction lines as [|line lines IH]; intros this; [reflexivity|].
  cbn [fold_left filter]. unfold handleLine at 2, nonBlank.
  destruct (0 <? length (trim line))%nat; cbn [fold_left]; apply IH.
Qed.

Section Service.

Variable parseFloat : text -> float.
Variable Date_now : nat -> Z.

Lemma parseDataPacket_setInput (b line : text) (this : TextService) :
  parseDataPacket parseFloat Date_now line (setInput b this)
    = setInput b (parseDataPacket parseFloat Date_now line this).
Proof.
  unfold parseDataPacket. cbv zeta.
  destruct (5 <=? length (split comma line))%nat; reflexivity.
Qed.

Lemma processBuffer_setInput (b buffer : text) (this : TextService) :
  processBuffer (parseDataPacket parseFloat Date_now) buffer (setInput b this)
    = (fst (processBuffer (parseDataPacket parseFloat Date_now) buffer this),
       setInput b (snd (processBuffer (parseDataPacket parseFloat Date_now)
                                       buffer this))).
Proof.
  unfold processBuffer. cbn [fst snd]. f_equal.
  generalize (removelast (split newline buffer)). intros lines. revert this.
  induction lines as [|line lines IH]; intros this; [reflexivity|].
  cbn [fold_left]. rewrite <- IH. f_equal.
  unfold handleLine. destruct (0 <? length (trim line))%nat; [|reflexivity].
  apply parseDataPacket_setInput.
Qed.

Lemma feedText_setInput (chunks : list text) :
  forall (b buffer : text) (this : TextService),
    feedText (parseDataPacket parseFloat Date_now) chunks buffer (setInput b this)
      = (fst (feedText (parseDataPacket parseFloat Date_now) chunks buffer this),
         setInput b (snd (feedText (parseDataPacket parseFloat Date_now)
                                   chunks buffer this))).
Proof.
  induction chunks as [|v later IH]; intros b buffer this; [reflexivity|].
  destruct v as [|c v]; cbn [feedText]; [apply IH|].
  rewrite processBuffer_setInput.
  destruct (processBuffer _ (buffer ++ c :: v) this) as [b1 s1]. cbn [fst snd].
  apply IH.
Qed.

Lemma receiveText_processBuffer (value : text) (this : TextService) :
  value <> [] ->
  receiveText parseFloat Date_now value this =
    setInput (fst (processBuffer (parseDataPacket parseFloat Date_now)
                                 (inputBuffer this ++ value) this))
             (snd (processBuffer (parseDataPacket parseFloat Date_now)
                                 (inputBuffer this ++ value) this)).
Proof.
  intros H. destruct value as [|c v]; [congruence|].
  unfold receiveText.
  destruct (processBuffer _ (inputBuffer this ++ c :: v) this) as [b s].
  reflexivity.
Qed.

Lemma setInput_same (this : TextService) : setInput (inputBuffer this) this = this.
Proof. destruct this; reflexivity. Qed.

Lemma receiveText_feedText (chunks : list text) :
  forall this,
    fold_left (fun s v => receiveText parseFloat Date_now v s) chunks this =
      setInput (fst (feedText (parseDataPacket parseFloat Date_now) chunks
                              (inputBuffer this) this))
               (snd (feedText (parseDataPacket parseFloat Date_now) chunks
                              (inputBuffer this) this)).
Proof.
  induction chunks as [|v later IH]; intros this.
  - cbn [fold_left feedText fst snd]. symmetry. apply setInput_same.
  - cbn [fold_left]. rewrite IH. destruct v as [|c v].
    + reflexivity.
    + rewrite (receiveText_processBuffer (c :: v) this) by discriminate.
      cbn [feedText].
      destruct (processBuffer _ (inputBuffer this ++ c :: v) this) as [b s].
      cbn [fst snd inputBuffer setInput].
      rewrite feedText_setInput. cbn [fst snd].
      destruct (feedText _ later b s) as [b' s']. reflexivity.
Qed.

End Service.

End TextServiceFacts.

(** X26. Text protocol: how the stream is cut into chunks does not
    matter.  From a buffer without newline, feeding the chunks one by one
    (empty ones are skipped) hands the same lines to the packet handler
    and leaves the same buffer as processing all the text at once; the
    buffer never keeps a newline. *)
Theorem text_lines_survive_chunking :
  forall (chunks : list TextProtocol.text) (buffer : TextProtocol.text),
    ~ In TextProtocol.newline buffer ->
    (forall (Svc : Type) (parse : TextProtocol.text -> Svc -> Svc) (this : Svc),
        TextProtocol.feedText parse chunks buffer this
          = TextProtocol.processBuffer parse (buffer ++ concat chunks) this /\
        ~ In TextProtocol.newline
             (fst (TextProtocol.feedText parse chunks buffer this))) /\
    snd (TextProtocol.feedText logLine chunks buffer [])
      = snd (TextProtocol.processBuffer logLine (buffer ++ concat chunks) []) /\
    (forall (parseFloat : TextProtocol.text -> float) (Date_now : nat -> Z)
            (this : TextProtocol.TextService),
        TextProtocol.inputBuffer this = buffer ->
        fold_left (fun s v => TextProtocol.receiveText parseFloat Date_now v s)
                  chunks this
          = TextProtocol.receiveText parseFloat Date_now (concat chunks) this).
Proof.
  intros chunks buffer Hclean.
  assert (Hgen : forall (Svc : Type) (parse : TextProtocol.text -> Svc -> Svc)
                        (this : Svc),
             TextProtocol.feedText parse chunks buffer this
             = TextProtocol.processBuffer parse (buffer ++ concat chunks) this).
  { intros Svc parse this. apply TextFacts.feedText_one_pass, Hclean. }
  split.
  { intros Svc parse this. split; [apply Hgen|].
    rewrite Hgen. apply TextFacts.processBuffer_leaves_clean. }
  split; [rewrite Hgen; reflexivity|].
  intros parseFloat Date_now this Hbuf.
  rewrite TextServiceFacts.receiveText_feedText, Hbuf, Hgen.
  destruct (concat chunks) as [|c v] eqn:E.
  - rewrite app_nil_r.
    rewrite (TextFacts.processBuffer_clean _ buffer this Hclean). cbn [fst snd].
    rewrite <- Hbuf. apply TextServiceFacts.setInput_same.
  - rewrite (TextServiceFacts.receiveText_processBuffer parseFloat Date_now (c :: v) this)
      by discriminate.
    rewrite Hbuf. reflexivity.
Qed.

Lemma text_lines_survive_chunking_witness :
  snd (TextProtocol.feedText logLine [[49; 44]; []; [50; 10; 51]; [10; 52]] [48] [])
    = snd (TextProtocol.processBuffer logLine
             ([48] ++ concat [[49; 44]; []; [50; 10; 51]; [10; 52]]) []).
Proof.
  refine (proj1 (proj2 (text_lines_survive_chunking
                          [[49; 44]; []; [50; 10; 51]; [10; 52]] [48] _))).
  cbn. intros [H|[]]. discriminate H.
Defined.

(** X27. Text protocol: complete lines are handled in order.  Of a text
    made of lines each closed by a newline, followed by a fragment, the
    lines that are not blank are handed over trimmed, in order, and the
    fragment stays in the buffer; a carriage return before the newline is
    trimmed away. *)
Theorem text_lines_are_handled_in_order :
  forall (lines : list TextProtocol.text) (rest : TextProtocol.text),
    Forall (fun line => ~ In TextProtocol.newline line) lines ->
    ~ In TextProtocol.newline rest ->
    let received :=
      concat (map (fun line => line ++ [TextProtocol.newline]) lines) ++ rest in
    (forall (Svc : Type) (parse : TextProtocol.text -> Svc -> Svc) (this : Svc),
        TextProtocol.processBuffer parse received this
          = (rest, fold_left (fun s line => parse (TextProtocol.trim line) s)
                             (filter nonBlank lines) this)) /\
    TextProtocol.processBuffer logLine received []
      = (rest, map TextProtocol.trim (filter nonBlank lines)) /\
    (forall line, TextProtocol.trim (line ++ [13]) = TextProtocol.trim line).
Proof.
  intros lines rest Hlines Hrest received.
  assert (Hgen : forall (Svc : Type) (parse : TextProtocol.text -> Svc -> Svc)
                        (this : Svc),
        TextProtocol.processBuffer parse received this
          = (rest, fold_left (fun s line => parse (TextProtocol.trim line) s)
                             (filter nonBlank lines) this)).
  { intros Svc parse this. unfold received.
    rewrite (TextFacts.processBuffer_lines parse lines rest this Hlines Hrest).
    rewrite TextServiceFacts.fold_handleLine. reflexivity. }
  split; [exact Hgen|]. split.
  - rewrite Hgen. f_equal.
    generalize (filter nonBlank lines). intros l.
    change (fold_left (fun s line => logLine (TextProtocol.trim line) s) l []
            = [] ++ map TextProtocol.trim l).
    generalize (@nil TextProtocol.text).
    induction l as [|x l IH]; intros log.
    + cbn. symmetry. apply app_nil_r.
    + cbn [fold_left map]. rewrite IH. unfold logLine.
      rewrite <- app_assoc. reflexivity.
  - intros line. apply TextServiceFacts.trim_trailing. reflexivity.
Qed.

Lemma text_lines_are_handled_in_order_witness :
  TextProtocol.processBuffer logLine
    (concat (map (fun line => line ++ [TextProtocol.newline])
                 [[49; 44; 50; 13]; [32]; [51]]) ++ [52]) []
    = ([52], map TextProtocol.trim (filter nonBlank [[49; 44; 50; 13]; [32]; [51]])).
Proof.
  refine (proj1 (proj2 (text_lines_are_handled_in_order
                          [[49; 44; 50; 13]; [32]; [51]] [52] _ _))).
  - repeat (apply Forall_cons; [cbn; intuition discriminate|]). apply Forall_nil.
  - cbn. intuition discriminate.
Defined.

(** X28. Text protocol: a packet needs five fields.  A line has one
    field more than it has commas; with fewer than four commas it leaves
    the service as it is; otherwise the snapshot is replaced, no band is
    NaN (a field that does not parse counts as 0), the metrics are the
    plain ratios with [eps = 0.0001], not clamped, the flag is the
    threshold test, and the raw value is 0 when the sixth field is
    missing. *)
Theorem text_packet_needs_five_fields :
  forall (parseFloat : TextProtocol.text -> float) (Date_now : nat -> Z)
         (line : TextProtocol.text) (this : TextProtocol.TextService),
    let commas := count_occ Z.eq_dec line TextProtocol.comma in
    let this' := TextProtocol.parseDataPacket parseFloat Date_now line this in
    let b := bands (TextProtocol.latestData this') in
    let m := metrics (TextProtocol.latestData this') in
    length (TextProtocol.split TextProtocol.comma line) = S commas /\
    ((commas < 4)%nat -> this' = this) /\
    ((4 <= commas)%nat ->
     (is_nan (delta b) || is_nan (theta b) || is_nan (alpha b) || is_nan (beta b)
      || is_nan (gamma b)) = false /\
     relaxation m = (alpha b / (beta b + theta b + 0.0001))%float /\
     attention m = (beta b / (alpha b + theta b + 0.0001))%float /\
     isMeditating m = (MEDITATION_THRESHOLD <? relaxation m)%float /\
     ((commas = 4)%nat -> value (raw (TextProtocol.latestData this')) = 0%float) /\
     TextProtocol.clockReads this' = S (TextProtocol.clockReads this) /\
     TextProtocol.inputBuffer this' = TextProtocol.inputBuffer this).
Proof.
  intros parseFloat Date_now line this commas this' b m.
  pose proof (TextFacts.split_count TextProtocol.comma line) as Hcount.
  fold commas in Hcount.
  split; [exact Hcount|].
  assert (Hor : forall x, is_nan (orDefault x 0) = false).
  { intros x. unfold orDefault.
    destruct (is_nan x) eqn:E; cbn [orb]; [reflexivity|].
    destruct (is_zero x); [reflexivity|exact E]. }
  split.
  - intros Hlt. unfold this', TextProtocol.parseDataPacket. cbv zeta.
    rewrite Hcount.
    destruct (Nat.leb_spec 5 (S commas)) as [H|_]; [lia|reflexivity].
  - intros Hge. unfold b, m, this', TextProtocol.parseDataPacket. cbv zeta.
    rewrite Hcount.
    destruct (Nat.leb_spec 5 (S commas)) as [_|H]; [|lia].
    cbn [TextProtocol.setData TextProtocol.latestData bands metrics delta theta
         alpha beta gamma relaxation attention isMeditating raw value
         TextProtocol.clockReads TextProtocol.inputBuffer].
    rewrite !Hor. cbn [orb].
    repeat split.
    intros E. rewrite E. reflexivity.
Qed.

Lemma text_packet_needs_five_fields_witness :
  TextProtocol.parseDataPacket (fun _ => 1%float) (fun _ => 0)
    [49; 44; 50; 44; 51; 44; 52]
    TextProtocol.newTextService
  = TextProtocol.newTextService.
Proof.
  refine (proj1 (proj2 (text_packet_needs_five_fields (fun _ => 1%float) (fun _ => 0)
    [49; 44; 50; 44; 51; 44; 52]
    TextProtocol.newTextService)) _).
  cbn. lia.
Defined.

(** ** The text protocol variant: simulation without motion *)

Module TextSimulationFacts.

Import TextProtocol.

#[local] Open Scope float_scope.

Lemma text_relaxAfter_fixed : relaxStep (relaxAfter 154) = relaxAfter 154.
Proof. vm_compute. reflexivity. Qed.

Lemma text_relaxAfter_stable (n : nat) :
  (154 <= n)%nat -> relaxAfter n = relaxAfter 154.
Proof.
  induction 1 as [|n Hn IH]; [reflexivity|].
  change (relaxAfter (S n)) with (relaxStep (relaxAfter n)).
  rewrite IH. apply text_relaxAfter_fixed.
Qed.

Lemma text_relaxAfter_table :
  forallb (fun n => (relaxAfter n <=? relaxAfter (S n)) && (relaxAfter n <=? 1)
                    && (if (n <? 6)%nat
                        then negb (MEDITATION_THRESHOLD <? relaxAfter n)
                        else MEDITATION_THRESHOLD <? relaxAfter n))
          (seq 0 155) = true.
Proof. vm_compute. reflexivity. Qed.

Lemma text_relaxAfter_facts (n : nat) :
  (relaxAfter n <=? relaxAfter (S n)) = true /\
  (relaxAfter n <=? 1) = true /\
  (MEDITATION_THRESHOLD <? relaxAfter n) = negb (n <? 6)%nat.
Proof.
  assert (Hlow : forall k, (k <= 154)%nat ->
             (relaxAfter k <=? relaxAfter (S k)) = true /\
             (relaxAfter k <=? 1) = true /\
             (MEDITATION_THRESHOLD <? relaxAfter k) = negb (k <? 6)%nat).
  { intros k Hk. pose proof text_relaxAfter_table as T.
    rewrite forallb_forall in T.
    specialize (T k). rewrite in_seq in T. specialize (T ltac:(lia)).
    apply andb_prop in T. destruct T as [T T3].
    apply andb_prop in T. destruct T as [T1 T2].
    split; [exact T1|]. split; [exact T2|].
    destruct (k <? 6)%nat; cbn [negb].
    - apply negb_true_iff in T3. exact T3.
    - exact T3. }
  destruct (Nat.le_gt_cases n 154) as [Hn|Hn]; [apply Hlow, Hn|].
  rewrite (text_relaxAfter_stable n) by lia.
  rewrite (text_relaxAfter_stable (S n)) by lia.
  destruct (Hlow 154%nat (Nat.le_refl _)) as (_ & H2 & H3).
  split; [vm_compute; reflexivity|].
  split; [exact H2|].
  rewrite H3. destruct (Nat.ltb_spec n 6); [lia|reflexivity].
Qed.

Section Run.

Variable Date_now : nat -> Z.
Variable Math_random : nat -> float.
Variable Math_sin : float -> float.

Lemma text_updateSimulation_calm (this : TextService) :
  calm this ->
  calm (updateSimulation Date_now Math_random Math_sin this) /\
  relaxation (metrics (latestData
     (updateSimulation Date_now Math_random Math_sin this)))
    = relaxStep (relaxation (metrics (latestData this))).
Proof.
  intros (Hag & Hlast & _).
  unfold calm, updateSimulation. cbv zeta. rewrite Hag.
  split; [split; [reflexivity|split; [exact Hlast|reflexivity]]|reflexivity].
Qed.

Lemma text_handleMotion_calm (this : TextService) :
  calm this ->
  calm (handleMotion 0 0 0 this) /\
  latestData (handleMotion 0 0 0 this) = latestData this.
Proof.
  intros (Hag & Hlast & Hflag).
  unfold calm, handleMotion. cbv zeta. rewrite Hag.
  destruct Hlast as [-> | ->].
  - split; [split; [reflexivity|split; [right; reflexivity|exact Hflag]]|reflexivity].
  - split; [split; [reflexivity|split; [right; reflexivity|exact Hflag]]|reflexivity].
Qed.

Lemma text_simRun_calm (events : list simEvent) :
  forall this,
    Forall zeroMotion events -> calm this ->
    calm (simRun Date_now Math_random Math_sin events this) /\
    relaxation (metrics (latestData
       (simRun Date_now Math_random Math_sin events this)))
      = Nat.iter (ticks events) relaxStep (relaxation (metrics (latestData this))).
Proof.
  induction events as [|e events IH]; intros this Hev Hcalm.
  - split; [exact Hcalm|reflexivity].
  - inversion Hev as [|e' events' He Hrest]; subst.
    change (simRun Date_now Math_random Math_sin (e :: events) this)
      with (simRun Date_now Math_random Math_sin events
                   (simStep Date_now Math_random Math_sin this e)).
    destruct He as [-> | ->]; cbn [simStep].
    + destruct (text_updateSimulation_calm this Hcalm) as [Hc Hr].
      destruct (IH _ Hrest Hc) as [Hc' Hr'].
      split; [exact Hc'|].
      rewrite Hr', Hr.
      change (ticks (Tick :: events)) with (S (ticks events)).
      rewrite Nat.iter_succ_r. reflexivity.
    + destruct (text_handleMotion_calm this Hcalm) as [Hc Hd].
      destruct (IH _ Hrest Hc) as [Hc' Hr'].
      split; [exact Hc'|].
      rewrite Hr', Hd. reflexivity.
Qed.

End Run.

End TextSimulationFacts.

(** X29. Text protocol variant: the simulation without motion.  After
    [stopSimulation] and [startSimulation], fed only ticks and zero
    motion, the agitation stays 0, the relaxation after [n] ticks is the
    smoothing [prev * 0.8 + 1 * 0.2] iterated [n] times from the initial
    value, it never exceeds 1, [isMeditating] turns true at the sixth
    tick, and from tick 154 on the relaxation rests two units in the last
    place below 1. *)
Theorem text_variant_simulation_relaxes :
  forall (Date_now : nat -> Z) (Math_random : nat -> float)
         (Math_sin : float -> float) (this : TextProtocol.TextService)
         (events : list simEvent),
    Forall zeroMotion events ->
    let fresh := TextProtocol.startSimulation (TextProtocol.stopSimulation this) in
    let run := TextProtocol.simRun Date_now Math_random Math_sin events fresh in
    let relax := relaxation (metrics (TextProtocol.latestData run)) in
    TextProtocol.agitationLevel run = 0%float /\
    relax = TextProtocol.relaxAfter (ticks events) /\
    (relax <=? 1)%float = true /\
    isMeditating (metrics (TextProtocol.latestData run))
      = negb (ticks events <? 6)%nat /\
    ((154 <= ticks events)%nat -> relax = 0x1.ffffffffffffep-1%float).
Proof.
  intros Date_now Math_random Math_sin this events Hev fresh run relax.
  assert (Hcalm : TextProtocol.calm fresh).
  { split; [reflexivity|]. split; [left; reflexivity|reflexivity]. }
  destruct (TextSimulationFacts.text_simRun_calm Date_now Math_random Math_sin events _
              Hev Hcalm) as [(Hag & _ & Hflag) Hr].
  fold run in Hag, Hflag, Hr. fold relax in Hflag, Hr.
  assert (E : relax = TextProtocol.relaxAfter (ticks events)).
  { rewrite Hr. reflexivity. }
  destruct (TextSimulationFacts.text_relaxAfter_facts (ticks events)) as (_ & Hle & Hthr).
  split; [exact Hag|]. split; [exact E|].
  split; [rewrite E; exact Hle|].
  split; [rewrite Hflag, E; exact Hthr|].
  intros Hn. rewrite E, (TextSimulationFacts.text_relaxAfter_stable _ Hn).
  vm_compute. reflexivity.
Qed.

Lemma text_variant_simulation_relaxes_witness :
  isMeditating (metrics (TextProtocol.latestData
    (TextProtocol.simRun (fun _ => 0%Z) (fun _ => 0.5%float) (fun x => x)
       [Tick; Motion 0 0 0; Tick; Tick; Tick; Tick; Tick]
       (TextProtocol.startSimulation
          (TextProtocol.stopSimulation TextProtocol.newTextService)))))
    = true.
Proof.
  refine (proj1 (proj2 (proj2 (proj2
    (text_variant_simulation_relaxes (fun _ => 0%Z) (fun _ => 0.5%float) (fun x => x)
       TextProtocol.newTextService
       [Tick; Motion 0 0 0; Tick; Tick; Tick; Tick; Tick] _))))).
  repeat (apply Forall_cons; [first [left; reflexivity | right; reflexivity]|]).
  apply Forall_nil.
Defined.
